(** * LinkedIn lead-automation backend: a shallow embedding of [main.py]

    The service keeps five MongoDB collections ([campaign], [company],
    [template], [prospect], [messagelog]) and exposes HTTP handlers that
    read and write them.  This development embeds the helpers
    ([serialize], [render_template]), the handlers and the simulated
    automation engine ([process_automation]) as Rocq functions and
    proves the properties the specification states about them.

    The notice and the database diagnostic, which touch no collection,
    are left out.

    Conventions.
    - A Python [str] is the [string] of the bytes of its UTF-8
      encoding; [str.replace], [str.strip] and slicing are written out.
    - A [datetime] is the integer number of microseconds since the epoch
      (UTC); [timedelta(minutes=k)] and [timedelta(days=k)] are the
      corresponding multiples.  The database keeps dates in
      milliseconds: a date is cut to the millisecond below when it is
      written.
    - A document is a finite map from field names to values; a stored
      document carries the [ObjectId] the driver assigned to it.
    - [datetime.now], the [random] module and the driver's [ObjectId]
      generator are oracles of the world state: the n-th call reads the
      n-th entry.
    - A handler is a function of the world, which is what it does when
      nothing else runs in between; handlers and engine runs that
      overlap are interleaved call by call ([serve]). *)

From Stdlib Require Import ZArith Ascii String List Lia Bool.
From stdpp Require Import base option list gmap strings fin_maps pretty sorting.

Local Open Scope Z_scope.

(** ** Values and documents *)

(** [bson.ObjectId], identified with its 24-digit hexadecimal rendering:
    [str(oid)] is that rendering. *)
Record ObjectId := mkOid { oid_hex : string }.

#[global] Instance ObjectId_eq_dec : EqDecision ObjectId.
Proof. solve_decision. Defined.

Definition datetime := Z.

(** The values this service stores in its documents: [None], text,
    timestamps and object identifiers. *)
Inductive value :=
  | VNone
  | VStr (s : string)
  | VDate (t : datetime)
  | VOid (o : ObjectId).

#[global] Instance value_eq_dec : EqDecision value.
Proof. solve_decision. Defined.

(** A Python [dict] with string keys. *)
Abbreviation Doc := (gmap string value).

(** Dictionaries are objects of a store; a reference is a location. *)
Abbreviation loc := positive.
Abbreviation Heap := (gmap loc Doc).

(** A stored document: the [_id] the driver assigned, and the other
    fields. *)
Abbreviation Stored := (ObjectId * Doc)%type.
Abbreviation Collection := (list Stored).

(** Filter documents: [{field: v}] and [{field: {"$lte": t}}]. *)
Inductive cond :=
  | Eq (v : value)
  | Lte (t : datetime).

Abbreviation Query := (list (string * cond)).

(** A row as [csv.DictReader] yields it: column header to cell text.  A
    column the row does not reach is absent. *)
Abbreviation Row := (gmap string string).

(** How a computation ends: with a value, or with an exception.
    [ReplaceError] stands for the [AttributeError] or [TypeError] of
    [template.replace(...)] on a template that is not a string,
    [CsvError] for the [csv.Error] of a reader that meets a line it
    cannot parse. *)
Inductive exn :=
  | HTTPException (status_code : Z) (detail : string)
  | ReplaceError
  | CsvError.

Inductive outcome (A : Type) :=
  | Done (a : A)
  | Raised (e : exn).
Arguments Done {A} a.
Arguments Raised {A} e.

(** The textual renderings of a [datetime] come from the Python runtime:
    [v.isoformat()] and [str(v)]. *)
Class DatetimeText := {
  isoformat : datetime → string;
  str_datetime : datetime → string
}.

Section Text.
Context `{DatetimeText}.

(** [str(v)] *)
Definition py_str (v : value) : string :=
  match v with
  | VNone => "None"
  | VStr s => s
  | VDate t => str_datetime t
  | VOid o => oid_hex o
  end.

(** Truth value of [v] in a boolean context. *)
Definition truthy (v : value) : bool :=
  match v with
  | VNone => false
  | VStr s => negb (String.eqb s "")
  | VDate _ => true
  | VOid _ => true
  end.

(** [a or b] *)
Definition py_or (a b : value) : value := if truthy a then a else b.

(** [d.get(k, dflt)] *)
Definition dict_get (d : Doc) (k : string) (dflt : value) : value :=
  default dflt (d !! k).

(** ** [str.replace] *)

(** [s.replace("", new)]: [new] goes in front of every character and at
    the end. *)
Fixpoint interleave (new s : string) : string :=
  match s with
  | EmptyString => new
  | String c s' => new +:+ String c (interleave new s')
  end.

(** Left-to-right scan for non-overlapping occurrences of [old]; [skip]
    counts the characters of the occurrence being consumed. *)
Fixpoint replace_go (old new : string) (skip : nat) (s : string) : string :=
  match s with
  | EmptyString => EmptyString
  | String c s' =>
      match skip with
      | S k => replace_go old new k s'
      | O =>
          if String.prefix old s
          then new +:+ replace_go old new (String.length old - 1) s'
          else String c (replace_go old new 0 s')
      end
  end.

(** [s.replace(old, new)] *)
Definition str_replace (old new s : string) : string :=
  match old with
  | EmptyString => interleave new s
  | _ => replace_go old new 0 s
  end.

(** ** [render_template] (main.py, lines 47-56) *)

(** [f"{{{{{key}}}}}"] *)
Definition placeholder (key : string) : string := "{{" +:+ key +:+ "}}".

(** The dictionary literal the loop iterates over, in its insertion
    order. *)
Definition template_fields (data : Doc) : list (string * value) :=
  [ ("First Name", dict_get data "first_name" (VStr ""));
    ("Company Name", dict_get data "company_name" (VStr ""));
    ("Job Title", dict_get data "job_title" (VStr ""));
    ("Personalized Line", dict_get data "personalized_line" (VStr "")) ].

Definition render_template (template : string) (data : Doc) : string :=
  foldl (λ template kv,
           str_replace (placeholder kv.1) (py_str (py_or kv.2 (VStr ""))) template)
        template (template_fields data).

(** ** [serialize] (main.py, lines 34-44)

    [serialize] copies its argument with [dict(doc)] and then mutates the
    copy.  Dictionaries are therefore objects of a store, and the
    argument is either [None] or a reference into it. *)

Definition deref (h : Heap) (l : loc) : Doc := default ∅ (h !! l).

(** [not doc]: [None] and the empty dictionary are falsy. *)
Definition falsy_ref (h : Heap) (doc : option loc) : bool :=
  match doc with
  | None => true
  | Some l => bool_decide (deref h l = ∅)
  end.

(** [d["id"] = str(d.pop("_id"))], guarded by ["_id" in d]. *)
Definition rename_id (d : loc) (h : Heap) : Heap :=
  match deref h d !! "_id" with
  | Some v =>
      let h1 := <[d := delete "_id" (deref h d)]> h in
      <[d := <["id" := VStr (py_str v)]> (deref h1 d)]> h1
  | None => h
  end.

(** One iteration of the loop over [list(d.items())]: the assignment
    under [isinstance(v, datetime)]. *)
Definition convert_item (d : loc) (h : Heap) (kv : string * value) : Heap :=
  match kv.2 with
  | VDate t => <[d := <[kv.1 := VStr (isoformat t)]> (deref h d)]> h
  | _ => h
  end.

Definition serialize (doc : option loc) (h : Heap) : option loc * Heap :=
  match doc with
  | None => (doc, h)
  | Some l =>
      if falsy_ref h doc then (doc, h)
      else
        let d := fresh (dom h) in
        let h1 := <[d := deref h l]> h in
        let h2 := rename_id d h1 in
        let h3 := foldl (convert_item d) h2 (map_to_list (deref h2 d)) in
        (Some d, h3)
  end.

(** The dictionary [serialize] returns, as a function of the dictionary
    it is given; the handlers below return this value. *)
Definition json_value (v : value) : value :=
  match v with
  | VDate t => VStr (isoformat t)
  | _ => v
  end.

Definition serialize_doc (doc : Doc) : Doc :=
  let d := match doc !! "_id" with
           | Some v => <["id" := VStr (py_str v)]> (delete "_id" doc)
           | None => doc
           end in
  json_value <$> d.

(** The loop over the items, seen on the dictionary it updates. *)
Definition convert_in (m : Doc) (kv : string * value) : Doc :=
  match kv.2 with
  | VDate t => <[kv.1 := VStr (isoformat t)]> m
  | _ => m
  end.

(** What the returned dictionary [m'] holds, given the dictionary [m]
    passed in. *)
Definition serialized (m m' : Doc) : Prop :=
  match m !! "_id" with
  | Some v =>
      m' !! "id" = Some (VStr (py_str v))
      ∧ m' !! "_id" = None
      ∧ ∀ k, k ≠ "id" → k ≠ "_id" → m' !! k = json_value <$> m !! k
  | None => ∀ k, m' !! k = json_value <$> m !! k
  end.

(** ** The document store *)

(** The dictionary the driver hands to Python for a stored document. *)
Definition as_dict (sd : Stored) : Doc := <["_id" := VOid sd.1]> sd.2.

Definition cond_holds (c : cond) (field : option value) : bool :=
  match c, field with
  | Eq v, Some x => bool_decide (x = v)
  | Eq VNone, None => true
  | Eq _, None => false
  | Lte t, Some (VDate x) => x <=? t
  | Lte _, _ => false
  end.

Definition matches (q : Query) (d : Doc) : bool :=
  forallb (λ kc, cond_holds kc.2 (d !! kc.1)) q.

Definition selects (q : Query) (sd : Stored) : bool := matches q (as_dict sd).

(** [{"$set": ...}] applied to a document. *)
Definition apply_set (fields : list (string * value)) (d : Doc) : Doc :=
  foldl (λ d kv, <[kv.1 := kv.2]> d) d fields.

(** The first document that matches is updated; [None] when none does. *)
Fixpoint update_first (q : Query) (fields : list (string * value))
    (c : Collection) : option Collection :=
  match c with
  | [] => None
  | sd :: rest =>
      if selects q sd then Some ((sd.1, apply_set fields sd.2) :: rest)
      else cons sd <$> update_first q fields rest
  end.

(** The equality clauses of a filter, which an upsert copies into the
    document it creates. *)
Definition query_fields (q : Query) : list (string * value) :=
  flat_map (λ kc, match kc.2 with Eq v => [(kc.1, v)] | Lte _ => [] end) q.

(** [cursor.limit(n)]: zero means no limit, a negative limit is its
    absolute value. *)
Definition limit (n : Z) (c : Collection) : Collection :=
  if n =? 0 then c else firstn (Z.to_nat (Z.abs n)) c.

(** ** The world: database, clock, random source, identifier source *)

Record World := mkWorld {
  db : gmap string Collection;
  clock : nat → datetime;
  ticks : nat;
  rng : nat → nat;
  draws : nat;
  oid_gen : nat → ObjectId;
  allocs : nat
}.

Definition coll (name : string) (w : World) : Collection :=
  default [] (db w !! name).

Definition set_coll (name : string) (c : Collection) (w : World) : World :=
  mkWorld (<[name := c]> (db w)) (clock w) (ticks w) (rng w) (draws w)
          (oid_gen w) (allocs w).

(** State and exceptions. *)
Definition M (A : Type) : Type := World → outcome A * World.

Definition ret {A} (a : A) : M A := λ w, (Done a, w).

Definition bind {A B} (m : M A) (k : A → M B) : M B :=
  λ w, match m w with
       | (Done a, w') => k a w'
       | (Raised e, w') => (Raised e, w')
       end.

Definition raise {A} (e : exn) : M A := λ w, (Raised e, w).

Notation "x <- m ;; k" := (bind m (λ x, k))
  (at level 100, m at next level, right associativity, only parsing).
Notation "m ;; k" := (bind m (λ _, k))
  (at level 100, right associativity, only parsing).

(** [datetime.now(timezone.utc)] *)
Definition now : M datetime :=
  λ w, (Done (clock w (ticks w)),
        mkWorld (db w) (clock w) (S (ticks w)) (rng w) (draws w)
                (oid_gen w) (allocs w)).

Definition draw : M nat :=
  λ w, (Done (rng w (draws w)),
        mkWorld (db w) (clock w) (ticks w) (rng w) (S (draws w))
                (oid_gen w) (allocs w)).

(** [random.randint(lo, hi)], for [lo <= hi] *)
Definition randint (lo hi : Z) : M Z :=
  r <- draw ;; ret (lo + Z.of_nat r mod (hi - lo + 1)).

(** [random.choice([x] + xs)] *)
Definition choice {A} (x : A) (xs : list A) : M A :=
  r <- draw ;; ret (nth (Nat.modulo r (S (length xs))) (x :: xs) x).

(** A date in the database holds whole milliseconds: the driver cuts
    the microseconds of a [datetime] it writes down to the millisecond
    below.  Every other value is stored as it is. *)
Definition bson_date (t : datetime) : datetime := 1000 * (t / 1000).

Definition to_bson (v : value) : value :=
  match v with
  | VDate t => VDate (bson_date t)
  | _ => v
  end.

Definition bson_fields (fields : list (string * value)) : list (string * value) :=
  map (λ kv, (kv.1, to_bson kv.2)) fields.

(** [db[name].insert_one(fields)] *)
Definition insert_one (name : string) (fields : Doc) : M ObjectId :=
  λ w, let i := oid_gen w (allocs w) in
       (Done i,
        mkWorld (<[name := (coll name w ++ [(i, to_bson <$> fields)])%list]> (db w))
                (clock w) (ticks w) (rng w) (draws w) (oid_gen w) (S (allocs w))).

(** [db[name].find(q)], read in full when iteration starts (the first
    batch of a cursor holds every document of the result sets used
    here). *)
Definition find (name : string) (q : Query) : M Collection :=
  λ w, (Done (List.filter (selects q) (coll name w)), w).

(** [db[name].find(q).limit(n)] *)
Definition find_limit (name : string) (q : Query) (n : Z) : M Collection :=
  λ w, (Done (limit n (List.filter (selects q) (coll name w))), w).

(** [db[name].find_one(q)] *)
Definition find_one (name : string) (q : Query) : M (option Doc) :=
  λ w, (Done (as_dict <$> head (List.filter (selects q) (coll name w))), w).

(** [db[name].update_one(q, {"$set": fields})] *)
Definition update_one (name : string) (q : Query)
    (fields : list (string * value)) : M unit :=
  λ w, match update_first q (bson_fields fields) (coll name w) with
       | Some c => (Done tt, set_coll name c w)
       | None => (Done tt, w)
       end.

(** [db[name].update_one(q, {"$set": fields, "$setOnInsert": on_insert},
    upsert=True)] *)
Definition upsert_one (name : string) (q : Query)
    (fields on_insert : list (string * value)) : M unit :=
  λ w, match update_first q (bson_fields fields) (coll name w) with
       | Some c => (Done tt, set_coll name c w)
       | None =>
           (Done tt,
            (insert_one name
               (apply_set on_insert
                  (apply_set fields (apply_set (query_fields q) ∅))) w).2)
       end.

(** [for x in l: s = body(s, x)] *)
Fixpoint foldM {A S} (body : S → A → M S) (s : S) (l : list A) : M S :=
  match l with
  | [] => ret s
  | x :: rest => s' <- body s x ;; foldM body s' rest
  end.

(** A dictionary literal. *)
Definition dict (fields : list (string * value)) : Doc := apply_set fields ∅.

(** [Optional[str]] as a document value. *)
Definition opt_text (o : option string) : value := from_option VStr VNone o.

Definition minutes (k : Z) : Z := k * 60000000.
Definition days (k : Z) : Z := k * 86400000000.

(** ** Campaigns (main.py, lines 109-118) *)

Definition create_campaign (name : string) (description : option string) : M Doc :=
  t1 <- now ;;
  t2 <- now ;;
  new_id <- insert_one "campaign"
    (dict [("name", VStr name); ("description", opt_text description);
           ("created_at", VDate t1); ("updated_at", VDate t2)]) ;;
  ret (dict [("id", VStr (oid_hex new_id)); ("name", VStr name);
             ("description", opt_text description)]).

(** ** Company upload (main.py, lines 128-149) *)

(** A Python [str] is a sequence of Unicode code points; a [string]
    here is its UTF-8 encoding.  The characters that [str.isspace]
    accepts, each as the bytes of its encoding: U+0009 to U+000D, U+001C
    to U+0020, U+0085, U+00A0, U+1680, U+2000 to U+200A, U+2028, U+2029,
    U+202F, U+205F and U+3000. *)
Definition whitespace : list (list ascii) :=
  map (map ascii_of_nat)
    [ [9]; [10]; [11]; [12]; [13]; [28]; [29]; [30]; [31]; [32];
      [194; 133]; [194; 160]; [225; 154; 128];
      [226; 128; 128]; [226; 128; 129]; [226; 128; 130]; [226; 128; 131];
      [226; 128; 132]; [226; 128; 133]; [226; 128; 134]; [226; 128; 135];
      [226; 128; 136]; [226; 128; 137]; [226; 128; 138];
      [226; 128; 168]; [226; 128; 169]; [226; 128; 175];
      [226; 129; 159]; [227; 128; 128] ]%nat.

(** What follows the first character of [l], when that character is one
    of [table]. *)
Definition behind (table : list (list ascii)) (l : list ascii) : option (list ascii) :=
  (λ c, drop (length c) l) <$> List.find (λ c, bool_decide (c `prefix_of` l)) table.

(** The characters of [table] at the front of [l] dropped one after the
    other; [n] bounds their number, the length of [l] is enough. *)
Fixpoint drop_front (table : list (list ascii)) (n : nat) (l : list ascii)
    : list ascii :=
  match n with
  | O => l
  | S n' =>
      match behind table l with
      | Some l' => drop_front table n' l'
      | None => l
      end
  end.

Definition lstrip (s : string) : string :=
  let l := list_ascii_of_string s in
  string_of_list_ascii (drop_front whitespace (length l) l).

(** The same from the end: on the reversed text, with the characters
    reversed. *)
Definition rstrip (s : string) : string :=
  let l := reverse (list_ascii_of_string s) in
  string_of_list_ascii
    (reverse (drop_front (reverse <$> whitespace) (length l) l)).

(** [s.strip()] *)
Definition strip (s : string) : string := rstrip (lstrip s).

(** The uploaded file: its declared content type, the rows that
    [csv.DictReader] yields from its decoded content, and whether the
    reader, asked for the row after these, ends or raises [csv.Error]
    (a line it cannot parse: the reader works line by line while the
    loop runs). *)
Record UploadFile := {
  content_type : option string;
  csv_rows : list Row;
  csv_error : bool
}.

(** [a or b] on [Optional[str]] *)
Definition or_text (a b : option string) : option string :=
  match a with
  | Some s => if String.eqb s "" then b else a
  | None => b
  end.

Definition csv_types : list string :=
  ["text/csv"; "application/vnd.ms-excel"; "application/csv"].

Definition is_csv (ct : option string) : bool :=
  match ct with
  | Some t => existsb (String.eqb t) csv_types
  | None => false
  end.

Definition row_company_name (row : Row) : option string :=
  or_text (row !! "Company Name") (row !! "company_name").

Definition row_linkedin_url (row : Row) : option string :=
  or_text (row !! "Company LinkedIn URL") (row !! "linkedin_url").

(** [not o] on [Optional[str]] *)
Definition falsy_text (o : option string) : bool :=
  match o with
  | None | Some "" => true
  | Some _ => false
  end.

(** The body of [for row in reader]; [continue] leaves the count as it
    is.  Past the test, [company_name] is a string. *)
Definition upload_row (campaign_id : string) (count : Z) (row : Row) : M Z :=
  let company_name := row_company_name row in
  let linkedin_url := row_linkedin_url row in
  if falsy_text company_name then ret count
  else
    t1 <- now ;;
    t2 <- now ;;
    insert_one "company"
      (dict [("campaign_id", VStr campaign_id);
             ("company_name", VStr (strip (default "" company_name)));
             ("linkedin_url", VStr (strip (default "" (or_text linkedin_url (Some "")))));
             ("created_at", VDate t1); ("updated_at", VDate t2)]) ;;
    ret (count + 1).

Definition upload_companies (campaign_id : string) (file : UploadFile) : M Z :=
  if negb (is_csv (content_type file))
  then raise (HTTPException 400 "Please upload a CSV file")
  else
    count <- foldM (upload_row campaign_id) 0 (csv_rows file) ;;
    if csv_error file then raise CsvError else ret count.

(** ** Templates (main.py, lines 159-171) *)

Record TemplateSet := {
  campaign_id : string;
  connection_template : string;
  followup_template : string
}.

Definition upsert_templates (payload : TemplateSet) : M (option Doc) :=
  t_set <- now ;;
  t_ins <- now ;;
  upsert_one "template" [("campaign_id", Eq (VStr (campaign_id payload)))]
    [("connection_template", VStr (connection_template payload));
     ("followup_template", VStr (followup_template payload));
     ("updated_at", VDate t_set)]
    [("created_at", VDate t_ins)] ;;
  doc <- find_one "template" [("campaign_id", Eq (VStr (campaign_id payload)))] ;;
  ret (serialize_doc <$> doc).

(** ** Prospect search (main.py, lines 181-210) *)

(** [s[:n]] *)
Definition slice_to (n : nat) (s : string) : string := String.substring 0 n s.

Definition first_names : list string :=
  ["Alex"; "Jordan"; "Taylor"; "Casey"; "Riley"; "Drew"; "Chris"].
Definition last_names : list string :=
  ["Smith"; "Johnson"; "Lee"; "Brown"; "Davis"; "Miller"].

(** The body of [for i in range(2)]. *)
Definition create_prospect (campaign_id job_title_query : string) (c : Doc)
    (created : Z) (i : nat) : M Z :=
  f <- choice "Alex" ["Jordan"; "Taylor"; "Casey"; "Riley"; "Drew"; "Chris"] ;;
  fs <- choice "" ["-Lee"; "-Ray"] ;;
  let first := f +:+ slice_to 0 fs in
  l <- choice "Smith" ["Johnson"; "Lee"; "Brown"; "Davis"; "Miller"] ;;
  ls <- choice "" ["-Jr"] ;;
  let last := l +:+ slice_to 0 ls in
  t1 <- now ;;
  t2 <- now ;;
  insert_one "prospect"
    (dict [("campaign_id", VStr campaign_id);
           ("company_name", dict_get c "company_name" VNone);
           ("first_name", VStr first);
           ("last_name", VStr last);
           ("job_title", VStr job_title_query);
           ("profile_url", VNone);
           ("personalized_line", VNone);
           ("status", VStr "pending");
           ("created_at", VDate t1);
           ("updated_at", VDate t2);
           ("last_action_at", VNone)]) ;;
  ret (created + 1).

(** The body of [for c in companies]. *)
Definition create_for_company (campaign_id job_title_query : string)
    (created : Z) (c : Stored) : M Z :=
  foldM (create_prospect campaign_id job_title_query (as_dict c)) created (seq 0 2).

Definition search_and_create_prospects (campaign_id job_title_query : string) : M Z :=
  companies <- find "company" [("campaign_id", Eq (VStr campaign_id))] ;;
  match companies with
  | [] => raise (HTTPException 400 "No companies found for this campaign")
  | _ => foldM (create_for_company campaign_id job_title_query) 0 companies
  end.

(** ** Automation engine (main.py, lines 243-291) *)

(** [render_template] on a template read from the database: a template
    that is not text has no [replace] taking two strings. *)
Definition render_stored (template : value) (data : Doc) : M string :=
  match template with
  | VStr t => ret (render_template t data)
  | _ => raise ReplaceError
  end.

(** The body of the first loop, after its [break] test. *)
Definition connection_step (campaign_id : string) (connection_tmpl : value)
    (p : Stored) : M unit :=
  t0 <- now ;;
  k <- randint 2 30 ;;
  let scheduled_at := t0 + minutes k in
  content <- render_stored connection_tmpl (as_dict p) ;;
  t1 <- now ;;
  insert_one "messagelog"
    (dict [("campaign_id", VStr campaign_id);
           ("prospect_id", VStr (py_str (VOid p.1)));
           ("type", VStr "connection");
           ("status", VStr "sent");
           ("scheduled_at", VDate scheduled_at);
           ("sent_at", VDate t1);
           ("content", VStr content)]) ;;
  t2 <- now ;;
  t3 <- now ;;
  update_one "prospect" [("_id", Eq (VOid p.1))]
    [("status", VStr "requested"); ("last_action_at", VDate t2);
     ("updated_at", VDate t3)].

(** The first loop, with its [break]. *)
Fixpoint connection_loop (campaign_id : string) (connection_tmpl : value)
    (daily_limit : Z) (cursor : list Stored) (processed : Z) : M Z :=
  match cursor with
  | [] => ret processed
  | p :: rest =>
      if processed >=? daily_limit then ret processed
      else
        connection_step campaign_id connection_tmpl p ;;
        connection_loop campaign_id connection_tmpl daily_limit rest (processed + 1)
  end.

(** The body of the second loop. *)
Definition followup_step (campaign_id : string) (followup_tmpl : value)
    (_ : unit) (p : Stored) : M unit :=
  t0 <- now ;;
  k <- randint 5 45 ;;
  let scheduled_at := t0 + minutes k in
  content <- render_stored followup_tmpl (as_dict p) ;;
  t1 <- now ;;
  insert_one "messagelog"
    (dict [("campaign_id", VStr campaign_id);
           ("prospect_id", VStr (py_str (VOid p.1)));
           ("type", VStr "followup");
           ("status", VStr "sent");
           ("scheduled_at", VDate scheduled_at);
           ("sent_at", VDate t1);
           ("content", VStr content)]) ;;
  t2 <- now ;;
  t3 <- now ;;
  update_one "prospect" [("_id", Eq (VOid p.1))]
    [("status", VStr "followed_up"); ("last_action_at", VDate t2);
     ("updated_at", VDate t3)].

Definition pending_query (campaign_id : string) : Query :=
  [("campaign_id", Eq (VStr campaign_id)); ("status", Eq (VStr "pending"))].

Definition followup_query (campaign_id : string) (three_days_ago : datetime) : Query :=
  [("campaign_id", Eq (VStr campaign_id)); ("status", Eq (VStr "requested"));
   ("last_action_at", Lte three_days_ago)].

Definition connection_phase (campaign_id : string) (connection_tmpl : value)
    (daily_limit : Z) : M Z :=
  cursor <- find_limit "prospect" (pending_query campaign_id) daily_limit ;;
  connection_loop campaign_id connection_tmpl daily_limit cursor 0.

Definition followup_phase (campaign_id : string) (followup_tmpl : value)
    (daily_limit : Z) : M unit :=
  t <- now ;;
  let three_days_ago := t - days 3 in
  cursor <- find_limit "prospect" (followup_query campaign_id three_days_ago)
              daily_limit ;;
  foldM (followup_step campaign_id followup_tmpl) tt cursor.

Definition process_automation (campaign_id : string) : M unit :=
  template <- find_one "template" [("campaign_id", Eq (VStr campaign_id))] ;;
  let connection_tmpl :=
    dict_get (default ∅ template) "connection_template"
             (VStr "Hi {{First Name}}, would love to connect.") in
  let followup_tmpl :=
    dict_get (default ∅ template) "followup_template"
             (VStr "Following up on my request, {{First Name}}.") in
  daily_limit <- randint 10 20 ;;
  connection_phase campaign_id connection_tmpl daily_limit ;;
  followup_phase campaign_id followup_tmpl daily_limit.

(** ** Requests

    The requests that write to the database.  An exception becomes an
    error response and the writes made before it stay. *)
Inductive request :=
  | CreateCampaign (name : string) (description : option string)
  | UploadCompanies (campaign_id : string) (file : UploadFile)
  | UpsertTemplates (payload : TemplateSet)
  | SearchProspects (campaign_id job_title_query : string)
  | StartAutomation (campaign_id : string).

(** ** The rendering the specification describes

    One pass over the template: at each position where one of the four
    tokens starts, the token is replaced by the text of its field;
    every other character is copied. *)

(** A field coerced to text; absent and empty values give the empty
    string. *)
Definition field_text (data : Doc) (field : string) : string :=
  match data !! field with
  | None | Some VNone => ""
  | Some v => py_str v
  end.

Definition known_tokens (data : Doc) : list (string * string) :=
  [ ("{{First Name}}", field_text data "first_name");
    ("{{Company Name}}", field_text data "company_name");
    ("{{Job Title}}", field_text data "job_title");
    ("{{Personalized Line}}", field_text data "personalized_line") ].

Fixpoint render_spec_go (tokens : list (string * string)) (skip : nat)
    (s : string) : string :=
  match s with
  | EmptyString => EmptyString
  | String c s' =>
      match skip with
      | S k => render_spec_go tokens k s'
      | O =>
          match List.find (λ tv, String.prefix tv.1 s) tokens with
          | Some tv => tv.2 +:+ render_spec_go tokens (String.length tv.1 - 1) s'
          | None => String c (render_spec_go tokens 0 s')
          end
      end
  end.

Definition render_template_spec (template : string) (data : Doc) : string :=
  render_spec_go (known_tokens data) 0 template.

(** Templates as authors write them: literal text without braces, and
    placeholders [{{name}}] whose name has no brace. *)
Inductive piece :=
  | Text (s : string)
  | Slot (name : string).

Definition piece_text (p : piece) : string :=
  match p with
  | Text s => s
  | Slot n => placeholder n
  end.

Fixpoint pieces_text (ps : list piece) : string :=
  match ps with
  | [] => EmptyString
  | p :: rest => piece_text p +:+ pieces_text rest
  end.

Definition plain_char (c : ascii) : bool :=
  negb (Ascii.eqb c "{") && negb (Ascii.eqb c "}").

Fixpoint plain (s : string) : bool :=
  match s with
  | EmptyString => true
  | String c s' => plain_char c && plain s'
  end.

(** No opening brace. *)
Fixpoint no_open (s : string) : bool :=
  match s with
  | EmptyString => true
  | String c s' => negb (Ascii.eqb c "{") && no_open s'
  end.

Definition piece_ok (p : piece) : bool :=
  match p with
  | Text s => plain s
  | Slot n => plain n
  end.

(** A placeholder named [key] becomes the text [v]. *)
Definition fill_one (key v : string) (p : piece) : piece :=
  match p with
  | Slot n => if String.eqb n key then Text v else p
  | Text _ => p
  end.

(** The four known placeholders become their field's text; every other
    piece stays. *)
Definition fill (data : Doc) (p : piece) : piece :=
  match p with
  | Text _ => p
  | Slot n =>
      if String.eqb n "First Name" then Text (field_text data "first_name")
      else if String.eqb n "Company Name" then Text (field_text data "company_name")
      else if String.eqb n "Job Title" then Text (field_text data "job_title")
      else if String.eqb n "Personalized Line"
           then Text (field_text data "personalized_line")
      else p
  end.

(** ** Vocabulary of the automation engine *)

(** The MessageLog document of one send. *)
Definition message_log (campaign_id : string) (p : Stored) (type_ : string)
    (scheduled_at sent_at : datetime) (content : string) : Doc :=
  dict [("campaign_id", VStr campaign_id);
        ("prospect_id", VStr (oid_hex p.1));
        ("type", VStr type_);
        ("status", VStr "sent");
        ("scheduled_at", VDate scheduled_at);
        ("sent_at", VDate sent_at);
        ("content", VStr content)].

(** The fields a send sets on the prospect. *)
Definition sent_fields (status : string) (t2 t3 : datetime) : list (string * value) :=
  [("status", VStr status); ("last_action_at", VDate t2); ("updated_at", VDate t3)].

(** One send, as both loops perform it: a MessageLog of type [type_]
    scheduled [lo] to [hi] minutes ahead, and the prospect moved to
    [status]. *)
Definition send (campaign_id : string) (tmpl : value) (type_ status : string)
    (lo hi : Z) (p : Stored) : M unit :=
  t0 <- now ;;
  k <- randint lo hi ;;
  content <- render_stored tmpl (as_dict p) ;;
  t1 <- now ;;
  insert_one "messagelog"
    (message_log campaign_id p type_ (t0 + minutes k) t1 content) ;;
  t2 <- now ;;
  t3 <- now ;;
  update_one "prospect" [("_id", Eq (VOid p.1))] (sent_fields status t2 t3).

(** The record the [i]-th send of a loop started in world [w] writes
    for prospect [p], as the database stores it, and the prospect as
    that send leaves it: the send
    takes the clock readings [4i] to [4i+3], the [i]-th random draw and
    the [i]-th new identifier after those of [w]. *)
Definition log_at (campaign_id tmpl type_ : string) (lo hi : Z) (w : World)
    (i : nat) (p : Stored) : Stored :=
  (oid_gen w (allocs w + i),
   message_log campaign_id p type_
     (bson_date (clock w (ticks w + 4 * i)
                 + minutes (lo + Z.of_nat (rng w (draws w + i)) mod (hi - lo + 1))))
     (bson_date (clock w (ticks w + 4 * i + 1)))
     (render_template tmpl (as_dict p))).

Definition sent_at (status : string) (w : World) (i : nat) (p : Stored) : Stored :=
  (p.1, apply_set (sent_fields status (bson_date (clock w (ticks w + 4 * i + 2)))
                     (bson_date (clock w (ticks w + 4 * i + 3)))) p.2).

(** [update_one] by [_id] on a collection without duplicate identifiers. *)
Definition touch (id : ObjectId) (fields : list (string * value))
    (c : Collection) : Collection :=
  map (λ sd, if decide (sd.1 = id) then (sd.1, apply_set fields sd.2) else sd) c.

(** The world between the insert and the update of a send. *)
Definition logged (cid t type_ : string) (lo hi : Z) (p : Stored) (w : World) : World :=
  mkWorld
    (<["messagelog" :=
         coll "messagelog" w
         ++ [(oid_gen w (allocs w),
              to_bson <$>
                message_log cid p type_
                  (clock w (ticks w)
                   + minutes (lo + Z.of_nat (rng w (draws w)) mod (hi - lo + 1)))
                  (clock w (1 + ticks w)) (render_template t (as_dict p)))]]> (db w))
    (clock w) (4 + ticks w) (rng w) (1 + draws w) (oid_gen w) (1 + allocs w).

(** What a loop of sends over [sent], started in world [w], has done
    when it reaches world [w']. *)
Definition sends_done (cid t type_ status : string) (lo hi : Z) (w : World)
    (sent : list Stored) (w' : World) : Prop :=
  clock w' = clock w ∧ rng w' = rng w ∧ oid_gen w' = oid_gen w
  ∧ ticks w' = (ticks w + 4 * length sent)%nat
  ∧ draws w' = (draws w + length sent)%nat
  ∧ allocs w' = (allocs w + length sent)%nat
  ∧ coll "messagelog" w' = coll "messagelog" w ++ imap (log_at cid t type_ lo hi w) sent
  ∧ (coll "prospect" w').*1 = (coll "prospect" w).*1
  ∧ (∀ i p, sent !! i = Some p → sent_at status w i p ∈ coll "prospect" w')
  ∧ (∀ sd, sd ∈ coll "prospect" w → sd.1 ∉ sent.*1 → sd ∈ coll "prospect" w')
  ∧ (∀ name, name ≠ "messagelog" → name ≠ "prospect" → coll name w' = coll name w).

(** The Template documents of a campaign. *)
Definition templates_of (campaign_id : string) (w : World) : Collection :=
  List.filter (selects [("campaign_id", Eq (VStr campaign_id))]) (coll "template" w).

(** What the engine reads at its start: a field of the campaign's
    Template document, or the built-in text; and the limit it draws. *)
Definition stored_template (campaign_id : string) (w : World) (field dflt : string)
    : value :=
  dict_get (default ∅ (as_dict <$> head (templates_of campaign_id w))) field (VStr dflt).

(** What [random.randint(lo, hi)] makes of the raw draw [r]. *)
Definition randint_of (lo hi : Z) (r : nat) : Z := lo + Z.of_nat r mod (hi - lo + 1).


(** The pending prospects of a campaign. *)
Definition is_pending (campaign_id : string) (sd : Stored) : bool :=
  bool_decide (sd.2 !! "campaign_id" = Some (VStr campaign_id)
               ∧ sd.2 !! "status" = Some (VStr "pending")).


Definition daily_limit_of (w : World) : Z :=
  10 + Z.of_nat (rng w (draws w)) mod (20 - 10 + 1).

(** The MessageLog records a run of the engine started in [w] appends. *)
Definition appended (campaign_id : string) (w : World) : Collection :=
  drop (length (coll "messagelog" w))
       (coll "messagelog" (process_automation campaign_id w).2).

(** C1 as the specification states it, for the sent time: every record
    a run appends holds, as its sent time, a time the clock gave during
    the run. *)
Definition sent_when_read (campaign_id : string) (w : World) : Prop :=
  ∀ log, log ∈ appended campaign_id w →
    ∃ n, (ticks w ≤ n < ticks (process_automation campaign_id w).2)%nat
         ∧ log.2 !! "sent_at" = Some (VDate (clock w n)).

(** C9 as the specification states it: the records a run appends refer
    to pairwise different prospects. *)
Definition one_record_each (campaign_id : string) (w : World) : Prop :=
  NoDup ((λ log : Stored, log.2 !! "prospect_id") <$> appended campaign_id w).

Definition connection_default : string := "Hi {{First Name}}, would love to connect.".
Definition followup_default : string := "Following up on my request, {{First Name}}.".

(** The statuses the service writes. *)
Definition written_statuses : list string := ["pending"; "requested"; "followed_up"].

Definition allowed_status (sd : Stored) : Prop :=
  ∃ s, sd.2 !! "status" = Some (VStr s) ∧ In s written_statuses.

(** Every prospect document of [w'] was already in [w] as it is, or has
    one of the three statuses. *)
Definition writes_allowed (w w' : World) : Prop :=
  ∀ sd, sd ∈ coll "prospect" w' → sd ∈ coll "prospect" w ∨ allowed_status sd.

(** A computation that, raising or not, only writes such documents. *)
Definition keeps {A} (m : M A) : Prop := ∀ w, writes_allowed w (m w).2.

(** ** Vocabulary of the statements *)

(** A row without a company name: under both header spellings the cell
    is missing or empty. *)
Definition lacks_company_name (row : Row) : bool :=
  match row !! "Company Name", row !! "company_name" with
  | (None | Some ""), (None | Some "") => true
  | _, _ => false
  end.

(** White space at the ends of a text, said without the loops of
    [strip]: [l] is made of characters of [table]; [l] starts with one. *)
Definition made_of (table : list (list ascii)) (l : list ascii) : Prop :=
  ∃ cs, Forall (λ c, c ∈ table) cs ∧ l = concat cs.

Definition starts_with (table : list (list ascii)) (l : list ascii) : Prop :=
  ∃ c, c ∈ table ∧ c `prefix_of` l.

Definition ends_with (table : list (list ascii)) (l : list ascii) : Prop :=
  ∃ c, c ∈ table ∧ c `suffix_of` l.

(** [r] is [s] without the white space at its two ends: [s] is [r]
    between two runs of white-space characters, and [r] neither starts
    nor ends with one. *)
Definition stripped (s r : string) : Prop :=
  ∃ a b, list_ascii_of_string s = a ++ list_ascii_of_string r ++ b
         ∧ made_of whitespace a ∧ made_of whitespace b
         ∧ ¬ starts_with whitespace (list_ascii_of_string r)
         ∧ ¬ ends_with whitespace (list_ascii_of_string r).

(** The cell a row gives for a column with two header spellings: the
    one under the first spelling when it is there and not empty, the
    one under the second spelling otherwise. *)
Inductive cell_of (row : Row) (first second : string) : option string → Prop :=
  | cell_first (s : string) :
      row !! first = Some s → s ≠ "" → cell_of row first second (Some s)
  | cell_second :
      row !! first = None ∨ row !! first = Some "" →
      cell_of row first second (row !! second).

(** [sd] is the Company document of [row]: the name and the URL of the
    row (no URL is the empty text), stripped, with the campaign and two
    timestamps. *)
Definition company_of (campaign_id : string) (row : Row) (sd : Stored) : Prop :=
  ∃ name url n u t1 t2,
    cell_of row "Company Name" "company_name" (Some name) ∧ name ≠ ""
    ∧ cell_of row "Company LinkedIn URL" "linkedin_url" url
    ∧ stripped name n ∧ stripped (default "" url) u
    ∧ sd.2 = dict [("campaign_id", VStr campaign_id);
                   ("company_name", VStr n);
                   ("linkedin_url", VStr u);
                   ("created_at", VDate t1); ("updated_at", VDate t2)].

(** C6 as the specification states it: an accepted upload inserts the
    rows that have a company name and reports their number. *)
Definition upload_counts (campaign_id : string) (file : UploadFile) (w : World)
    : Prop :=
  is_csv (content_type file) = true →
  ∃ docs w',
    upload_companies campaign_id file w = (Done (Z.of_nat (length docs)), w')
    ∧ coll "company" w' = coll "company" w ++ docs
    ∧ Forall2 (company_of campaign_id)
        (List.filter (λ row, negb (lacks_company_name row)) (csv_rows file)) docs.

(** The Prospect document written for a company. *)
Definition prospect_doc (campaign_id job_title : string) (company_name : value)
    (first last : string) (t1 t2 : datetime) : Doc :=
  dict [("campaign_id", VStr campaign_id);
        ("company_name", company_name);
        ("first_name", VStr first);
        ("last_name", VStr last);
        ("job_title", VStr job_title);
        ("profile_url", VNone);
        ("personalized_line", VNone);
        ("status", VStr "pending");
        ("created_at", VDate t1);
        ("updated_at", VDate t2);
        ("last_action_at", VNone)].

(** [sd] is a prospect of company [c]: pending, with the requested job
    title and names taken from the two pools as they are. *)
Definition new_prospect (campaign_id job_title : string) (c sd : Stored) : Prop :=
  ∃ first last t1 t2,
    In first first_names ∧ In last last_names
    ∧ sd.2 = prospect_doc campaign_id job_title
               (to_bson (dict_get (as_dict c) "company_name" VNone)) first last t1 t2.


(** ** Reading handlers: sorting, listings, statistics, inbox *)

(** The order the database sorts by, across the types of values:
    null (or a missing field), then strings, then object identifiers,
    then dates; strings and identifiers by their characters, dates by
    their instant. *)
Definition type_rank (v : option value) : nat :=
  match v with
  | None | Some VNone => 0
  | Some (VStr _) => 1
  | Some (VOid _) => 2
  | Some (VDate _) => 3
  end.

Definition bson_leb (a b : option value) : bool :=
  match a, b with
  | Some (VStr x), Some (VStr y) => String.leb x y
  | Some (VOid x), Some (VOid y) => String.leb (oid_hex x) (oid_hex y)
  | Some (VDate x), Some (VDate y) => x <=? y
  | _, _ => (type_rank a <=? type_rank b)%nat
  end.

(** [x] may come before [y] under [.sort(field, direction)]: ascending
    for a direction of 1, descending for -1. *)
Definition sort_leb (field : string) (direction : Z) (x y : Stored) : bool :=
  if 0 <=? direction
  then bson_leb (as_dict x !! field) (as_dict y !! field)
  else bson_leb (as_dict y !! field) (as_dict x !! field).

Definition sort_rel (field : string) (direction : Z) : relation Stored :=
  λ x y, Is_true (sort_leb field direction x y).

#[global] Instance sort_rel_dec (field : string) (direction : Z) (x y : Stored) :
  Decision (sort_rel field direction x y).
Proof. unfold sort_rel. apply _. Defined.

(** [db[name].find(q).sort(field, direction)].  The database leaves the
    order of documents with equal keys open; here they come out in the
    order a merge sort gives them. *)
Definition find_sort (name : string) (q : Query) (field : string) (direction : Z)
    : M Collection :=
  λ w, (Done (merge_sort (sort_rel field direction)
                (List.filter (selects q) (coll name w))), w).

(** [db[name].count_documents(q)] *)
Definition count_documents (name : string) (q : Query) : M Z :=
  λ w, (Done (Z.of_nat (length (List.filter (selects q) (coll name w)))), w).

(** [[serialize(x) for x in cursor]]: a document of a cursor is never
    empty, it holds its [_id]. *)
Definition serialize_all (docs : Collection) : list Doc :=
  (λ x, serialize_doc (as_dict x)) <$> docs.

(** main.py, lines 121-124 *)
Definition list_campaigns : M (list Doc) :=
  docs <- find_sort "campaign" [] "created_at" (-1) ;;
  ret (serialize_all docs).

(** main.py, lines 152-155 *)
Definition list_companies (campaign_id : string) : M (list Doc) :=
  docs <- find_sort "company" [("campaign_id", Eq (VStr campaign_id))]
            "company_name" 1 ;;
  ret (serialize_all docs).

(** main.py, lines 174-177: [serialize(doc) if doc else {}] *)
Definition get_templates (campaign_id : string) : M Doc :=
  doc <- find_one "template" [("campaign_id", Eq (VStr campaign_id))] ;;
  ret (match doc with
       | Some d => if bool_decide (d = ∅) then ∅ else serialize_doc d
       | None => ∅
       end).

(** main.py, lines 213-216 *)
Definition list_prospects (campaign_id : string) : M (list Doc) :=
  docs <- find_sort "prospect" [("campaign_id", Eq (VStr campaign_id))]
            "created_at" (-1) ;;
  ret (serialize_all docs).

(** main.py, lines 220-235 *)
Record Stats := {
  total : Z;
  requests_sent : Z;
  followups_sent : Z;
  connections_accepted : Z;
  replies_received : Z;
  pending : Z
}.

Definition status_query (campaign_id status : string) : Query :=
  [("campaign_id", Eq (VStr campaign_id)); ("status", Eq (VStr status))].

Definition campaign_stats (campaign_id : string) : M Stats :=
  total <- count_documents "prospect" [("campaign_id", Eq (VStr campaign_id))] ;;
  requested <- count_documents "prospect" (status_query campaign_id "requested") ;;
  followed <- count_documents "prospect" (status_query campaign_id "followed_up") ;;
  accepted <- count_documents "prospect" (status_query campaign_id "accepted") ;;
  replied <- count_documents "prospect" (status_query campaign_id "replied") ;;
  pending <- count_documents "prospect" (status_query campaign_id "pending") ;;
  ret {| total := total; requests_sent := requested; followups_sent := followed;
         connections_accepted := accepted; replies_received := replied;
         pending := pending |}.

(** main.py, lines 302-306 *)
Definition inbox : M (list Doc) :=
  docs <- find_sort "prospect" [("status", Eq (VStr "replied"))] "updated_at" (-1) ;;
  ret (serialize_all docs).

(** ** How the collections evolve *)

(** Every collection of [w'] is related to the same collection of [w]. *)
Definition evolves (R : string → relation Collection) (w w' : World) : Prop :=
  ∀ name, R name (coll name w) (coll name w').

(** A computation that, raising or not, moves every collection along [R]. *)
Definition respects {A} (R : string → relation Collection) (m : M A) : Prop :=
  ∀ w, evolves R w (m w).2.

(** The collections a request may write to. *)
Definition written (r : request) : list string :=
  match r with
  | CreateCampaign _ _ => ["campaign"]
  | UploadCompanies _ _ => ["company"]
  | UpsertTemplates _ => ["template"]
  | SearchProspects _ _ => ["prospect"]
  | StartAutomation _ => ["messagelog"; "prospect"]
  end.

(** What a handler needs of [R]: documents may be appended to [name];
    an update of [name] that sets [keys] is allowed. *)
Definition appends (R : string → relation Collection) (name : string) : Prop :=
  ∀ c id d, R name c (c ++ [(id, d)])%list.

Definition updates (R : string → relation Collection) (name : string)
    (keys : list string) : Prop :=
  ∀ q fields c c', fields.*1 = keys → update_first q fields c = Some c' → R name c c'.

Definition only_in (names : list string) : string → relation Collection :=
  λ name c c', name ∈ names ∨ c' = c.

(** [sd'] is [sd] with, at most, other values under [keys]. *)
Definition same_outside (keys : list string) (sd sd' : Stored) : Prop :=
  sd'.1 = sd.1 ∧ ∀ k, k ∉ keys → sd'.2 !! k = sd.2 !! k.

(** [c'] is [c], document by document in the same order and up to the
    values under [keys], followed by new documents. *)
Definition grown (keys : list string) (c c' : Collection) : Prop :=
  ∃ c1 rest, c' = (c1 ++ rest)%list ∧ Forall2 (same_outside keys) c c1.

(** The fields of a stored document that an update may change. *)
Definition updatable (name : string) : list string :=
  if decide (name = "template")
  then ["connection_template"; "followup_template"; "updated_at"]
  else if decide (name = "prospect")
       then ["status"; "last_action_at"; "updated_at"]
       else [].

(** ** Vocabulary of the statistics *)

Definition counted_statuses : list string :=
  ["requested"; "followed_up"; "accepted"; "replied"; "pending"].

(** A prospect of the campaign whose status is none of the five that
    [campaign_stats] counts. *)
Definition uncounted (campaign_id : string) (sd : Stored) : bool :=
  selects [("campaign_id", Eq (VStr campaign_id))] sd
  && forallb (λ s, negb (selects [("status", Eq (VStr s))] sd)) counted_statuses.

Definition count (P : Stored → bool) (c : Collection) : Z :=
  Z.of_nat (length (List.filter P c)).

(** The prospects stay, document by document, up to the fields an
    update may change. *)
Definition prospects_kept : string → relation Collection :=
  λ name c c', name = "prospect" → Forall2 (same_outside (updatable "prospect")) c c'.

(** A returned document: the identifier is text under [id], there is
    no [_id], and no value is a timestamp. *)
Definition json_ready (d : Doc) : Prop :=
  d !! "_id" = None
  ∧ (∃ id, d !! "id" = Some (VStr id))
  ∧ ∀ k t, d !! k ≠ Some (VDate t).

(** ** Messages and prospects over the life of the service *)

(** The prospects that the MessageLog records of one type refer to. *)
Definition logged_ids (type_ : string) (w : World) : list (option value) :=
  (λ log : Stored, log.2 !! "prospect_id")
    <$> List.filter (selects [("type", Eq (VStr type_))]) (coll "messagelog" w).

(** The way a record refers to a prospect. *)
Definition id_text (id : ObjectId) : option value := Some (VStr (oid_hex id)).





End Text.

(** ** The service under concurrent requests

    The handlers are plain functions ([def]) that the server runs on
    worker threads, [upload_companies] runs on the event loop, and
    [start_automation] hands [process_automation] to the server as a
    background task, which runs on a worker thread after the response
    is sent.  So the calls that handlers and engine runs make to the
    database, the clock and the random source interleave.  Each such
    call is one step: the driver sends one command and the server
    performs it on its own, and a cursor of the sizes used here is read
    with its first batch.

    A handler is therefore also given as the sequence of calls it
    makes: a tree that ends with a result or an exception, or names a
    call and continues with its result.  [run] plays such a tree to its
    end on a world; played this way, the trees below are the functions
    above. *)

(** The calls. *)
Inductive op : Type → Type :=
  | Now : op datetime
  | Draw : op nat
  | Find (name : string) (q : Query) : op Collection
  | FindLimit (name : string) (q : Query) (n : Z) : op Collection
  | FindOne (name : string) (q : Query) : op (option Doc)
  | InsertOne (name : string) (fields : Doc) : op ObjectId
  | UpdateOne (name : string) (q : Query) (fields : list (string * value)) : op unit
  | UpsertOne (name : string) (q : Query) (fields on_insert : list (string * value))
      : op unit.

(** The trees of calls. *)
Inductive prog (A : Type) : Type :=
  | Ret (a : A)
  | Raise (e : exn)
  | Do {X : Type} (o : op X) (k : X → prog A).
Arguments Ret {A} a.
Arguments Raise {A} e.
Arguments Do {A X} o k.

(** A task in flight: what is left of a handler or of an engine run. *)
Inductive task : Type := Task : ∀ A : Type, prog A → task.
Arguments Task {A} p.

Section Service.
Context `{DatetimeText}.

Definition exec {X} (o : op X) : M X :=
  match o with
  | Now => now
  | Draw => draw
  | Find name q => find name q
  | FindLimit name q n => find_limit name q n
  | FindOne name q => find_one name q
  | InsertOne name fields => insert_one name fields
  | UpdateOne name q fields => update_one name q fields
  | UpsertOne name q fields on_insert => upsert_one name q fields on_insert
  end.

Fixpoint run {A} (p : prog A) : M A :=
  match p with
  | Ret a => ret a
  | Raise e => raise e
  | Do o k => bind (exec o) (λ x, run (k x))
  end.

Fixpoint then_ {A B} (p : prog A) (k : A → prog B) : prog B :=
  match p with
  | Ret a => k a
  | Raise e => Raise e
  | Do o k' => Do o (λ x, then_ (k' x) k)
  end.

Definition call {X} (o : op X) : prog X := Do o Ret.

Notation "x <~ m ;; k" := (then_ m (λ x, k))
  (at level 100, m at next level, right associativity, only parsing).
Notation "m ~~ k" := (then_ m (λ _, k))
  (at level 100, right associativity, only parsing).

Definition randint_task (lo hi : Z) : prog Z :=
  r <~ call Draw ;; Ret (lo + Z.of_nat r mod (hi - lo + 1)).

Definition choice_task {A} (x : A) (xs : list A) : prog A :=
  r <~ call Draw ;; Ret (nth (Nat.modulo r (S (length xs))) (x :: xs) x).

Fixpoint fold_task {A S} (body : S → A → prog S) (s : S) (l : list A) : prog S :=
  match l with
  | [] => Ret s
  | x :: rest => s' <~ body s x ;; fold_task body s' rest
  end.

Definition create_campaign_task (name : string) (description : option string)
    : prog Doc :=
  t1 <~ call Now ;;
  t2 <~ call Now ;;
  new_id <~ call (InsertOne "campaign"
    (dict [("name", VStr name); ("description", opt_text description);
           ("created_at", VDate t1); ("updated_at", VDate t2)])) ;;
  Ret (dict [("id", VStr (oid_hex new_id)); ("name", VStr name);
             ("description", opt_text description)]).

Definition upload_row_task (campaign_id : string) (count : Z) (row : Row) : prog Z :=
  let company_name := row_company_name row in
  let linkedin_url := row_linkedin_url row in
  if falsy_text company_name then Ret count
  else
    t1 <~ call Now ;;
    t2 <~ call Now ;;
    call (InsertOne "company"
      (dict [("campaign_id", VStr campaign_id);
             ("company_name", VStr (strip (default "" company_name)));
             ("linkedin_url", VStr (strip (default "" (or_text linkedin_url (Some "")))));
             ("created_at", VDate t1); ("updated_at", VDate t2)])) ~~
    Ret (count + 1).

Definition upload_companies_task (campaign_id : string) (file : UploadFile) : prog Z :=
  if negb (is_csv (content_type file))
  then Raise (HTTPException 400 "Please upload a CSV file")
  else
    count <~ fold_task (upload_row_task campaign_id) 0 (csv_rows file) ;;
    if csv_error file then Raise CsvError else Ret count.

Definition upsert_templates_task (payload : TemplateSet) : prog (option Doc) :=
  t_set <~ call Now ;;
  t_ins <~ call Now ;;
  call (UpsertOne "template" [("campaign_id", Eq (VStr (campaign_id payload)))]
    [("connection_template", VStr (connection_template payload));
     ("followup_template", VStr (followup_template payload));
     ("updated_at", VDate t_set)]
    [("created_at", VDate t_ins)]) ~~
  doc <~ call (FindOne "template" [("campaign_id", Eq (VStr (campaign_id payload)))]) ;;
  Ret (serialize_doc <$> doc).

Definition create_prospect_task (campaign_id job_title_query : string) (c : Doc)
    (created : Z) (i : nat) : prog Z :=
  f <~ choice_task "Alex" ["Jordan"; "Taylor"; "Casey"; "Riley"; "Drew"; "Chris"] ;;
  fs <~ choice_task "" ["-Lee"; "-Ray"] ;;
  let first := f +:+ slice_to 0 fs in
  l <~ choice_task "Smith" ["Johnson"; "Lee"; "Brown"; "Davis"; "Miller"] ;;
  ls <~ choice_task "" ["-Jr"] ;;
  let last := l +:+ slice_to 0 ls in
  t1 <~ call Now ;;
  t2 <~ call Now ;;
  call (InsertOne "prospect"
    (dict [("campaign_id", VStr campaign_id);
           ("company_name", dict_get c "company_name" VNone);
           ("first_name", VStr first);
           ("last_name", VStr last);
           ("job_title", VStr job_title_query);
           ("profile_url", VNone);
           ("personalized_line", VNone);
           ("status", VStr "pending");
           ("created_at", VDate t1);
           ("updated_at", VDate t2);
           ("last_action_at", VNone)])) ~~
  Ret (created + 1).

Definition create_for_company_task (campaign_id job_title_query : string)
    (created : Z) (c : Stored) : prog Z :=
  fold_task (create_prospect_task campaign_id job_title_query (as_dict c)) created
    (seq 0 2).

Definition search_and_create_prospects_task (campaign_id job_title_query : string)
    : prog Z :=
  companies <~ call (Find "company" [("campaign_id", Eq (VStr campaign_id))]) ;;
  match companies with
  | [] => Raise (HTTPException 400 "No companies found for this campaign")
  | _ => fold_task (create_for_company_task campaign_id job_title_query) 0 companies
  end.

Definition render_stored_task (template : value) (data : Doc) : prog string :=
  match template with
  | VStr t => Ret (render_template t data)
  | _ => Raise ReplaceError
  end.

Definition connection_step_task (campaign_id : string) (connection_tmpl : value)
    (p : Stored) : prog unit :=
  t0 <~ call Now ;;
  k <~ randint_task 2 30 ;;
  let scheduled_at := t0 + minutes k in
  content <~ render_stored_task connection_tmpl (as_dict p) ;;
  t1 <~ call Now ;;
  call (InsertOne "messagelog"
    (dict [("campaign_id", VStr campaign_id);
           ("prospect_id", VStr (py_str (VOid p.1)));
           ("type", VStr "connection");
           ("status", VStr "sent");
           ("scheduled_at", VDate scheduled_at);
           ("sent_at", VDate t1);
           ("content", VStr content)])) ~~
  t2 <~ call Now ;;
  t3 <~ call Now ;;
  call (UpdateOne "prospect" [("_id", Eq (VOid p.1))]
    [("status", VStr "requested"); ("last_action_at", VDate t2);
     ("updated_at", VDate t3)]).

Fixpoint connection_loop_task (campaign_id : string) (connection_tmpl : value)
    (daily_limit : Z) (cursor : list Stored) (processed : Z) : prog Z :=
  match cursor with
  | [] => Ret processed
  | p :: rest =>
      if processed >=? daily_limit then Ret processed
      else
        connection_step_task campaign_id connection_tmpl p ~~
        connection_loop_task campaign_id connection_tmpl daily_limit rest
          (processed + 1)
  end.

Definition followup_step_task (campaign_id : string) (followup_tmpl : value)
    (_ : unit) (p : Stored) : prog unit :=
  t0 <~ call Now ;;
  k <~ randint_task 5 45 ;;
  let scheduled_at := t0 + minutes k in
  content <~ render_stored_task followup_tmpl (as_dict p) ;;
  t1 <~ call Now ;;
  call (InsertOne "messagelog"
    (dict [("campaign_id", VStr campaign_id);
           ("prospect_id", VStr (py_str (VOid p.1)));
           ("type", VStr "followup");
           ("status", VStr "sent");
           ("scheduled_at", VDate scheduled_at);
           ("sent_at", VDate t1);
           ("content", VStr content)])) ~~
  t2 <~ call Now ;;
  t3 <~ call Now ;;
  call (UpdateOne "prospect" [("_id", Eq (VOid p.1))]
    [("status", VStr "followed_up"); ("last_action_at", VDate t2);
     ("updated_at", VDate t3)]).

Definition connection_phase_task (campaign_id : string) (connection_tmpl : value)
    (daily_limit : Z) : prog Z :=
  cursor <~ call (FindLimit "prospect" (pending_query campaign_id) daily_limit) ;;
  connection_loop_task campaign_id connection_tmpl daily_limit cursor 0.

Definition followup_phase_task (campaign_id : string) (followup_tmpl : value)
    (daily_limit : Z) : prog unit :=
  t <~ call Now ;;
  let three_days_ago := t - days 3 in
  cursor <~ call (FindLimit "prospect" (followup_query campaign_id three_days_ago)
                    daily_limit) ;;
  fold_task (followup_step_task campaign_id followup_tmpl) tt cursor.

Definition process_automation_task (campaign_id : string) : prog unit :=
  template <~ call (FindOne "template" [("campaign_id", Eq (VStr campaign_id))]) ;;
  let connection_tmpl :=
    dict_get (default ∅ template) "connection_template"
             (VStr "Hi {{First Name}}, would love to connect.") in
  let followup_tmpl :=
    dict_get (default ∅ template) "followup_template"
             (VStr "Following up on my request, {{First Name}}.") in
  daily_limit <~ randint_task 10 20 ;;
  connection_phase_task campaign_id connection_tmpl daily_limit ~~
  followup_phase_task campaign_id followup_tmpl daily_limit.

(** The task a request starts.  [start_automation] answers at once and
    leaves the engine run to the server; for the other requests the
    task is the handler itself. *)
Definition task_of (r : request) : task :=
  match r with
  | CreateCampaign n d => Task (create_campaign_task n d)
  | UploadCompanies c f => Task (upload_companies_task c f)
  | UpsertTemplates p => Task (upsert_templates_task p)
  | SearchProspects c q => Task (search_and_create_prospects_task c q)
  | StartAutomation c => Task (process_automation_task c)
  end.

(** The service: the world and the tasks in flight. *)
Record Service := mkService { world : World; pool : list task }.

Definition idle (w : World) : Service := mkService w [].

(** One step of a task: its next call is made on the world.  A task
    that has ended, or whose call raises, leaves the pool. *)
Definition advance (t : task) (w : World) : option task * World :=
  match t with
  | Task (Do o k) =>
      match exec o w with
      | (Done x, w') => (Some (Task (k x)), w')
      | (Raised _, w') => (None, w')
      end
  | Task _ => (None, w)
  end.

(** What happens to the service: a request arrives and its task joins
    the pool, or the [i]-th task in flight makes its next step. *)
Inductive event :=
  | Arrive (r : request)
  | Advance (i : nat).

Definition react (e : event) (s : Service) : Service :=
  match e with
  | Arrive r => mkService (world s) (pool s ++ [task_of r])
  | Advance i =>
      match pool s !! i with
      | None => s
      | Some t =>
          match advance t (world s) with
          | (Some t', w') => mkService w' (<[i := t']> (pool s))
          | (None, w') => mkService w' (delete i (pool s))
          end
      end
  end.

(** The service after a sequence of events: any interleaving of the
    steps of the tasks is such a sequence. *)
Definition serve (es : list event) (s : Service) : Service :=
  foldl (λ s e, react e s) s es.

(** A task played to its end with nothing in between, and a sequence of
    requests served one at a time, each task ending before the next
    request arrives. *)
Definition alone (t : task) (w : World) : World :=
  match t with Task p => (run p w).2 end.

Definition in_turn (rs : list request) (w : World) : World :=
  foldl (λ w r, alone (task_of r) w) w rs.

(** The events of such a service: the request arrives and its task
    makes all its steps. *)
Fixpoint steps {A} (p : prog A) (w : World) : nat :=
  match p with
  | Do o k =>
      match exec o w with
      | (Done x, w') => S (steps (k x) w')
      | (Raised _, _) => 1
      end
  | _ => 1
  end.

Fixpoint one_by_one (rs : list request) (w : World) : list event :=
  match rs with
  | [] => []
  | r :: rest =>
      Arrive r
      :: repeat (Advance 0) (match task_of r with Task p => steps p w end)
      ++ one_by_one rest (alone (task_of r) w)
  end.

(** ** Vocabulary of the steps *)

(** Every call a task can come to make, whatever the earlier calls
    return, satisfies [P]. *)
Fixpoint all_ops {A} (P : ∀ X, op X → Prop) (p : prog A) : Prop :=
  match p with
  | Do o k => P _ o ∧ ∀ x, all_ops P (k x)
  | _ => True
  end.

Definition task_ops (P : ∀ X, op X → Prop) (t : task) : Prop :=
  match t with Task p => all_ops P p end.

(** The five collections. *)
Definition collections : list string :=
  ["campaign"; "company"; "template"; "prospect"; "messagelog"].

(** The calls of the service that write: an insert into one of [names]
    other than [template], of a pending prospect if into [prospect]; the
    update of a prospect by its identifier that a send makes; the
    upsert of the templates of a campaign. *)
Definition fits (names : list string) {X} (o : op X) : Prop :=
  match o with
  | InsertOne name fields =>
      name ∈ names ∧ name ≠ "template"
      ∧ (name = "prospect" → fields !! "status" = Some (VStr "pending"))
  | UpdateOne name q fields =>
      name = "prospect" ∧ name ∈ names
      ∧ ∃ id s t2 t3, q = [("_id", Eq (VOid id))]
                      ∧ fields = sent_fields s t2 t3
                      ∧ (s = "requested" ∨ s = "followed_up")
  | UpsertOne name q fields on_insert =>
      name = "template" ∧ name ∈ names
      ∧ ∃ cid a b t t', q = [("campaign_id", Eq (VStr cid))]
                        ∧ fields = [("connection_template", VStr a);
                                    ("followup_template", VStr b);
                                    ("updated_at", VDate t)]
                        ∧ on_insert = [("created_at", VDate t')]
  | _ => True
  end.

(** The Template documents of each campaign, before and after: none is
    removed, and one is added only when there was none. *)
Definition templates_kept (w w' : World) : Prop :=
  ∀ cid, (length (templates_of cid w) ≤ length (templates_of cid w')
          ≤ Nat.max 1 (length (templates_of cid w)))%nat.

End Service.

(** A concrete rendering of timestamps, to run the definitions on
    examples: the decimal microsecond count. *)
Definition decimal_text : DatetimeText :=
  {| isoformat := λ t, pretty t; str_datetime := λ t, pretty t |}.

(** A world with an empty database, a clock that stands still, and
    counters for the random source and the identifiers. *)
Definition frozen : World :=
  mkWorld ∅ (λ _, 0) 0 (λ n, n) 0 (λ n, mkOid (pretty n)) 0.

Definition hello : TemplateSet :=
  {| campaign_id := "c1"; connection_template := "Hi {{First Name}}";
     followup_template := "Again, {{First Name}}" |}.

(** A world with three prospects of campaign [c1]: one pending, one
    requested long ago, one requested at the time the clock starts
    from. *)
Definition demo_prospects : Collection :=
  [ (mkOid "0a", dict [("campaign_id", VStr "c1"); ("first_name", VStr "Ann");
                       ("status", VStr "pending"); ("last_action_at", VNone)]);
    (mkOid "0b", dict [("campaign_id", VStr "c1"); ("first_name", VStr "Bob");
                       ("status", VStr "requested"); ("last_action_at", VDate 0)]);
    (mkOid "0c", dict [("campaign_id", VStr "c1"); ("first_name", VStr "Cy");
                       ("status", VStr "requested");
                       ("last_action_at", VDate 1000000000000)]) ].

Definition demo : World :=
  mkWorld (<["prospect" := demo_prospects]> ∅) (λ n, 1000000000000 + Z.of_nat n) 0
          (λ n, n) 0 (λ n, mkOid (pretty n)) 0.

(** The same prospects under a clock that is never on a whole
    millisecond. *)
Definition offbeat : World :=
  mkWorld (<["prospect" := demo_prospects]> ∅) (λ n, 1000000000123 + Z.of_nat n) 0
          (λ n, n) 0 (λ n, mkOid (pretty n)) 0.

(** The same prospects under a clock that is put forward by three days
    and a millisecond after its fourth reading. *)
Definition leap : World :=
  mkWorld (<["prospect" := demo_prospects]> ∅)
          (λ n, if (n <? 4)%nat then 1000000000000 + Z.of_nat n
                else 1000000000000 + 259200001000 + Z.of_nat n) 0
          (λ n, n) 0 (λ n, mkOid (pretty n)) 0.

(** An upload of one row after which the reader fails. *)
Definition cut_short : UploadFile :=
  {| content_type := Some "text/csv";
     csv_rows := [<["Company Name" := "Acme"]> ∅];
     csv_error := true |}.

(** Mappings used as examples. *)
Definition ann : Doc :=
  dict [("first_name", VStr "Ann"); ("company_name", VStr "Acme");
        ("job_title", VStr "CEO"); ("personalized_line", VStr "Loved your post")].

(** A first name that spells a later token. *)
Definition nested : Doc :=
  dict [("first_name", VStr "{{Job Title}}"); ("job_title", VStr "CEO")].




(** The statistics of a campaign without prospects. *)
Definition idle_stats : Stats :=
  {| total := 0; requests_sent := 0; followups_sent := 0;
     connections_accepted := 0; replies_received := 0; pending := 0 |}.

(** * Properties *)

Section Rendering.
Context `{DatetimeText}.

(** ** Text coercion *)

Lemma field_text_code (data : Doc) (field : string) :
  py_str (py_or (dict_get data field (VStr "")) (VStr "")) = field_text data field.
Proof.
  unfold field_text, dict_get, py_or.
  destruct (data !! field) as [[| s | t | o]|]; simpl; try reflexivity.
  destruct s; reflexivity.
Qed.

(** ** [str.replace] on a token *)

Lemma append_cons (x : ascii) (a b : string) : String x a +:+ b = String x (a +:+ b).
Proof. reflexivity. Qed.

Lemma append_nil (b : string) : EmptyString +:+ b = b.
Proof. reflexivity. Qed.

Lemma append_assoc (a b c : string) : (a +:+ b) +:+ c = a +:+ (b +:+ c).
Proof.
  induction a as [|x a IH]; [reflexivity |].
  rewrite !append_cons. f_equal. exact IH.
Qed.

Lemma placeholder_cons (key : string) :
  placeholder key = String "{" (String "{" (key +:+ "}}")).
Proof. reflexivity. Qed.

(** Unfold one step of the scanners, leaving character comparisons
    folded. *)
Tactic Notation "scan" := cbn [replace_go String.prefix String.length].
Tactic Notation "scan" "in" hyp(H) := cbn [replace_go String.prefix String.length] in H.

Lemma prefix_append (s r : string) : String.prefix s (s +:+ r) = true.
Proof.
  induction s as [|a s IH]; [by destruct r |].
  rewrite append_cons. scan.
  destruct (ascii_dec a a); [exact IH | congruence].
Qed.

Lemma replace_go_skip (old new s rest : string) :
  replace_go old new (String.length s) (s +:+ rest) = replace_go old new 0 rest.
Proof.
  induction s as [|c s IH]; [reflexivity |].
  rewrite append_cons. scan. exact IH.
Qed.

(** A character other than the opening brace starts no token. *)
Lemma replace_go_char (key new : string) (c : ascii) (s : string) :
  c ≠ "{"%char →
  replace_go (placeholder key) new 0 (String c s)
  = String c (replace_go (placeholder key) new 0 s).
Proof.
  intros Hc. rewrite placeholder_cons. scan.
  destruct (ascii_dec "{" c) as [E|E]; [congruence | reflexivity].
Qed.

Lemma replace_go_no_open (key new s rest : string) :
  no_open s = true →
  replace_go (placeholder key) new 0 (s +:+ rest)
  = s +:+ replace_go (placeholder key) new 0 rest.
Proof.
  induction s as [|c s IH]; intros Hs; [reflexivity |].
  simpl in Hs. apply andb_true_iff in Hs as [Hc Hs].
  apply negb_true_iff, Ascii.eqb_neq in Hc.
  rewrite !append_cons, replace_go_char by exact Hc. by rewrite IH.
Qed.

Lemma plain_char_open (c : ascii) : plain_char c = true → c ≠ "{"%char ∧ c ≠ "}"%char.
Proof.
  unfold plain_char. intros Hc. apply andb_true_iff in Hc as [H1 H2].
  split; apply Ascii.eqb_neq, negb_true_iff; assumption.
Qed.

Lemma plain_no_open (s : string) : plain s = true → no_open s = true.
Proof.
  induction s as [|c s IH]; simpl; [done |].
  intros Hs. apply andb_true_iff in Hs as [Hc Hs].
  apply plain_char_open in Hc as [Hc _].
  apply Ascii.eqb_neq in Hc. rewrite Hc. simpl. by apply IH.
Qed.

Lemma no_open_append (a b : string) :
  no_open a = true → no_open b = true → no_open (a +:+ b) = true.
Proof.
  induction a as [|c a IH]; [done |].
  rewrite append_cons. simpl. intros Ha Hb.
  apply andb_true_iff in Ha as [Hc Ha]. rewrite Hc. simpl. by apply IH.
Qed.

Lemma prefix_cons_same (a : ascii) (s t : string) :
  String.prefix (String a s) (String a t) = String.prefix s t.
Proof. cbn [String.prefix]. destruct (ascii_dec a a); [reflexivity | congruence]. Qed.

Lemma prefix_cons_ne (a b : ascii) (s t : string) :
  a ≠ b → String.prefix (String a s) (String b t) = false.
Proof. intros. cbn [String.prefix]. destruct (ascii_dec a b); [congruence | reflexivity]. Qed.

Lemma prefix_cons_inv (a b : ascii) (s t : string) :
  String.prefix (String a s) (String b t) = true → a = b ∧ String.prefix s t = true.
Proof. cbn [String.prefix]. destruct (ascii_dec a b); [auto | discriminate]. Qed.

(** Two placeholders with plain names agree as soon as one is a prefix
    of the other followed by anything. *)
Lemma prefix_slot_inj (key n rest : string) :
  plain key = true → plain n = true →
  String.prefix (key +:+ "}}") (n +:+ "}}" +:+ rest) = true → key = n.
Proof.
  revert n. induction key as [|a key IH]; intros [|b n] Hk Hn Hp.
  - reflexivity.
  - simpl in Hn. apply andb_true_iff in Hn as [Hb _].
    apply plain_char_open in Hb as [_ Hb].
    rewrite ?append_cons, ?append_nil in Hp.
    apply prefix_cons_inv in Hp as [Hp _]. congruence.
  - simpl in Hk. apply andb_true_iff in Hk as [Ha _].
    apply plain_char_open in Ha as [_ Ha].
    rewrite ?append_cons, ?append_nil in Hp.
    apply prefix_cons_inv in Hp as [Hp _]. congruence.
  - simpl in Hk, Hn.
    apply andb_true_iff in Hk as [_ Hk]. apply andb_true_iff in Hn as [_ Hn].
    rewrite !append_cons in Hp.
    apply prefix_cons_inv in Hp as [-> Hp].
    f_equal. by apply IH.
Qed.

(** The token at the head of the text is replaced. *)
Lemma replace_go_head (c : ascii) (old new rest : string) :
  replace_go (String c old) new 0 (String c old +:+ rest)
  = new +:+ replace_go (String c old) new 0 rest.
Proof.
  rewrite append_cons. cbn [replace_go].
  change (String c (old +:+ rest)) with (String c old +:+ rest).
  rewrite prefix_append. f_equal.
  cbn [String.length]. rewrite Nat.sub_succ, Nat.sub_0_r.
  apply replace_go_skip.
Qed.

Lemma replace_go_hit (key new rest : string) :
  replace_go (placeholder key) new 0 (placeholder key +:+ rest)
  = new +:+ replace_go (placeholder key) new 0 rest.
Proof. rewrite placeholder_cons. apply replace_go_head. Qed.

(** A placeholder with another name is copied. *)
Lemma replace_go_miss (key n new rest : string) :
  plain key = true → plain n = true → n ≠ key →
  replace_go (placeholder key) new 0 (placeholder n +:+ rest)
  = placeholder n +:+ replace_go (placeholder key) new 0 rest.
Proof.
  intros Hk Hn Hne.
  rewrite (placeholder_cons n), !append_cons, append_assoc.
  assert (Hfirst : String.prefix (placeholder key)
            (String "{" (String "{" (n +:+ "}}" +:+ rest))) = false).
  { destruct (String.prefix _ _) eqn:Hp; [| reflexivity].
    rewrite placeholder_cons, !prefix_cons_same in Hp.
    apply prefix_slot_inj in Hp; [congruence | assumption..]. }
  assert (Hsecond : String.prefix (placeholder key)
            (String "{" (n +:+ "}}" +:+ rest)) = false).
  { rewrite placeholder_cons, prefix_cons_same.
    destruct n as [|b n].
    - rewrite append_nil, append_cons. by apply prefix_cons_ne.
    - rewrite append_cons. apply prefix_cons_ne.
      simpl in Hn. apply andb_true_iff in Hn as [Hb _].
      apply plain_char_open in Hb as [Hb _]. congruence. }
  cbn [replace_go]. rewrite Hfirst. f_equal.
  cbn [replace_go]. rewrite Hsecond. f_equal.
  rewrite <- append_assoc.
  apply replace_go_no_open, no_open_append; [by apply plain_no_open | reflexivity].
Qed.

Lemma str_replace_token (key new s : string) :
  str_replace (placeholder key) new s = replace_go (placeholder key) new 0 s.
Proof. rewrite placeholder_cons. reflexivity. Qed.

(** One pass over a well-formed template fills exactly the placeholders
    named [key]. *)
Lemma str_replace_pieces (key new : string) (ps : list piece) :
  plain key = true → forallb piece_ok ps = true →
  str_replace (placeholder key) new (pieces_text ps)
  = pieces_text (map (fill_one key new) ps).
Proof.
  intros Hk. rewrite str_replace_token.
  induction ps as [|[s|n] ps IH]; intros Hps; [reflexivity | |];
    cbn [forallb piece_ok] in Hps; apply andb_true_iff in Hps as [Hp Hps];
    cbn [map pieces_text piece_text fill_one].
  - rewrite replace_go_no_open by (by apply plain_no_open). by rewrite IH.
  - destruct (String.eqb n key) eqn:E.
    + apply String.eqb_eq in E as ->.
      rewrite replace_go_hit. cbn [piece_text]. by rewrite IH.
    + apply String.eqb_neq in E.
      rewrite replace_go_miss by assumption. cbn [piece_text]. by rewrite IH.
Qed.

Lemma fill_one_ok (key new : string) (ps : list piece) :
  plain new = true → forallb piece_ok ps = true →
  forallb piece_ok (map (fill_one key new) ps) = true.
Proof.
  intros Hv. induction ps as [|[s|n] ps IH]; cbn [forallb map fill_one piece_ok];
    intros Hps; [done | |]; apply andb_true_iff in Hps as [Hp Hps].
  - rewrite Hp. by apply IH.
  - destruct (String.eqb n key); cbn [piece_ok]; rewrite ?Hv, ?Hp; by apply IH.
Qed.

Lemma fill_passes (data : Doc) (p : piece) :
  fill_one "Personalized Line" (field_text data "personalized_line")
    (fill_one "Job Title" (field_text data "job_title")
       (fill_one "Company Name" (field_text data "company_name")
          (fill_one "First Name" (field_text data "first_name") p)))
  = fill data p.
Proof.
  destruct p as [s|n]; [reflexivity |]. cbn [fill fill_one].
  destruct (String.eqb n "First Name"); cbn [fill_one]; [reflexivity |].
  destruct (String.eqb n "Company Name"); cbn [fill_one]; [reflexivity |].
  destruct (String.eqb n "Job Title"); cbn [fill_one]; [reflexivity |].
  destruct (String.eqb n "Personalized Line"); reflexivity.
Qed.

(** The four passes, in the order of the dictionary literal. *)
Lemma render_template_passes (template : string) (data : Doc) :
  render_template template data
  = str_replace "{{Personalized Line}}" (field_text data "personalized_line")
      (str_replace "{{Job Title}}" (field_text data "job_title")
         (str_replace "{{Company Name}}" (field_text data "company_name")
            (str_replace "{{First Name}}" (field_text data "first_name") template))).
Proof.
  unfold render_template, template_fields. cbn [foldl fst snd].
  by rewrite !field_text_code.
Qed.

(** C3, as amended.  For a template made of brace-free text and
    placeholders with brace-free names, and a mapping whose four field
    texts hold no brace, [render_template] replaces every placeholder of
    the four known names by the text of its field (empty when the field
    is absent or empty) and leaves every other piece, in particular every
    unknown placeholder, as it is. *)
Theorem render_template_fills (ps : list piece) (data : Doc) :
  forallb piece_ok ps = true →
  plain (field_text data "first_name") = true →
  plain (field_text data "company_name") = true →
  plain (field_text data "job_title") = true →
  plain (field_text data "personalized_line") = true →
  render_template (pieces_text ps) data = pieces_text (map (fill data) ps).
Proof.
  intros Hps H1 H2 H3 H4. rewrite render_template_passes.
  change "{{First Name}}" with (placeholder "First Name").
  change "{{Company Name}}" with (placeholder "Company Name").
  change "{{Job Title}}" with (placeholder "Job Title").
  change "{{Personalized Line}}" with (placeholder "Personalized Line").
  rewrite (str_replace_pieces "First Name") by done.
  rewrite (str_replace_pieces "Company Name") by (done || by apply fill_one_ok).
  rewrite (str_replace_pieces "Job Title")
    by (done || by repeat apply fill_one_ok).
  rewrite (str_replace_pieces "Personalized Line")
    by (done || by repeat apply fill_one_ok).
  rewrite !map_map. f_equal. apply map_ext. intros p. apply fill_passes.
Qed.

End Rendering.

Lemma render_template_fills_witness :
  render_template (H := decimal_text)
    (pieces_text [Text "Hi "; Slot "First Name"; Text " at "; Slot "Company Name";
                  Text ", "; Slot "Job Title"; Text " - "; Slot "Personalized Line";
                  Text " "; Slot "Unknown"]) ann
  = "Hi Ann at Acme, CEO - Loved your post {{Unknown}}".
Proof.
  rewrite (render_template_fills (H := decimal_text)) by (vm_compute; reflexivity).
  vm_compute. reflexivity.
Defined.

(** C3, as stated, fails: with a first name that spells the job-title
    token, the occurrence of the first-name token is not replaced by the
    first name. *)
Lemma render_template_not_simultaneous :
  ¬ (∀ (H : DatetimeText) (template : string) (data : Doc),
       render_template template data = render_template_spec template data).
Proof.
  intros X. specialize (X decimal_text "{{First Name}}" nested).
  vm_compute in X. discriminate X.
Qed.

(** C10.  The four passes run one after the other in the order First
    Name, Company Name, Job Title, Personalized Line, and a token that an
    earlier pass brings in is replaced by a later one: rendering
    ["{{First Name}}"] with a first name ["{{Job Title}}"] and a job
    title ["CEO"] gives ["CEO"]. *)
Theorem render_template_sequential :
  ∀ H : DatetimeText,
    (∀ template data,
       render_template template data
       = str_replace "{{Personalized Line}}" (field_text data "personalized_line")
           (str_replace "{{Job Title}}" (field_text data "job_title")
              (str_replace "{{Company Name}}" (field_text data "company_name")
                 (str_replace "{{First Name}}" (field_text data "first_name")
                    template))))
    ∧ nested !! "first_name" = Some (VStr "{{Job Title}}")
    ∧ nested !! "job_title" = Some (VStr "CEO")
    ∧ str_replace "{{First Name}}" (field_text nested "first_name") "{{First Name}}"
      = "{{Job Title}}"
    ∧ render_template "{{First Name}}" nested = "CEO".
Proof.
  intros H. split; [apply render_template_passes |].
  repeat split; vm_compute; reflexivity.
Qed.

(** ** [serialize] *)

Section Serialize.
Context `{DatetimeText}.

Lemma deref_insert_eq (h : Heap) (d : loc) (m : Doc) : deref (<[d := m]> h) d = m.
Proof. unfold deref. by rewrite lookup_insert_eq. Qed.

Lemma convert_item_deref (d : loc) (h : Heap) (kv : string * value) :
  deref (convert_item d h kv) d = convert_in (deref h d) kv.
Proof.
  unfold convert_item, convert_in.
  destruct (kv.2); try reflexivity. by rewrite deref_insert_eq.
Qed.

Lemma convert_item_other (d l : loc) (h : Heap) (kv : string * value) :
  l ≠ d → convert_item d h kv !! l = h !! l.
Proof.
  intros Hl. unfold convert_item.
  destruct (kv.2); try reflexivity. by rewrite lookup_insert_ne.
Qed.

Lemma convert_loop_deref (d : loc) (items : list (string * value)) (h : Heap) :
  deref (foldl (convert_item d) h items) d = foldl convert_in (deref h d) items.
Proof.
  revert h. induction items as [|kv items IH]; intros h; [reflexivity |].
  cbn [foldl]. by rewrite IH, convert_item_deref.
Qed.

Lemma convert_loop_other (d l : loc) (items : list (string * value)) (h : Heap) :
  l ≠ d → foldl (convert_item d) h items !! l = h !! l.
Proof.
  intros Hl. revert h. induction items as [|kv items IH]; intros h; [reflexivity |].
  cbn [foldl]. by rewrite IH, convert_item_other.
Qed.

Lemma convert_in_lookup (items : list (string * value)) (acc : Doc) (k : string) :
  NoDup items.*1 →
  foldl convert_in acc items !! k
  = match (list_to_map items : Doc) !! k with
    | Some (VDate t) => Some (VStr (isoformat t))
    | _ => acc !! k
    end.
Proof.
  revert acc. induction items as [|[k' v] items IH]; intros acc Hnd; [reflexivity |].
  apply NoDup_cons in Hnd as [Hk' Hnd]. cbn [foldl]. rewrite IH by done.
  cbn [list_to_map foldr uncurry fst snd].
  destruct (decide (k' = k)) as [->|Hne].
  - rewrite lookup_insert_eq.
    rewrite (not_elem_of_list_to_map_1 _ k) by done.
    unfold convert_in; cbn [fst snd].
    destruct v; try reflexivity. by rewrite lookup_insert_eq.
  - rewrite lookup_insert_ne by done.
    destruct (list_to_map items !! k) as [[]|]; try reflexivity;
      unfold convert_in; cbn [fst snd]; destruct v; try reflexivity;
      by rewrite lookup_insert_ne.
Qed.

Lemma convert_all (m : Doc) : foldl convert_in m (map_to_list m) = json_value <$> m.
Proof.
  apply map_eq. intros k.
  rewrite convert_in_lookup by apply NoDup_fst_map_to_list.
  rewrite list_to_map_to_list, lookup_fmap.
  destruct (m !! k) as [[]|]; reflexivity.
Qed.

Lemma rename_id_deref (d : loc) (h : Heap) :
  deref (rename_id d h) d
  = match deref h d !! "_id" with
    | Some v => <["id" := VStr (py_str v)]> (delete "_id" (deref h d))
    | None => deref h d
    end.
Proof.
  unfold rename_id. destruct (deref h d !! "_id"); [| reflexivity].
  by rewrite !deref_insert_eq.
Qed.

Lemma rename_id_other (d l : loc) (h : Heap) : l ≠ d → rename_id d h !! l = h !! l.
Proof.
  intros Hl. unfold rename_id. destruct (deref h d !! "_id"); [| reflexivity].
  by rewrite !lookup_insert_ne.
Qed.

(** On a dictionary that is not empty, [serialize] allocates a new
    dictionary, holding [serialize_doc] of the old one, and leaves every
    other object as it was. *)
Lemma serialize_copy (l : loc) (h : Heap) :
  deref h l ≠ ∅ →
  ∃ d, serialize (Some l) h = (Some d, (serialize (Some l) h).2)
       ∧ h !! d = None
       ∧ deref (serialize (Some l) h).2 d = serialize_doc (deref h l)
       ∧ ∀ l', l' ≠ d → (serialize (Some l) h).2 !! l' = h !! l'.
Proof.
  intros Hne. unfold serialize, falsy_ref.
  rewrite bool_decide_eq_false_2 by done.
  exists (fresh (dom h)). cbn [snd].
  assert (Hfresh : h !! fresh (dom h) = None).
  { apply not_elem_of_dom, is_fresh. }
  split; [reflexivity |]. split; [exact Hfresh |]. split.
  - rewrite convert_loop_deref, convert_all, rename_id_deref, deref_insert_eq.
    reflexivity.
  - intros l' Hl'.
    by rewrite convert_loop_other, rename_id_other, lookup_insert_ne.
Qed.

Lemma serialize_doc_renamed (m : Doc) (v : value) (k : string) :
  m !! "_id" = Some v →
  serialize_doc m !! "id" = Some (VStr (py_str v))
  ∧ serialize_doc m !! "_id" = None
  ∧ (k ≠ "id" → k ≠ "_id" → serialize_doc m !! k = json_value <$> m !! k).
Proof.
  intros Hid. unfold serialize_doc. rewrite Hid, !lookup_fmap.
  rewrite lookup_insert_eq, lookup_insert_ne, lookup_delete_eq by done.
  split; [reflexivity |]. split; [reflexivity |].
  intros H1 H2. by rewrite lookup_insert_ne, lookup_delete_ne.
Qed.

Lemma serialize_doc_plain (m : Doc) (k : string) :
  m !! "_id" = None → serialize_doc m !! k = json_value <$> m !! k.
Proof. intros Hid. unfold serialize_doc. by rewrite Hid, lookup_fmap. Qed.

Lemma serialize_doc_serialized (m : Doc) : serialized m (serialize_doc m).
Proof.
  unfold serialized. destruct (m !! "_id") as [v|] eqn:Hid.
  - pose proof (serialize_doc_renamed m v "" Hid) as (H1 & H2 & _).
    split; [done |]. split; [done |]. intros k.
    by apply (serialize_doc_renamed m v k Hid).
  - intros k. by apply serialize_doc_plain.
Qed.

(** C7.  [serialize] returns [None] for [None], changing nothing.  For a
    dictionary it returns a dictionary in which [id] holds the string
    form of the value of [_id], [_id] is gone, every other field that
    held a timestamp holds its ISO text, and every other field is as it
    was; and no object of the store that existed before the call, the
    argument among them, is changed. *)
Theorem serialize_spec (doc : option loc) (h : Heap) :
  (∀ l, is_Some (h !! l) → (serialize doc h).2 !! l = h !! l)
  ∧ match doc with
    | None => serialize doc h = (None, h)
    | Some l =>
        ∃ d, (serialize doc h).1 = Some d
             ∧ serialized (deref h l) (deref (serialize doc h).2 d)
    end.
Proof.
  destruct doc as [l|]; [| by split].
  destruct (decide (deref h l = ∅)) as [He|Hne].
  - assert (Hs : serialize (Some l) h = (Some l, h)).
    { unfold serialize, falsy_ref. by rewrite bool_decide_eq_true_2. }
    rewrite Hs. split; [done |]. exists l. split; [done |].
    cbn [snd]. rewrite He. unfold serialized. rewrite lookup_empty.
    intros k. by rewrite lookup_empty.
  - destruct (serialize_copy l h Hne) as (d & Hs & Hd & Hm & Ho).
    split.
    + intros l' [m Hl']. apply Ho. congruence.
    + exists d. split; [by rewrite Hs |].
      rewrite Hm. apply serialize_doc_serialized.
Qed.

End Serialize.

(** ** The state monad and the store *)

Section Store.

Lemma bind_done {A B} (m : M A) (k : A → M B) (w w' : World) (a : A) :
  m w = (Done a, w') → bind m k w = k a w'.
Proof. unfold bind. by intros ->. Qed.

Lemma bind_raised {A B} (m : M A) (k : A → M B) (w w' : World) (e : exn) :
  m w = (Raised e, w') → bind m k w = (Raised e, w').
Proof. unfold bind. by intros ->. Qed.

(** A loop whose body never raises runs to its end; an invariant indexed
    by the elements already handled carries over. *)
Lemma foldM_invariant {A S} (body : S → A → M S)
    (I : list A → S → World → Prop) (l : list A) (s : S) (w : World) :
  I [] s w →
  (∀ pre x post s w, l = pre ++ x :: post → I pre s w →
     ∃ s' w', body s x w = (Done s', w') ∧ I (pre ++ [x]) s' w') →
  ∃ s' w', foldM body s l w = (Done s', w') ∧ I l s' w'.
Proof.
  revert I s w. induction l as [|x l IH]; intros I s w H0 Hstep.
  - exists s, w. by split.
  - destruct (Hstep [] x l s w eq_refl H0) as (s1 & w1 & Hx & H1).
    destruct (IH (λ pre, I (x :: pre)) s1 w1 H1) as (s' & w' & Hl & HI).
    { intros pre y post s2 w2 -> H2. by apply (Hstep (x :: pre) y post s2 w2). }
    exists s', w'. split; [| exact HI].
    cbn [foldM]. by rewrite (bind_done _ _ _ _ _ Hx).
Qed.

Lemma coll_insert_one (name name' : string) (fields : Doc) (w : World) :
  coll name' (insert_one name fields w).2
  = if decide (name = name')
    then (coll name' w ++ [(oid_gen w (allocs w), to_bson <$> fields)])%list
    else coll name' w.
Proof.
  unfold coll, insert_one. cbn [snd db].
  rewrite lookup_insert. by destruct (decide (name = name')) as [->|].
Qed.

Lemma bson_date_le (t : datetime) : bson_date t ≤ t.
Proof. unfold bson_date. pose proof (Z.mul_div_le t 1000). lia. Qed.


Lemma bson_date_mono (a b : datetime) : a ≤ b → bson_date a ≤ bson_date b.
Proof.
  intros Hab. unfold bson_date. pose proof (Z.div_le_mono a b 1000). lia.
Qed.

Lemma bson_date_whole (t : datetime) : bson_date (1000 * t) = 1000 * t.
Proof. unfold bson_date. rewrite (Z.mul_comm 1000 t), Z.div_mul by done. lia. Qed.

Lemma bson_date_idem (t : datetime) : bson_date (bson_date t) = bson_date t.
Proof. unfold bson_date at 2. apply bson_date_whole. Qed.

Lemma to_bson_apply_set (fields : list (string * value)) (d : Doc) :
  to_bson <$> apply_set fields d = apply_set (bson_fields fields) (to_bson <$> d).
Proof.
  unfold apply_set, bson_fields. revert d.
  induction fields as [|[k v] fields IH]; intros d; cbn [foldl map fst snd]; [done |].
  by rewrite IH, fmap_insert.
Qed.

Lemma to_bson_dict (fields : list (string * value)) :
  to_bson <$> apply_set fields ∅ = apply_set (bson_fields fields) ∅.
Proof. by rewrite to_bson_apply_set, fmap_empty. Qed.

Lemma apply_set_app (f g : list (string * value)) (d : Doc) :
  apply_set g (apply_set f d) = apply_set (f ++ g) d.
Proof. unfold apply_set. by rewrite foldl_app. Qed.

Lemma coll_set_coll (name name' : string) (c : Collection) (w : World) :
  coll name' (set_coll name c w) = if decide (name = name') then c else coll name' w.
Proof.
  unfold coll, set_coll. cbn [db].
  rewrite lookup_insert. by destruct (decide (name = name')).
Qed.

Lemma upsert_one_done (name : string) (q : Query)
    (fields on_insert : list (string * value)) (w : World) :
  upsert_one name q fields on_insert w
  = (Done tt, (upsert_one name q fields on_insert w).2).
Proof.
  unfold upsert_one. by destruct (update_first q (bson_fields fields) (coll name w)).
Qed.

Lemma update_one_done (name : string) (q : Query)
    (fields : list (string * value)) (w : World) :
  update_one name q fields w = (Done tt, (update_one name q fields w).2).
Proof.
  unfold update_one. by destruct (update_first q (bson_fields fields) (coll name w)).
Qed.

Lemma coll_now (name : string) (w : World) : coll name (now w).2 = coll name w.
Proof. reflexivity. Qed.

Lemma coll_draw (name : string) (w : World) : coll name (draw w).2 = coll name w.
Proof. reflexivity. Qed.

Lemma dict_unfold (fields : list (string * value)) : dict fields = apply_set fields ∅.
Proof. reflexivity. Qed.

End Store.

Global Opaque dict.

(** ** Company upload *)

Section Upload.

Lemma lacks_company_name_code (row : Row) :
  lacks_company_name row = falsy_text (row_company_name row).
Proof.
  unfold lacks_company_name, row_company_name, or_text, falsy_text.
  destruct (row !! "Company Name") as [[|c s]|];
    destruct (row !! "company_name") as [[|c' s']|]; reflexivity.
Qed.

Lemma row_url_text (row : Row) :
  default "" (or_text (row_linkedin_url row) (Some "")) = default "" (row_linkedin_url row).
Proof. by destruct (row_linkedin_url row) as [[|]|]. Qed.

Lemma or_text_cell (row : Row) (first second : string) :
  cell_of row first second (or_text (row !! first) (row !! second)).
Proof.
  unfold or_text. destruct (row !! first) as [s|] eqn:E.
  - destruct (String.eqb_spec s "") as [->|Hs].
    + apply cell_second. by right.
    + by apply cell_first.
  - apply cell_second. by left.
Qed.

(** *** [strip] *)

Lemma behind_some (table : list (list ascii)) (l l' : list ascii) :
  behind table l = Some l' → ∃ c, c ∈ table ∧ l = c ++ l'.
Proof.
  unfold behind. destruct (List.find _ table) as [c|] eqn:E; [| done].
  intros [= <-]. apply find_some in E as [Hin Hpre].
  apply bool_decide_eq_true in Hpre as [k ->].
  exists c. split; [by apply list_elem_of_In |]. by rewrite drop_app_length.
Qed.

Lemma behind_none (table : list (list ascii)) (l : list ascii) :
  behind table l = None → ¬ starts_with table l.
Proof.
  unfold behind. destruct (List.find _ table) as [c|] eqn:E; [done |].
  intros _ (c & Hin & Hpre). apply list_elem_of_In in Hin.
  pose proof (find_none _ _ E c Hin) as Hc. by apply bool_decide_eq_false in Hc.
Qed.

Lemma made_of_nil (table : list (list ascii)) : made_of table [].
Proof. exists []. by split. Qed.

Lemma made_of_cons (table : list (list ascii)) (c l : list ascii) :
  c ∈ table → made_of table l → made_of table (c ++ l).
Proof. intros Hc (cs & Hcs & ->). exists (c :: cs). split; [by constructor | done]. Qed.

Lemma made_of_app (table : list (list ascii)) (l1 l2 : list ascii) :
  made_of table l1 → made_of table l2 → made_of table (l1 ++ l2).
Proof.
  intros (cs1 & H1 & ->) (cs2 & H2 & ->). exists (cs1 ++ cs2).
  split; [by apply Forall_app | by rewrite concat_app].
Qed.

Lemma made_of_reverse (table : list (list ascii)) (l : list ascii) :
  made_of (reverse <$> table) l → made_of table (reverse l).
Proof.
  intros (cs & Hcs & ->). induction Hcs as [|c cs Hc _ IH]; [apply made_of_nil |].
  cbn [concat]. rewrite reverse_app. apply made_of_app; [exact IH |].
  apply list_elem_of_fmap_1 in Hc as (c0 & -> & Hc0). rewrite reverse_involutive.
  rewrite <- (app_nil_r c0). by apply made_of_cons; [| apply made_of_nil].
Qed.

(** The loop drops a run of characters of the table and stops where no
    character of the table starts. *)
Lemma drop_front_spec (table : list (list ascii)) (n : nat) (l : list ascii) :
  (∀ c, c ∈ table → c ≠ []) → (length l ≤ n)%nat →
  ∃ a, l = a ++ drop_front table n l
       ∧ made_of table a
       ∧ ¬ starts_with table (drop_front table n l).
Proof.
  intros Hne. revert l. induction n as [|n IH]; intros l Hlen.
  - destruct l; [| cbn in Hlen; lia]. exists []. cbn [drop_front].
    split; [done |]. split; [apply made_of_nil |].
    intros (c & Hc & Hpre). apply prefix_nil_inv in Hpre. by apply (Hne c).
  - cbn [drop_front]. destruct (behind table l) as [l'|] eqn:E.
    + apply behind_some in E as (c & Hc & ->).
      destruct (IH l') as (a & Ha & Hm & Hs).
      { rewrite length_app in Hlen. specialize (Hne c Hc).
        destruct c; [done | cbn in Hlen; lia]. }
      exists (c ++ a). split; [by rewrite <- app_assoc, <- Ha |].
      split; [by apply made_of_cons | exact Hs].
    + exists []. split; [done |]. split; [apply made_of_nil | by apply behind_none].
Qed.

Lemma whitespace_nonempty (c : list ascii) : c ∈ whitespace → c ≠ [].
Proof.
  intros Hc ->. revert Hc. apply (bool_decide_unpack _). by vm_compute.
Qed.

Lemma whitespace_reverse_nonempty (c : list ascii) :
  c ∈ reverse <$> whitespace → c ≠ [].
Proof.
  intros (c0 & -> & Hc0)%list_elem_of_fmap_1 E.
  apply (whitespace_nonempty c0 Hc0).
  by rewrite <- (reverse_involutive c0), E.
Qed.

Lemma lstrip_spec (s : string) :
  ∃ a, list_ascii_of_string s = a ++ list_ascii_of_string (lstrip s)
       ∧ made_of whitespace a
       ∧ ¬ starts_with whitespace (list_ascii_of_string (lstrip s)).
Proof.
  unfold lstrip. rewrite list_ascii_of_string_of_list_ascii.
  by apply drop_front_spec; [apply whitespace_nonempty |].
Qed.

Lemma rstrip_spec (s : string) :
  ∃ b, list_ascii_of_string s = list_ascii_of_string (rstrip s) ++ b
       ∧ made_of whitespace b
       ∧ ¬ ends_with whitespace (list_ascii_of_string (rstrip s)).
Proof.
  unfold rstrip. rewrite list_ascii_of_string_of_list_ascii.
  set (l := reverse (list_ascii_of_string s)).
  destruct (drop_front_spec (reverse <$> whitespace) (length l) l)
    as (a & Ha & Hm & Hs); [apply whitespace_reverse_nonempty | done |].
  exists (reverse a). split; [| split].
  - rewrite <- reverse_app, <- Ha. unfold l. by rewrite reverse_involutive.
  - by apply made_of_reverse.
  - intros (c & Hc & Hsuf). apply Hs. exists (reverse c).
    split; [by apply list_elem_of_fmap_2 |].
    apply suffix_prefix_reverse in Hsuf. by rewrite reverse_involutive in Hsuf.
Qed.

(** [strip] gives the text between the two runs of white space. *)
Lemma strip_stripped (s : string) : stripped s (strip s).
Proof.
  unfold strip. destruct (lstrip_spec s) as (a & Ha & Hma & Hsa).
  destruct (rstrip_spec (lstrip s)) as (b & Hb & Hmb & Heb).
  exists a, b. split; [by rewrite Ha, Hb |]. split; [exact Hma |].
  split; [exact Hmb |]. split; [| exact Heb].
  intros (c & Hc & Hpre). apply Hsa. exists c. split; [exact Hc |].
  rewrite Hb. by apply prefix_app_r.
Qed.

(** *** The loop over the rows *)

Lemma upload_row_skipped (cid : string) (count : Z) (row : Row) (w : World) :
  lacks_company_name row = true → upload_row cid count row w = (Done count, w).
Proof.
  rewrite lacks_company_name_code. unfold upload_row. by intros ->.
Qed.

Lemma upload_row_kept (cid : string) (count : Z) (row : Row) (w : World) :
  lacks_company_name row = false →
  ∃ sd, upload_row cid count row w
        = (Done (count + 1),
           mkWorld (<["company" := coll "company" w ++ [sd]]> (db w)) (clock w)
                   (2 + ticks w) (rng w) (draws w) (oid_gen w) (S (allocs w)))
        ∧ company_of cid row sd.
Proof.
  rewrite lacks_company_name_code. unfold upload_row. intros Hrow. rewrite Hrow.
  rewrite row_url_text.
  destruct (row_company_name row) as [name|] eqn:Hname; [| done].
  assert (Hne : name ≠ "") by (by intros ->).
  eexists (_, _). split; [reflexivity |].
  exists name, (row_linkedin_url row), (strip name),
    (strip (default "" (row_linkedin_url row))),
    (bson_date (clock w (ticks w))), (bson_date (clock w (S (ticks w)))).
  split; [rewrite <- Hname; apply or_text_cell |]. split; [exact Hne |].
  split; [apply or_text_cell |].
  split; [apply strip_stripped |]. split; [apply strip_stripped |].
  cbn [snd default]. by rewrite !dict_unfold, to_bson_dict.
Qed.

(** The loop over the rows the reader yields. *)
Lemma upload_rows_run (cid : string) (rows : list Row) (w : World) :
  ∃ w' docs,
    foldM (upload_row cid) 0 rows w = (Done (Z.of_nat (length docs)), w')
    ∧ coll "company" w' = coll "company" w ++ docs
    ∧ Forall2 (company_of cid)
        (List.filter (λ row, negb (lacks_company_name row)) rows) docs
    ∧ ∀ name, name ≠ "company" → coll name w' = coll name w.
Proof.
  set (keep := λ row : Row, negb (lacks_company_name row)).
  destruct (foldM_invariant (upload_row cid)
              (λ pre count w',
                 ∃ docs, count = Z.of_nat (length docs)
                         ∧ coll "company" w' = coll "company" w ++ docs
                         ∧ Forall2 (company_of cid) (List.filter keep pre) docs
                         ∧ ∀ name, name ≠ "company" → coll name w' = coll name w)
              rows 0 w) as (n & w' & Hrun & docs & -> & Hc & HF & Ho).
  - exists []. rewrite app_nil_r. repeat split; constructor.
  - intros pre row post count w1 _ (docs & -> & Hc & HF & Ho).
    destruct (lacks_company_name row) eqn:Hrow.
    + exists (Z.of_nat (length docs)), w1.
      split; [by apply upload_row_skipped |].
      exists docs. rewrite List.filter_app. cbn [List.filter]. unfold keep at 2.
      rewrite Hrow. cbn [negb]. by rewrite app_nil_r.
    + destruct (upload_row_kept cid (Z.of_nat (length docs)) row w1 Hrow)
        as (sd & Hkept & Hsd).
      eexists _, _. split; [exact Hkept |].
      exists (docs ++ [sd]).
      split; [rewrite length_app, Nat2Z.inj_add; reflexivity |].
      split; [unfold coll at 1; cbn [db]; rewrite lookup_insert_eq; cbn [default];
              by rewrite Hc, <- app_assoc |].
      split.
      * rewrite List.filter_app. cbn [List.filter]. unfold keep at 2.
        rewrite Hrow. cbn [negb]. apply Forall2_app; [exact HF |].
        by constructor.
      * intros name Hname. unfold coll at 1. cbn [db].
        rewrite lookup_insert_ne by done. by apply Ho.
  - by exists w', docs.
Qed.


End Upload.

(** C6, as stated, fails: when the reader fails after a row, the row
    stays inserted and the upload ends with the reader's error, not
    with a count. *)
Lemma upload_cut_short_no_count : ¬ upload_counts "c1" cut_short frozen.
Proof.
  intros Hc. destruct (Hc eq_refl) as (docs & w' & Hrun & _).
  assert (E : (upload_companies "c1" cut_short frozen).1 = Raised CsvError)
    by (vm_compute; reflexivity).
  rewrite Hrun in E. discriminate.
Qed.

(** ** Prospect search *)

Section Search.

Lemma slice_to_0 (s : string) : slice_to 0 s = "".
Proof. by destruct s. Qed.

Lemma append_empty_r (s : string) : s +:+ "" = s.
Proof. induction s as [|c s IH]; [done |]. by rewrite append_cons, IH. Qed.

Lemma choice_run {A} (x : A) (xs : list A) (w : World) :
  ∃ v, In v (x :: xs) ∧ choice x xs w = (Done v, (draw w).2).
Proof.
  exists (nth (Nat.modulo (rng w (draws w)) (S (length xs))) (x :: xs) x).
  split; [| reflexivity].
  apply nth_In. cbn [length]. apply Nat.mod_upper_bound. done.
Qed.

Lemma create_prospect_run (cid q : string) (c : Stored) (created : Z) (i : nat)
    (w : World) :
  ∃ sd w',
    create_prospect cid q (as_dict c) created i w = (Done (created + 1), w')
    ∧ new_prospect cid q c sd
    ∧ coll "prospect" w' = coll "prospect" w ++ [sd]
    ∧ ∀ name, name ≠ "prospect" → coll name w' = coll name w.
Proof.
  unfold create_prospect.
  destruct (choice_run "Alex" ["Jordan"; "Taylor"; "Casey"; "Riley"; "Drew"; "Chris"] w)
    as (f & Hf & Ef).
  rewrite (bind_done _ _ _ _ _ Ef).
  destruct (choice_run "" ["-Lee"; "-Ray"] (draw w).2) as (fs & _ & Efs).
  rewrite (bind_done _ _ _ _ _ Efs).
  set (w2 := (draw (draw w).2).2).
  destruct (choice_run "Smith" ["Johnson"; "Lee"; "Brown"; "Davis"; "Miller"] w2)
    as (l & Hl & El).
  rewrite (bind_done _ _ _ _ _ El).
  destruct (choice_run "" ["-Jr"] (draw w2).2) as (ls & _ & Els).
  rewrite (bind_done _ _ _ _ _ Els).
  set (w4 := (draw (draw w2).2).2).
  rewrite !slice_to_0, !append_empty_r.
  set (doc := prospect_doc cid q (dict_get (as_dict c) "company_name" VNone) f l
                (clock w4 (ticks w4)) (clock w4 (S (ticks w4)))).
  exists (oid_gen w4 (allocs w4), to_bson <$> doc),
    (insert_one "prospect" doc (now (now w4).2).2).2.
  split; [reflexivity |]. split.
  - exists f, l. eexists _, _. split; [exact Hf |]. split; [exact Hl |].
    cbn [snd]. unfold doc, prospect_doc. by rewrite !dict_unfold, to_bson_dict.
  - split.
    + by rewrite coll_insert_one, decide_True.
    + intros name Hname. by rewrite coll_insert_one, decide_False.
Qed.

Lemma create_for_company_run (cid q : string) (c : Stored) (created : Z) (w : World) :
  ∃ sd1 sd2 w',
    create_for_company cid q created c w = (Done (created + 2), w')
    ∧ new_prospect cid q c sd1 ∧ new_prospect cid q c sd2
    ∧ coll "prospect" w' = coll "prospect" w ++ [sd1; sd2]
    ∧ ∀ name, name ≠ "prospect" → coll name w' = coll name w.
Proof.
  unfold create_for_company. cbn [seq foldM].
  destruct (create_prospect_run cid q c created 0%nat w) as (sd1 & w1 & E1 & N1 & C1 & O1).
  rewrite (bind_done _ _ _ _ _ E1).
  destruct (create_prospect_run cid q c (created + 1) 1%nat w1)
    as (sd2 & w2 & E2 & N2 & C2 & O2).
  rewrite (bind_done _ _ _ _ _ E2).
  exists sd1, sd2, w2. split; [unfold ret; do 2 f_equal; lia |].
  split; [done |]. split; [done |]. split.
  - by rewrite C2, C1, <- app_assoc.
  - intros name Hname. by rewrite O2, O1.
Qed.

(** C4.  With no Company document for the campaign the search raises the
    400 error "No companies found for this campaign" and leaves the world
    as it was; with N > 0 of them it does not raise: it appends 2N
    documents to the [prospect] collection and returns 2N, and each
    appended document is pending, carries the requested job title and the
    name of one of the companies, and has its first and last name taken
    from the two pools with nothing appended. *)
Theorem search_and_create_prospects_spec (cid q : string) (w : World) :
  let companies :=
    List.filter (selects [("campaign_id", Eq (VStr cid))]) (coll "company" w) in
  match companies with
  | [] => search_and_create_prospects cid q w
          = (Raised (HTTPException 400 "No companies found for this campaign"), w)
  | _ => ∃ w' docs,
           search_and_create_prospects cid q w = (Done (Z.of_nat (length docs)), w')
           ∧ length docs = (2 * length companies)%nat
           ∧ coll "prospect" w' = coll "prospect" w ++ docs
           ∧ Forall (λ sd, ∃ c, In c companies ∧ new_prospect cid q c sd) docs
           ∧ ∀ name, name ≠ "prospect" → coll name w' = coll name w
  end.
Proof.
  intros companies. unfold search_and_create_prospects, find, bind.
  fold companies. destruct companies as [|c0 cs] eqn:Hcs; [reflexivity |].
  rewrite <- Hcs. clear Hcs.
  destruct (foldM_invariant (create_for_company cid q)
              (λ pre created w',
                 ∃ docs, created = Z.of_nat (length docs)
                         ∧ length docs = (2 * length pre)%nat
                         ∧ coll "prospect" w' = coll "prospect" w ++ docs
                         ∧ Forall (λ sd, ∃ c, In c pre ∧ new_prospect cid q c sd) docs
                         ∧ ∀ name, name ≠ "prospect" → coll name w' = coll name w)
              companies 0 w) as (n & w' & Hrun & docs & -> & Hlen & Hc & HF & Ho).
  - exists []. rewrite app_nil_r. repeat split; constructor.
  - intros pre c post created w1 _ (docs & -> & Hlen & Hc & HF & Ho).
    destruct (create_for_company_run cid q c (Z.of_nat (length docs)) w1)
      as (sd1 & sd2 & w2 & E & N1 & N2 & C & O).
    exists (Z.of_nat (length docs) + 2), w2. split; [exact E |].
    exists (docs ++ [sd1; sd2]).
    split; [rewrite length_app; cbn [length]; lia |].
    split; [rewrite !length_app; cbn [length]; lia |].
    split; [by rewrite C, Hc, <- app_assoc |].
    split.
    + apply Forall_app. split.
      * eapply Forall_impl; [exact HF |]. intros sd (c' & Hin & Hn).
        exists c'. split; [apply in_or_app; by left | done].
      * repeat constructor; exists c; (split; [apply in_or_app; right; by left | done]).
    + intros name Hname. by rewrite O, Ho.
  - by exists w', docs.
Qed.

End Search.

(** ** Template upsert *)

Section Upsert.
Context `{DatetimeText}.

Lemma selects_campaign (cid : string) (sd : Stored) :
  selects [("campaign_id", Eq (VStr cid))] sd
  = bool_decide (sd.2 !! "campaign_id" = Some (VStr cid)).
Proof.
  unfold selects, matches, as_dict. cbn [forallb fst snd].
  rewrite lookup_insert_ne by done. rewrite andb_true_r.
  destruct (sd.2 !! "campaign_id") as [v|]; cbn [cond_holds].
  - apply bool_decide_ext. split; congruence.
  - by rewrite bool_decide_eq_false_2.
Qed.

(** [update_one] changes the first document of the result set, and only
    that one. *)
Lemma update_first_filter (q : Query) (fields : list (string * value)) (c : Collection) :
  (∀ sd, selects q sd = true → selects q (sd.1, apply_set fields sd.2) = true) →
  match List.filter (selects q) c with
  | [] => update_first q fields c = None
  | sd :: rest =>
      ∃ c', update_first q fields c = Some c'
            ∧ List.filter (selects q) c' = (sd.1, apply_set fields sd.2) :: rest
  end.
Proof.
  intros Hkeep. induction c as [|sd c IH]; [reflexivity |].
  cbn [List.filter update_first]. destruct (selects q sd) eqn:Hsd.
  - eexists. split; [reflexivity |]. cbn [List.filter]. by rewrite (Hkeep sd Hsd).
  - destruct (List.filter (selects q) c) as [|sd' rest].
    + by rewrite IH.
    + destruct IH as (c' & -> & Hc'). eexists. split; [reflexivity |].
      cbn [List.filter]. by rewrite Hsd.
Qed.

Lemma upsert_keeps_campaign (cid : string) (ct ft : string) (t : datetime) (sd : Stored) :
  selects [("campaign_id", Eq (VStr cid))] sd = true →
  selects [("campaign_id", Eq (VStr cid))]
    (sd.1, apply_set [("connection_template", VStr ct); ("followup_template", VStr ft);
                      ("updated_at", VDate t)] sd.2) = true.
Proof.
  rewrite !selects_campaign. cbn [apply_set foldl fst snd].
  intros Hc%bool_decide_eq_true. apply bool_decide_eq_true.
  by rewrite !lookup_insert_ne.
Qed.

(** One upsert: the campaign ends with the documents it had, the first
    of them refreshed; or with one new document if it had none. *)
Lemma upsert_templates_run (p : TemplateSet) (w : World) :
  let fields := [("connection_template", VStr (connection_template p));
                 ("followup_template", VStr (followup_template p));
                 ("updated_at", VDate (bson_date (clock w (ticks w))))] in
  let w' := (upsert_templates p w).2 in
  clock w' = clock w ∧ ticks w' = (2 + ticks w)%nat
  ∧ match templates_of (campaign_id p) w with
    | [] => ∃ id,
        templates_of (campaign_id p) w'
        = [(id, apply_set [("created_at", VDate (bson_date (clock w (S (ticks w)))))]
                  (apply_set fields
                     (apply_set [("campaign_id", VStr (campaign_id p))] ∅)))]
    | sd :: rest =>
        templates_of (campaign_id p) w' = (sd.1, apply_set fields sd.2) :: rest
    end.
Proof.
  intros fields w'.
  set (q := [("campaign_id", Eq (VStr (campaign_id p)))]).
  set (w2 := (now (now w).2).2).
  set (fields0 := [("connection_template", VStr (connection_template p));
                   ("followup_template", VStr (followup_template p));
                   ("updated_at", VDate (clock w (ticks w)))]).
  assert (Hw' : w' = (upsert_one "template" q fields0
                        [("created_at", VDate (clock w (S (ticks w))))] w2).2).
  { subst w'. unfold upsert_templates.
    rewrite (bind_done now _ w (now w).2 (clock w (ticks w))) by reflexivity.
    rewrite (bind_done now _ (now w).2 w2 (clock w (S (ticks w)))) by reflexivity.
    erewrite bind_done by apply upsert_one_done. reflexivity. }
  pose proof (update_first_filter q fields (coll "template" w2)
                (upsert_keeps_campaign _ _ _ _)) as Hu.
  change (coll "template" w2) with (coll "template" w) in Hu.
  unfold templates_of. fold q.
  unfold upsert_one in Hw'. change (coll "template" w2) with (coll "template" w) in Hw'.
  change (bson_fields fields0) with fields in Hw'.
  destruct (List.filter (selects q) (coll "template" w)) as [|sd rest] eqn:Hf.
  - rewrite Hu in Hw'. cbn [snd] in Hw'. subst w'. rewrite Hw'. clear Hw'.
    split; [reflexivity |]. split; [reflexivity |].
    eexists. rewrite coll_insert_one, decide_True by done.
    change (coll "template" w2) with (coll "template" w).
    rewrite !to_bson_apply_set, fmap_empty.
    change (bson_fields fields0) with fields.
    rewrite List.filter_app, Hf. cbn [List.filter app].
    unfold q at 1. rewrite selects_campaign. unfold q. cbn [snd apply_set foldl fst query_fields flat_map app].
    rewrite bool_decide_eq_true_2; [reflexivity |].
    unfold fields. cbn [apply_set foldl fst snd bson_fields map to_bson].
    rewrite !lookup_insert_ne by done. by rewrite lookup_insert_eq.
  - destruct Hu as (c' & Hc' & Hfc'). rewrite Hc' in Hw'. cbn [snd] in Hw'.
    subst w'. rewrite Hw'. clear Hw'.
    split; [reflexivity |]. split; [reflexivity |].
    by rewrite coll_set_coll, decide_True.
Qed.



End Upsert.



(** ** The automation engine *)

Section Automation.
Context `{DatetimeText}.

Lemma connection_step_send (cid : string) (tmpl : value) (p : Stored) :
  connection_step cid tmpl p = send cid tmpl "connection" "requested" 2 30 p.
Proof. reflexivity. Qed.

Lemma followup_step_send (cid : string) (tmpl : value) (p : Stored) :
  followup_step cid tmpl tt p = send cid tmpl "followup" "followed_up" 5 45 p.
Proof. reflexivity. Qed.

Lemma selects_id (id : ObjectId) (sd : Stored) :
  selects [("_id", Eq (VOid id))] sd = bool_decide (sd.1 = id).
Proof.
  unfold selects, matches, as_dict. cbn [forallb fst snd].
  rewrite lookup_insert_eq, andb_true_r. cbn [cond_holds].
  apply bool_decide_ext. split; congruence.
Qed.

Lemma touch_fst (id : ObjectId) (fields : list (string * value)) (c : Collection) :
  (touch id fields c).*1 = c.*1.
Proof.
  unfold touch. induction c as [|sd c IH]; [reflexivity |].
  cbn [map fmap list_fmap]. f_equal; [by destruct (decide (sd.1 = id)) | exact IH].
Qed.

Lemma touch_absent (id : ObjectId) (fields : list (string * value)) (c : Collection) :
  id ∉ c.*1 → touch id fields c = c.
Proof.
  unfold touch. induction c as [|sd c IH]; [reflexivity |].
  cbn [map fmap list_fmap]. intros Hid. apply not_elem_of_cons in Hid as [Hne Hid].
  rewrite decide_False by congruence. f_equal. by apply IH.
Qed.

Lemma update_first_touch (id : ObjectId) (fields : list (string * value))
    (c : Collection) :
  NoDup c.*1 →
  default c (update_first [("_id", Eq (VOid id))] fields c) = touch id fields c.
Proof.
  induction c as [|sd c IH]; [reflexivity |].
  cbn [fmap list_fmap]. intros [Hsd Hnd]%NoDup_cons.
  cbn [update_first]. rewrite selects_id.
  unfold touch. cbn [map]. fold (touch id fields c).
  destruct (decide (sd.1 = id)) as [E|E].
  - rewrite bool_decide_eq_true_2 by done. cbn [default from_option].
    rewrite touch_absent; [reflexivity | congruence].
  - rewrite bool_decide_eq_false_2 by done. rewrite <- (IH Hnd).
    by destruct (update_first _ fields c).
Qed.

Lemma elem_of_touch_other (id : ObjectId) (fields : list (string * value))
    (c : Collection) (sd : Stored) :
  sd ∈ c → sd.1 ≠ id → sd ∈ touch id fields c.
Proof.
  intros Hin Hne. unfold touch. apply list_elem_of_In, in_map_iff.
  exists sd. split; [by rewrite decide_False | by apply list_elem_of_In].
Qed.

Lemma elem_of_touch_same (fields : list (string * value)) (c : Collection)
    (sd : Stored) :
  sd ∈ c → (sd.1, apply_set fields sd.2) ∈ touch sd.1 fields c.
Proof.
  intros Hin. unfold touch. apply list_elem_of_In, in_map_iff.
  exists sd. split; [by rewrite decide_True | by apply list_elem_of_In].
Qed.

Lemma coll_update_one (name name' : string) (q : Query)
    (fields : list (string * value)) (w : World) :
  coll name' (update_one name q fields w).2
  = if decide (name = name')
    then default (coll name w) (update_first q (bson_fields fields) (coll name w))
    else coll name' w.
Proof.
  unfold update_one.
  destruct (update_first q (bson_fields fields) (coll name w)) as [c|]; cbn [snd].
  - rewrite coll_set_coll. by destruct (decide (name = name')).
  - by destruct (decide (name = name')) as [->|].
Qed.

Lemma update_one_frame (name : string) (q : Query) (fields : list (string * value))
    (w : World) :
  let w' := (update_one name q fields w).2 in
  clock w' = clock w ∧ ticks w' = ticks w ∧ rng w' = rng w ∧ draws w' = draws w
  ∧ oid_gen w' = oid_gen w ∧ allocs w' = allocs w.
Proof.
  unfold update_one. by destruct (update_first q (bson_fields fields) (coll name w)).
Qed.

Lemma send_unfold (cid t type_ status : string) (lo hi : Z) (p : Stored) (w : World) :
  send cid (VStr t) type_ status lo hi p w
  = update_one "prospect" [("_id", Eq (VOid p.1))]
      (sent_fields status (clock w (2 + ticks w)) (clock w (3 + ticks w)))
      (logged cid t type_ lo hi p w).
Proof. reflexivity. Qed.

Lemma coll_logged (name cid t type_ : string) (lo hi : Z) (p : Stored) (w : World) :
  coll name (logged cid t type_ lo hi p w)
  = if decide ("messagelog" = name)
    then coll "messagelog" w
         ++ [(oid_gen w (allocs w),
              to_bson <$>
                message_log cid p type_
                  (clock w (ticks w)
                   + minutes (lo + Z.of_nat (rng w (draws w)) mod (hi - lo + 1)))
                  (clock w (1 + ticks w)) (render_template t (as_dict p)))]
    else coll name w.
Proof.
  unfold coll, logged. cbn [db]. rewrite lookup_insert.
  by destruct (decide ("messagelog" = name)) as [<-|].
Qed.

Lemma message_log_bson (cid : string) (p : Stored) (type_ : string)
    (t0 t1 : datetime) (content : string) :
  to_bson <$> message_log cid p type_ t0 t1 content
  = message_log cid p type_ (bson_date t0) (bson_date t1) content.
Proof. unfold message_log. by rewrite !dict_unfold, to_bson_dict. Qed.

(** One more send extends what the loop has done. *)
Lemma send_step (cid t type_ status : string) (lo hi : Z) (w : World)
    (pre : list Stored) (x : Stored) (w1 : World) :
  NoDup (coll "prospect" w).*1 →
  x ∈ coll "prospect" w → x.1 ∉ pre.*1 →
  sends_done cid t type_ status lo hi w pre w1 →
  ∃ w2, send cid (VStr t) type_ status lo hi x w1 = (Done tt, w2)
        ∧ sends_done cid t type_ status lo hi w (pre ++ [x]) w2.
Proof.
  intros Hnd Hx Hfresh (Hclk & Hrng & Hoid & Htick & Hdraw & Halloc & Hlog & Hids
                        & Hsent & Hrest & Hother).
  rewrite send_unfold, update_one_done. eexists. split; [reflexivity |].
  set (L := logged cid t type_ lo hi x w1).
  set (fields := sent_fields status (clock w1 (2 + ticks w1)) (clock w1 (3 + ticks w1))).
  destruct (update_one_frame "prospect" [("_id", Eq (VOid x.1))] fields L)
    as (Fclk & Ftick & Frng & Fdraw & Foid & Falloc).
  assert (Hpros : coll "prospect" (update_one "prospect" [("_id", Eq (VOid x.1))] fields L).2
                  = touch x.1 (bson_fields fields) (coll "prospect" w1)).
  { rewrite coll_update_one, decide_True by done.
    unfold L. rewrite coll_logged, decide_False by done.
    apply update_first_touch. by rewrite Hids. }
  assert (Hfields : bson_fields fields
                    = sent_fields status
                        (bson_date (clock w (ticks w + 4 * length pre + 2)))
                        (bson_date (clock w (ticks w + 4 * length pre + 3)))).
  { unfold fields. rewrite Hclk, Htick.
    change (bson_fields (sent_fields status ?a ?b))
      with (sent_fields status (bson_date a) (bson_date b)).
    f_equal; do 2 f_equal; lia. }
  unfold sends_done. rewrite Fclk, Ftick, Frng, Fdraw, Foid, Falloc, Hpros.
  rewrite length_app. cbn [length L logged clock ticks rng draws oid_gen allocs].
  split; [done |]. split; [done |]. split; [done |].
  split; [lia |]. split; [lia |]. split; [lia |].
  split; [| split; [| split; [| split]]].
  - rewrite coll_update_one, decide_False by done.
    unfold L. rewrite coll_logged, decide_True by done.
    rewrite Hlog, <- app_assoc, imap_app. cbn [imap]. do 2 f_equal.
    unfold log_at. rewrite message_log_bson, Hclk, Hrng, Hoid, Htick, Hdraw, Halloc.
    rewrite !Nat.add_0_r.
    by replace (1 + (ticks w + 4 * length pre))%nat
         with (ticks w + 4 * length pre + 1)%nat by lia.
  - by rewrite touch_fst.
  - intros i p [[Hi Hp]|[-> <-]]%lookup_snoc_Some.
    + apply elem_of_touch_other; [by apply Hsent |].
      cbn [sent_at fst]. intros E. apply Hfresh. rewrite <- E.
      apply list_elem_of_fmap_2. by eapply list_elem_of_lookup_2.
    + unfold sent_at. rewrite <- Hfields.
      apply elem_of_touch_same. by apply Hrest.
  - intros sd Hsd Hno. rewrite fmap_app in Hno. apply not_elem_of_app in Hno as [Hno Hne].
    apply elem_of_touch_other; [by apply Hrest |].
    intros E. apply Hne. rewrite E. cbn. apply list_elem_of_here.
  - intros name H1 H2. rewrite coll_update_one, decide_False by done.
    unfold L. rewrite coll_logged, decide_False by done. by apply Hother.
Qed.

Lemma sends_done_start (cid t type_ status : string) (lo hi : Z) (w : World) :
  sends_done cid t type_ status lo hi w [] w.
Proof.
  unfold sends_done. cbn [length imap]. rewrite app_nil_r.
  repeat split; try done; try lia.
Qed.

(** A loop of sends over prospects of the collection, each once. *)
Lemma send_loop (cid t type_ status : string) (lo hi : Z) (cursor : list Stored)
    (w : World) :
  NoDup (coll "prospect" w).*1 →
  cursor `sublist_of` coll "prospect" w →
  ∃ w', foldM (λ _ p, send cid (VStr t) type_ status lo hi p) tt cursor w = (Done tt, w')
        ∧ sends_done cid t type_ status lo hi w cursor w'.
Proof.
  intros Hnd Hsub.
  assert (Hcur : NoDup cursor.*1).
  { eapply sublist_NoDup; [exact Hnd |]. by apply fmap_sublist. }
  destruct (foldM_invariant (λ _ p, send cid (VStr t) type_ status lo hi p)
              (λ pre _ w', sends_done cid t type_ status lo hi w pre w')
              cursor tt w) as ([] & w' & Hrun & Hdone).
  - apply sends_done_start.
  - intros pre x post [] w1 Hsplit Hpre.
    destruct (send_step cid t type_ status lo hi w pre x w1) as (w2 & Hs & Hd);
      try done.
    + eapply elem_of_sublist; [| exact Hsub]. rewrite Hsplit.
      apply elem_of_app. right. apply list_elem_of_here.
    + rewrite Hsplit, fmap_app in Hcur. apply NoDup_app in Hcur as (_ & Hdis & _).
      intros Hin. apply (Hdis _ Hin). cbn. apply list_elem_of_here.
    + by exists tt, w2.
  - by exists w'.
Qed.

Lemma filter_sublist {A} (f : A → bool) (l : list A) : List.filter f l `sublist_of` l.
Proof.
  induction l as [|x l IH]; cbn [List.filter]; [constructor |].
  destruct (f x); by constructor.
Qed.

Lemma limit_sublist (n : Z) (c : Collection) : limit n c `sublist_of` c.
Proof. unfold limit. destruct (n =? 0); [done | apply sublist_take]. Qed.

Lemma limit_length (n : Z) (c : Collection) :
  0 < n → Z.of_nat (length (limit n c)) ≤ n.
Proof.
  intros Hn. unfold limit. destruct (Z.eqb_spec n 0) as [|_]; [lia |].
  rewrite length_take. lia.
Qed.

(** The [break] of the first loop never fires on a cursor cut at the
    limit: the loop is the loop of sends. *)
Lemma connection_loop_run (cid : string) (tmpl : value) (L : Z)
    (cursor : list Stored) (processed : Z) (w w' : World) :
  foldM (λ _ p, send cid tmpl "connection" "requested" 2 30 p) tt cursor w
  = (Done tt, w') →
  processed + Z.of_nat (length cursor) ≤ L →
  connection_loop cid tmpl L cursor processed w
  = (Done (processed + Z.of_nat (length cursor)), w').
Proof.
  revert processed w. induction cursor as [|x rest IH]; intros processed w Hrun Hlen.
  - cbn [foldM] in Hrun. injection Hrun as <-.
    cbn [connection_loop length]. unfold ret. do 2 f_equal. lia.
  - cbn [length] in Hlen. cbn [connection_loop].
    destruct (Z.geb_spec processed L) as [|_]; [lia |].
    rewrite connection_step_send. cbn [foldM] in Hrun. unfold bind in Hrun |- *.
    destruct (send cid tmpl "connection" "requested" 2 30 x w) as [[[]|e] w1];
      [| discriminate].
    rewrite (IH (processed + 1) w1 Hrun) by lia.
    cbn [length]. do 2 f_equal. lia.
Qed.

Lemma connection_phase_run (cid t : string) (L : Z) (w : World) :
  NoDup (coll "prospect" w).*1 → 0 < L →
  let sel := limit L (List.filter (selects (pending_query cid)) (coll "prospect" w)) in
  ∃ w1, connection_phase cid (VStr t) L w = (Done (Z.of_nat (length sel)), w1)
        ∧ sends_done cid t "connection" "requested" 2 30 w sel w1.
Proof.
  intros Hnd HL sel.
  destruct (send_loop cid t "connection" "requested" 2 30 sel w Hnd) as (w1 & Hrun & Hdone).
  { etrans; [apply limit_sublist | apply filter_sublist]. }
  exists w1. split; [| exact Hdone].
  unfold connection_phase, bind, find_limit. fold sel.
  rewrite (connection_loop_run cid (VStr t) L sel 0 w w1 Hrun); [done |].
  pose proof (limit_length L (List.filter (selects (pending_query cid))
                                (coll "prospect" w)) HL) as Hlen.
  fold sel in Hlen. lia.
Qed.

Lemma followup_phase_run (cid t : string) (L : Z) (w : World) :
  NoDup (coll "prospect" w).*1 →
  let cutoff := clock w (ticks w) - days 3 in
  let sel := limit L (List.filter (selects (followup_query cid cutoff))
                        (coll "prospect" w)) in
  ∃ w', followup_phase cid (VStr t) L w = (Done tt, w')
        ∧ sends_done cid t "followup" "followed_up" 5 45 (now w).2 sel w'.
Proof.
  intros Hnd cutoff sel.
  destruct (send_loop cid t "followup" "followed_up" 5 45 sel (now w).2 Hnd)
    as (w' & Hrun & Hdone).
  { etrans; [apply limit_sublist | apply filter_sublist]. }
  exists w'. split; [| exact Hdone]. exact Hrun.
Qed.

(** The engine: read the templates, draw the limit, run the two phases. *)
Lemma process_automation_phases (cid : string) (w : World) :
  process_automation cid w
  = bind (connection_phase cid
            (stored_template cid w "connection_template" connection_default)
            (daily_limit_of w))
      (λ _, followup_phase cid
              (stored_template cid w "followup_template" followup_default)
              (daily_limit_of w))
      (draw w).2.
Proof. reflexivity. Qed.

Lemma daily_limit_range (w : World) : 10 ≤ daily_limit_of w ≤ 20.
Proof.
  unfold daily_limit_of.
  pose proof (Z.mod_pos_bound (Z.of_nat (rng w (draws w))) (20 - 10 + 1)). lia.
Qed.

Lemma cond_eq_text (s : string) (o : option value) :
  cond_holds (Eq (VStr s)) o = true ↔ o = Some (VStr s).
Proof.
  destruct o as [v|]; cbn [cond_holds]; [| done].
  rewrite bool_decide_eq_true. split; congruence.
Qed.

Lemma cond_lte_date (t : datetime) (o : option value) :
  cond_holds (Lte t) o = true ↔ ∃ a, o = Some (VDate a) ∧ a ≤ t.
Proof.
  destruct o as [[]|]; cbn [cond_holds]; try (split; [done | by intros (? & ? & ?)]).
  rewrite Z.leb_le. split; [by eexists | by intros (? & [= <-] & ?)].
Qed.

Lemma selects_pending (cid : string) (sd : Stored) :
  selects (pending_query cid) sd = true
  ↔ sd.2 !! "campaign_id" = Some (VStr cid) ∧ sd.2 !! "status" = Some (VStr "pending").
Proof.
  unfold selects, matches, pending_query, as_dict. cbn [forallb fst snd].
  rewrite !lookup_insert_ne by done.
  rewrite !andb_true_iff, !cond_eq_text. tauto.
Qed.

Lemma selects_followup (cid : string) (cutoff : datetime) (sd : Stored) :
  selects (followup_query cid cutoff) sd = true
  ↔ sd.2 !! "campaign_id" = Some (VStr cid)
    ∧ sd.2 !! "status" = Some (VStr "requested")
    ∧ ∃ a, sd.2 !! "last_action_at" = Some (VDate a) ∧ a ≤ cutoff.
Proof.
  unfold selects, matches, followup_query, as_dict. cbn [forallb fst snd].
  rewrite !lookup_insert_ne by done.
  rewrite !andb_true_iff, !cond_eq_text, cond_lte_date. tauto.
Qed.

Lemma sent_at_lookup (status : string) (w : World) (i : nat) (p : Stored) :
  (sent_at status w i p).1 = p.1
  ∧ (sent_at status w i p).2 !! "status" = Some (VStr status)
  ∧ (sent_at status w i p).2 !! "last_action_at"
    = Some (VDate (bson_date (clock w (ticks w + 4 * i + 2))))
  ∧ (sent_at status w i p).2 !! "updated_at"
    = Some (VDate (bson_date (clock w (ticks w + 4 * i + 3)))).
Proof.
  unfold sent_at, sent_fields. cbn [fst snd apply_set foldl].
  split; [done |].
  split; [rewrite !lookup_insert_ne by done; by rewrite lookup_insert_eq |].
  split; [rewrite lookup_insert_ne by done; by rewrite lookup_insert_eq |].
  by rewrite lookup_insert_eq.
Qed.

Lemma message_log_lookup (cid : string) (p : Stored) (type_ : string)
    (t0 t1 : datetime) (content : string) :
  let d := message_log cid p type_ t0 t1 content in
  d !! "prospect_id" = Some (VStr (oid_hex p.1))
  ∧ d !! "type" = Some (VStr type_)
  ∧ d !! "status" = Some (VStr "sent").
Proof.
  unfold message_log. rewrite dict_unfold. cbn [apply_set foldl fst snd].
  split; [rewrite !lookup_insert_ne by done; by rewrite lookup_insert_eq |].
  split; rewrite !lookup_insert_ne by done; by rewrite lookup_insert_eq.
Qed.

Lemma offset_range (lo hi : Z) (r : nat) :
  lo ≤ hi → lo ≤ lo + Z.of_nat r mod (hi - lo + 1) ≤ hi.
Proof. intros. pose proof (Z.mod_pos_bound (Z.of_nat r) (hi - lo + 1)). lia. Qed.

(** The first phase of a run of the engine. *)
Lemma connection_run (cid t : string) (w : World) :
  NoDup (coll "prospect" w).*1 →
  stored_template cid w "connection_template" connection_default = VStr t →
  let L := daily_limit_of w in
  let sel := limit L (List.filter (selects (pending_query cid)) (coll "prospect" w)) in
  ∃ w1,
    connection_phase cid (VStr t) L (draw w).2 = (Done (Z.of_nat (length sel)), w1)
    ∧ process_automation cid w
      = followup_phase cid (stored_template cid w "followup_template" followup_default)
          L w1
    ∧ sends_done cid t "connection" "requested" 2 30 (draw w).2 sel w1.
Proof.
  intros Hnd Ht L sel.
  pose proof (daily_limit_range w) as HL. fold L in HL.
  destruct (connection_phase_run cid t L (draw w).2 Hnd) as (w1 & Hrun & Hdone);
    [lia |].
  exists w1. split; [exact Hrun |]. split; [| exact Hdone].
  rewrite process_automation_phases, Ht. fold L.
  by rewrite (bind_done _ _ _ _ _ Hrun).
Qed.

Lemma limit_take (n : Z) (c : Collection) : 0 < n → limit n c = take (Z.to_nat n) c.
Proof.
  intros Hn. unfold limit. destruct (Z.eqb_spec n 0) as [|_]; [lia |].
  by rewrite Z.abs_eq by lia.
Qed.

Lemma filter_pending (cid : string) (c : Collection) :
  List.filter (selects (pending_query cid)) c = List.filter (is_pending cid) c.
Proof.
  apply filter_ext. intros sd. unfold is_pending.
  destruct (selects (pending_query cid) sd) eqn:E.
  - apply selects_pending in E. by rewrite bool_decide_eq_true_2.
  - rewrite bool_decide_eq_false_2; [done |]. intros E'%selects_pending. congruence.
Qed.

(** *** The random draws *)






(** C2.  The follow-up phase, started when the clock reads [now_],
    selects the first prospects of the campaign, up to the limit, among
    those with status [requested] whose last action lies three days or
    more before [now_]: these and no others are eligible, so a prospect
    whose last action is less than three days old is never selected.
    Every selected prospect gets a record of type [followup] and status
    [sent] and is left with status [followed_up]. *)
Theorem followup_phase_spec (cid t : string) (L : Z) (w : World) :
  NoDup (coll "prospect" w).*1 →
  let now_ := clock w (ticks w) in
  let eligible := List.filter (selects (followup_query cid (now_ - days 3)))
                    (coll "prospect" w) in
  let sel := limit L eligible in
  (∀ sd, sd ∈ eligible
         ↔ sd ∈ coll "prospect" w
           ∧ sd.2 !! "campaign_id" = Some (VStr cid)
           ∧ sd.2 !! "status" = Some (VStr "requested")
           ∧ ∃ a, sd.2 !! "last_action_at" = Some (VDate a) ∧ days 3 ≤ now_ - a)
  ∧ (∀ sd a, sd.2 !! "last_action_at" = Some (VDate a) → now_ - a < days 3 → sd ∉ sel)
  ∧ sel = (if L =? 0 then eligible else take (Z.to_nat (Z.abs L)) eligible)
  ∧ ∃ w' logs,
      followup_phase cid (VStr t) L w = (Done tt, w')
      ∧ coll "messagelog" w' = coll "messagelog" w ++ logs
      ∧ length logs = length sel
      ∧ ∀ i p, sel !! i = Some p →
          (∃ log, logs !! i = Some log
                  ∧ log.2 !! "prospect_id" = Some (VStr (oid_hex p.1))
                  ∧ log.2 !! "type" = Some (VStr "followup")
                  ∧ log.2 !! "status" = Some (VStr "sent"))
          ∧ ∃ d, (p.1, d) ∈ coll "prospect" w'
                 ∧ d !! "status" = Some (VStr "followed_up").
Proof.
  intros Hnd now_ eligible sel.
  assert (Helig : ∀ sd, sd ∈ eligible
            ↔ sd ∈ coll "prospect" w
              ∧ sd.2 !! "campaign_id" = Some (VStr cid)
              ∧ sd.2 !! "status" = Some (VStr "requested")
              ∧ ∃ a, sd.2 !! "last_action_at" = Some (VDate a) ∧ days 3 ≤ now_ - a).
  { intros sd. unfold eligible.
    rewrite list_elem_of_In, filter_In, selects_followup, <- list_elem_of_In.
    split.
    - intros (Hin & Hc & Hs & a & Ha & Hle). repeat split; try done.
      exists a. split; [done | lia].
    - intros (Hin & Hc & Hs & a & Ha & Hle). repeat split; try done.
      exists a. split; [done | lia]. }
  split; [exact Helig |]. split.
  { intros sd a Ha Hlt Hsd.
    assert (Hin : sd ∈ eligible)
      by (eapply elem_of_sublist; [exact Hsd | apply limit_sublist]).
    apply Helig in Hin as (_ & _ & _ & b & Hb & Hge). rewrite Ha in Hb.
    injection Hb as <-. lia. }
  split; [reflexivity |].
  destruct (followup_phase_run cid t L w Hnd)
    as (w' & Hrun & _ & _ & _ & _ & _ & _ & Hlog & _ & Hsent & _).
  exists w', (imap (log_at cid t "followup" 5 45 (now w).2) sel).
  split; [exact Hrun |]. split; [exact Hlog |]. split; [apply length_imap |].
  intros i p Hp. split.
  - eexists. split; [by rewrite list_lookup_imap, Hp |].
    apply message_log_lookup.
  - exists (sent_at "followed_up" (now w).2 i p).2.
    destruct (sent_at_lookup "followed_up" (now w).2 i p) as (H1 & H2 & _).
    split; [| exact H2].
    rewrite <- H1, <- surjective_pairing. by apply Hsent.
Qed.



#[local] Instance prospect_id_inj :
  Inj (=) (=) (λ id : ObjectId, Some (VStr (oid_hex id))).
Proof. intros [a] [b] [= ->]. reflexivity. Qed.





End Automation.

Lemma demo_ids : NoDup (coll "prospect" demo).*1.
Proof. apply (bool_decide_unpack _). vm_compute. exact I. Qed.



Lemma followup_phase_spec_witness :
  NoDup (coll "prospect" demo).*1
  ∧ ∀ sd a, sd.2 !! "last_action_at" = Some (VDate a) →
            clock demo (ticks demo) - a < days 3 →
            sd ∉ limit 10 (List.filter
                             (selects (followup_query "c1"
                                         (clock demo (ticks demo) - days 3)))
                             (coll "prospect" demo)).
Proof.
  split; [exact demo_ids |].
  exact (proj1 (proj2 (followup_phase_spec (H := decimal_text) "c1" followup_default
                         10 demo demo_ids))).
Defined.


(** C1, as stated, fails: under a clock that is never on a whole
    millisecond the sent time of the first record a run appends, which
    the database holds in milliseconds, is none of the times the clock
    gave during the run. *)
Lemma sent_time_not_read : ¬ sent_when_read (H := decimal_text) "c1" offbeat.
Proof.
  unfold sent_when_read. intros Hc.
  assert (E : (λ log : Stored, log.2 !! "sent_at")
              <$> appended (H := decimal_text) "c1" offbeat
              = [Some (VDate 1000000000000); Some (VDate 1000000000000)])
    by (vm_compute; reflexivity).
  destruct (appended "c1" offbeat) as [|log rest]; [discriminate |].
  injection E as E _.
  destruct (Hc log (list_elem_of_here _ _)) as (n & _ & Hn).
  rewrite Hn in E. injection E as E. cbn [clock offbeat] in E. lia.
Qed.

(** C9, as stated, fails: when the clock is put forward by three days
    between the two phases, the prospect the connection phase has just
    advanced is due for the follow-up phase and gets a second record. *)
Lemma two_records_across_leap : ¬ one_record_each (H := decimal_text) "c1" leap.
Proof.
  unfold one_record_each.
  assert (E : (λ log : Stored, log.2 !! "prospect_id")
              <$> appended (H := decimal_text) "c1" leap
              = [Some (VStr "0a"); Some (VStr "0a"); Some (VStr "0b");
                 Some (VStr "0c")])
    by (vm_compute; reflexivity).
  rewrite E. intros [Hnew _]%NoDup_cons. apply Hnew, list_elem_of_here.
Qed.

(** On [demo] the run sends one connection request, to the pending
    prospect, and one follow-up, to the prospect requested long ago. *)
Example demo_run :
  (λ log : Stored, (log.2 !! "prospect_id", log.2 !! "type"))
  <$> coll "messagelog" (process_automation (H := decimal_text) "c1" demo).2
  = [(Some (VStr "0a"), Some (VStr "connection"));
     (Some (VStr "0b"), Some (VStr "followup"))].
Proof. vm_compute. reflexivity. Qed.

(** ** Tasks: the handlers step by step *)

Section Tasks.
Context `{DatetimeText}.

Lemma run_then {A B} (p : prog A) (k : A → prog B) (w : World) :
  run (then_ p k) w = bind (run p) (λ a, run (k a)) w.
Proof.
  revert w. induction p as [a|e|X o k' IH]; intros w; cbn [then_ run]; [done.. |].
  unfold bind at 1 2 3. destruct (exec o w) as [[x|e] w']; [apply IH | done].
Qed.

Lemma run_call {X} (o : op X) (w : World) : run (call o) w = exec o w.
Proof.
  unfold call. cbn [run]. unfold bind, ret. by destruct (exec o w) as [[x|e] w'].
Qed.

(** Playing a sequence: the first part, then the rest. *)
Lemma run_seq {A B} (p : prog A) (k : A → prog B) (m : M A) (k' : A → M B)
    (w : World) :
  (∀ w', run p w' = m w') → (∀ a w', run (k a) w' = k' a w') →
  run (then_ p k) w = bind m k' w.
Proof.
  intros Hp Hk. rewrite run_then. unfold bind. rewrite Hp.
  destruct (m w) as [[a|e] w']; [apply Hk | done].
Qed.

Lemma run_randint (lo hi : Z) (w : World) : run (randint_task lo hi) w = randint lo hi w.
Proof. reflexivity. Qed.

Lemma run_choice {A} (x : A) (xs : list A) (w : World) :
  run (choice_task x xs) w = choice x xs w.
Proof. reflexivity. Qed.

Lemma run_fold {A S} (body : S → A → prog S) (body' : S → A → M S) (l : list A)
    (s : S) (w : World) :
  (∀ s x w', run (body s x) w' = body' s x w') →
  run (fold_task body s l) w = foldM body' s l w.
Proof.
  intros Hbody. revert s w. induction l as [|x l IH]; intros s w;
    cbn [fold_task foldM]; [done |].
  apply run_seq; [apply Hbody | intros; apply IH].
Qed.

Lemma run_render_stored (tmpl : value) (data : Doc) (w : World) :
  run (render_stored_task tmpl data) w = render_stored tmpl data w.
Proof. by destruct tmpl. Qed.

(** Step through a sequence of calls. *)
Ltac run_step :=
  first
    [ reflexivity
    | apply run_seq;
        [ first [ intros; apply run_call | intros; apply run_randint
                | intros; apply run_choice | intros; apply run_render_stored ]
        | intros ]
    | apply run_call ].

Ltac run_steps := repeat run_step.

Lemma run_create_campaign (name : string) (description : option string) (w : World) :
  run (create_campaign_task name description) w = create_campaign name description w.
Proof. unfold create_campaign_task, create_campaign. run_steps. Qed.

Lemma run_upload_companies (cid : string) (file : UploadFile) (w : World) :
  run (upload_companies_task cid file) w = upload_companies cid file w.
Proof.
  unfold upload_companies_task, upload_companies. destruct (negb _); [done |].
  apply run_seq; [| intros; by destruct (csv_error file)].
  intros w'. apply run_fold. intros count row w''.
  unfold upload_row_task, upload_row. destruct (falsy_text _); run_steps.
Qed.

Lemma run_upsert_templates (p : TemplateSet) (w : World) :
  run (upsert_templates_task p) w = upsert_templates p w.
Proof. unfold upsert_templates_task, upsert_templates. run_steps. Qed.

Lemma run_search (cid q : string) (w : World) :
  run (search_and_create_prospects_task cid q) w = search_and_create_prospects cid q w.
Proof.
  unfold search_and_create_prospects_task, search_and_create_prospects.
  apply run_seq; [intros; apply run_call |].
  intros [|c cs] w'; [done |].
  apply run_fold. intros created c' w''.
  unfold create_for_company_task, create_for_company.
  apply run_fold. intros created' i w3.
  unfold create_prospect_task, create_prospect. run_steps.
Qed.

Lemma run_connection_step (cid : string) (tmpl : value) (p : Stored) (w : World) :
  run (connection_step_task cid tmpl p) w = connection_step cid tmpl p w.
Proof. unfold connection_step_task, connection_step. run_steps. Qed.

Lemma run_followup_step (cid : string) (tmpl : value) (u : unit) (p : Stored)
    (w : World) :
  run (followup_step_task cid tmpl u p) w = followup_step cid tmpl u p w.
Proof. unfold followup_step_task, followup_step. run_steps. Qed.

Lemma run_connection_loop (cid : string) (tmpl : value) (L : Z)
    (cursor : list Stored) (processed : Z) (w : World) :
  run (connection_loop_task cid tmpl L cursor processed) w
  = connection_loop cid tmpl L cursor processed w.
Proof.
  revert processed w. induction cursor as [|p rest IH]; intros processed w;
    cbn [connection_loop_task connection_loop]; [done |].
  destruct (processed >=? L); [done |].
  apply run_seq; [intros; apply run_connection_step | intros; apply IH].
Qed.

Lemma run_process_automation (cid : string) (w : World) :
  run (process_automation_task cid) w = process_automation cid w.
Proof.
  unfold process_automation_task, process_automation.
  apply run_seq; [intros; apply run_call | intros template w1].
  apply run_seq; [intros; apply run_randint | intros L w2].
  apply run_seq.
  - intros w3. unfold connection_phase_task, connection_phase.
    apply run_seq; [intros; apply run_call | intros; apply run_connection_loop].
  - intros _ w3. unfold followup_phase_task, followup_phase.
    apply run_seq; [intros; apply run_call | intros t w4].
    apply run_seq; [intros; apply run_call | intros cursor w5].
    apply run_fold. intros; apply run_followup_step.
Qed.

(** A task played to its end is the function of the handler. *)
Lemma alone_task_of (r : request) (w : World) :
  alone (task_of r) w
  = match r with
    | CreateCampaign n d => (create_campaign n d w).2
    | UploadCompanies c f => (upload_companies c f w).2
    | UpsertTemplates p => (upsert_templates p w).2
    | SearchProspects c q => (search_and_create_prospects c q w).2
    | StartAutomation c => (process_automation c w).2
    end.
Proof.
  destruct r; cbn [task_of alone].
  - by rewrite run_create_campaign.
  - by rewrite run_upload_companies.
  - by rewrite run_upsert_templates.
  - by rewrite run_search.
  - by rewrite run_process_automation.
Qed.

Lemma serve_app (es es' : list event) (s : Service) :
  serve (es ++ es') s = serve es' (serve es s).
Proof. apply foldl_app. Qed.

(** A task alone in the pool, stepped to its end. *)
Lemma serve_steps {A} (p : prog A) (w : World) :
  serve (repeat (Advance 0) (steps p w)) (mkService w [Task p]) = idle (run p w).2.
Proof.
  revert w. induction p as [a|e|X o k IH]; intros w; cbn [steps]; [done.. |].
  cbn [run]. unfold bind.
  destruct (exec o w) as [[x|e] w'] eqn:E.
  - cbn [repeat serve foldl react pool lookup list_lookup advance world].
    rewrite E. cbn [list_insert pool]. apply IH.
  - cbn [repeat serve foldl react pool lookup list_lookup advance world].
    by rewrite E.
Qed.

(** Serving the requests one at a time is one of the interleavings. *)
Lemma serve_one_by_one (rs : list request) (w : World) :
  serve (one_by_one rs w) (idle w) = idle (in_turn rs w).
Proof.
  revert w. induction rs as [|r rs IH]; intros w; [done |].
  cbn [one_by_one in_turn foldl]. change (Arrive r :: ?l) with ([Arrive r] ++ l).
  rewrite !serve_app. cbn [serve foldl react idle pool world app].
  destruct (task_of r) as [A p]. cbn [alone].
  change (foldl (λ s e, react e s) ?s ?l) with (serve l s).
  rewrite serve_steps. apply IH.
Qed.

(** *** The calls of a task *)

Lemma all_ops_then {A B} (P : ∀ X, op X → Prop) (p : prog A) (k : A → prog B) :
  all_ops P p → (∀ a, all_ops P (k a)) → all_ops P (then_ p k).
Proof.
  intros Hp Hk. induction p as [a|e|X o k' IH]; cbn [then_ all_ops] in *;
    [apply Hk | done |].
  destruct Hp as [Ho Hk']. split; [exact Ho |]. intros x. by apply IH.
Qed.

Lemma all_ops_call {X} (P : ∀ X, op X → Prop) (o : op X) : P X o → all_ops P (call o).
Proof. intros Ho. by split. Qed.

Lemma all_ops_fold {A S} (P : ∀ X, op X → Prop) (body : S → A → prog S)
    (l : list A) (s : S) :
  (∀ s x, all_ops P (body s x)) → all_ops P (fold_task body s l).
Proof.
  intros Hbody. revert s. induction l as [|x l IH]; intros s; cbn [fold_task];
    [done |].
  apply all_ops_then; [apply Hbody | intros; apply IH].
Qed.

Lemma all_ops_impl {A} (P Q : ∀ X, op X → Prop) (p : prog A) :
  (∀ X (o : op X), P X o → Q X o) → all_ops P p → all_ops Q p.
Proof.
  intros HPQ. induction p as [a|e|X o k IH]; cbn [all_ops]; [done.. |].
  intros [Ho Hk]. split; [by apply HPQ |]. intros x. by apply IH.
Qed.

Lemma fits_mono (names names' : list string) {X} (o : op X) :
  names ⊆ names' → fits names o → fits names' o.
Proof.
  intros Hsub. destruct o; cbn [fits]; try done.
  - intros (Hin & Hrest). split; [by apply Hsub | exact Hrest].
  - intros (Hn & Hin & Hrest). split; [done |]. split; [by apply Hsub | exact Hrest].
  - intros (Hn & Hin & Hrest). split; [done |]. split; [by apply Hsub | exact Hrest].
Qed.

(** The head of a sequence of calls. *)
Ltac fits_head names :=
  first
    [ exact I
    | apply all_ops_call; exact I
    | solve [ apply (all_ops_call (@fits names)); cbn [fits];
              split; [set_solver |]; split; [discriminate |]; intros [=] ] ].

Ltac fits_seq names :=
  repeat (apply all_ops_then; [fits_head names | intros ?]); try fits_head names.

Lemma fits_render_stored (names : list string) (tmpl : value) (data : Doc) :
  all_ops (@fits names) (render_stored_task tmpl data).
Proof. by destruct tmpl. Qed.

Lemma fits_send_update (names : list string) (id : ObjectId) (s : string)
    (t2 t3 : datetime) :
  "prospect" ∈ names → s = "requested" ∨ s = "followed_up" →
  all_ops (@fits names)
    (call (UpdateOne "prospect" [("_id", Eq (VOid id))] (sent_fields s t2 t3))).
Proof.
  intros Hin Hs. apply (all_ops_call (@fits names)). cbn [fits].
  split; [done |]. split; [done |]. by exists id, s, t2, t3.
Qed.

Lemma fits_create_campaign (name : string) (description : option string) :
  all_ops (@fits ["campaign"]) (create_campaign_task name description).
Proof. unfold create_campaign_task. fits_seq ["campaign"]. Qed.

Lemma fits_upload_companies (cid : string) (file : UploadFile) :
  all_ops (@fits ["company"]) (upload_companies_task cid file).
Proof.
  unfold upload_companies_task. destruct (negb _); [done |].
  apply all_ops_then; [| intros; by destruct (csv_error file)].
  apply all_ops_fold. intros count row. unfold upload_row_task.
  destruct (falsy_text _); fits_seq ["company"].
Qed.

Lemma fits_upsert_templates (p : TemplateSet) :
  all_ops (@fits ["template"]) (upsert_templates_task p).
Proof.
  unfold upsert_templates_task. fits_seq ["template"].
  apply all_ops_then; [| intros; fits_seq ["template"]].
  apply (all_ops_call (@fits ["template"])). cbn [fits].
  split; [done |]. split; [set_solver |]. by eexists _, _, _, _, _.
Qed.

Lemma fits_search (cid q : string) :
  all_ops (@fits ["prospect"]) (search_and_create_prospects_task cid q).
Proof.
  unfold search_and_create_prospects_task.
  apply all_ops_then; [fits_head ["prospect"] |].
  intros [|c cs]; [done |].
  apply all_ops_fold. intros created c'. unfold create_for_company_task.
  apply all_ops_fold. intros created' i. unfold create_prospect_task.
  unfold choice_task. fits_seq ["prospect"].
  apply all_ops_then; [| intros; done].
  apply (all_ops_call (@fits ["prospect"])). cbn [fits].
  split; [set_solver |]. split; [discriminate |]. intros _.
  rewrite dict_unfold. cbn [apply_set foldl fst snd].
  rewrite !lookup_insert_ne by done. by rewrite lookup_insert_eq.
Qed.

Lemma fits_connection_step (cid : string) (tmpl : value) (p : Stored) :
  all_ops (@fits ["messagelog"; "prospect"]) (connection_step_task cid tmpl p).
Proof.
  unfold connection_step_task, randint_task.
  apply all_ops_then; [fits_head ["messagelog"; "prospect"] | intros t0].
  apply all_ops_then; [fits_seq ["messagelog"; "prospect"] | intros k].
  apply all_ops_then; [apply fits_render_stored | intros content].
  fits_seq ["messagelog"; "prospect"].
  apply (fits_send_update _ _ "requested"); [set_solver | by left].
Qed.

Lemma fits_followup_step (cid : string) (tmpl : value) (u : unit) (p : Stored) :
  all_ops (@fits ["messagelog"; "prospect"]) (followup_step_task cid tmpl u p).
Proof.
  unfold followup_step_task, randint_task.
  apply all_ops_then; [fits_head ["messagelog"; "prospect"] | intros t0].
  apply all_ops_then; [fits_seq ["messagelog"; "prospect"] | intros k].
  apply all_ops_then; [apply fits_render_stored | intros content].
  fits_seq ["messagelog"; "prospect"].
  apply (fits_send_update _ _ "followed_up"); [set_solver | by right].
Qed.

Lemma fits_connection_loop (cid : string) (tmpl : value) (L : Z)
    (cursor : list Stored) (processed : Z) :
  all_ops (@fits ["messagelog"; "prospect"])
    (connection_loop_task cid tmpl L cursor processed).
Proof.
  revert processed. induction cursor as [|p rest IH]; intros processed;
    cbn [connection_loop_task]; [done |].
  destruct (processed >=? L); [done |].
  apply all_ops_then; [apply fits_connection_step | intros; apply IH].
Qed.

Lemma fits_process_automation (cid : string) :
  all_ops (@fits ["messagelog"; "prospect"]) (process_automation_task cid).
Proof.
  unfold process_automation_task, randint_task.
  apply all_ops_then; [fits_head ["messagelog"; "prospect"] | intros template].
  apply all_ops_then; [fits_seq ["messagelog"; "prospect"] | intros L].
  apply all_ops_then.
  - unfold connection_phase_task.
    apply all_ops_then; [fits_head ["messagelog"; "prospect"] |].
    intros cursor. apply fits_connection_loop.
  - intros _. unfold followup_phase_task.
    apply all_ops_then; [fits_head ["messagelog"; "prospect"] | intros t].
    apply all_ops_then; [fits_head ["messagelog"; "prospect"] | intros cursor].
    apply all_ops_fold. intros u p. apply fits_followup_step.
Qed.

(** Every call of the task of a request is one of the calls of the
    service, on the collections of the request. *)
Lemma task_fits (r : request) : task_ops (@fits (written r)) (task_of r).
Proof.
  destruct r; cbn [task_of task_ops written].
  - apply fits_create_campaign.
  - apply fits_upload_companies.
  - apply fits_upsert_templates.
  - apply fits_search.
  - apply fits_process_automation.
Qed.

Lemma written_collections (r : request) : written r ⊆ collections.
Proof.
  destruct r; cbn [written]; intros x Hx; unfold collections;
    repeat (apply elem_of_cons in Hx as [->|Hx]);
    try (by apply elem_of_nil in Hx);
    repeat first [apply list_elem_of_here | apply list_elem_of_further].
Qed.

End Tasks.

(** *** Invariants of the interleavings *)

Section Schedules.
Context `{DatetimeText}.
Variable Q : relation World.
Hypothesis Q_refl : ∀ w, Q w w.
Hypothesis Q_trans : ∀ w1 w2 w3, Q w1 w2 → Q w2 w3 → Q w1 w3.
Variable P : ∀ X, op X → Prop.
Hypothesis P_step : ∀ X (o : op X) w, P X o → Q w (exec o w).2.

Lemma advance_along (t : task) (w : World) :
  task_ops P t →
  Q w (advance t w).2 ∧ from_option (task_ops P) True (advance t w).1.
Proof.
  destruct t as [A [a|e|X o k]]; cbn [task_ops all_ops advance]; [by split.. |].
  intros [Ho Hk]. specialize (P_step X o w Ho).
  destruct (exec o w) as [[x|e] w']; cbn [fst snd from_option] in *; split; try done.
  apply Hk.
Qed.

Lemma react_along (e : event) (s : Service) :
  (∀ r, e = Arrive r → task_ops P (task_of r)) →
  Forall (task_ops P) (pool s) →
  Q (world s) (world (react e s)) ∧ Forall (task_ops P) (pool (react e s)).
Proof.
  intros He Hpool. destruct e as [r|i]; cbn [react].
  - cbn [world pool]. split; [apply Q_refl |].
    apply Forall_app. split; [exact Hpool |]. constructor; [by apply He | constructor].
  - destruct (pool s !! i) as [t|] eqn:Ht; [| by split].
    assert (Hok : task_ops P t) by (by eapply Forall_lookup_1).
    destruct (advance_along t (world s) Hok) as [HQ Ht'].
    destruct (advance t (world s)) as [[t'|] w']; cbn [world pool fst snd] in *.
    + split; [exact HQ |]. by apply Forall_insert.
    + split; [exact HQ |]. by apply Forall_delete.
Qed.

(** Whatever the interleaving, when every call of every task moves the
    world along [Q], so does the service. *)
Lemma serve_along (es : list event) (s : Service) :
  (∀ r, Arrive r ∈ es → task_ops P (task_of r)) →
  Forall (task_ops P) (pool s) →
  Q (world s) (world (serve es s)).
Proof.
  revert s. induction es as [|e es IH]; intros s Hes Hpool; [apply Q_refl |].
  cbn [serve foldl].
  destruct (react_along e s) as [HQ Hpool']; [| exact Hpool |].
  { intros r ->. apply Hes, list_elem_of_here. }
  eapply Q_trans; [exact HQ |]. apply IH; [| exact Hpool'].
  intros r Hr. apply Hes. by apply list_elem_of_further.
Qed.

End Schedules.

(** ** Statuses written *)

Section Statuses.
Context `{DatetimeText}.

Lemma writes_allowed_refl (w : World) : writes_allowed w w.
Proof. intros sd Hsd. by left. Qed.

Lemma writes_allowed_trans (w1 w2 w3 : World) :
  writes_allowed w1 w2 → writes_allowed w2 w3 → writes_allowed w1 w3.
Proof.
  intros H12 H23 sd Hsd. destruct (H23 sd Hsd) as [Hsd2|Hok]; [| by right].
  by apply H12.
Qed.

Lemma writes_allowed_same (w w' : World) :
  coll "prospect" w' = coll "prospect" w → writes_allowed w w'.
Proof. intros E sd Hsd. left. by rewrite <- E. Qed.

Lemma keeps_ret {A} (a : A) : keeps (ret a).
Proof. intros w. apply writes_allowed_refl. Qed.

Lemma keeps_raise {A} (e : exn) : keeps (raise (A := A) e).
Proof. intros w. apply writes_allowed_refl. Qed.

Lemma keeps_bind {A B} (m : M A) (k : A → M B) :
  keeps m → (∀ a, keeps (k a)) → keeps (bind m k).
Proof.
  intros Hm Hk w. unfold bind. specialize (Hm w).
  destruct (m w) as [[a|e] w1]; [| exact Hm].
  eapply writes_allowed_trans; [exact Hm | apply Hk].
Qed.

Lemma keeps_now : keeps now.
Proof. intros w. by apply writes_allowed_same. Qed.

Lemma keeps_randint (lo hi : Z) : keeps (randint lo hi).
Proof. intros w. by apply writes_allowed_same. Qed.

Lemma keeps_choice {A} (x : A) (xs : list A) : keeps (choice x xs).
Proof. intros w. by apply writes_allowed_same. Qed.

Lemma keeps_find (name : string) (q : Query) : keeps (find name q).
Proof. intros w. by apply writes_allowed_same. Qed.

Lemma keeps_find_limit (name : string) (q : Query) (n : Z) : keeps (find_limit name q n).
Proof. intros w. by apply writes_allowed_same. Qed.

Lemma keeps_find_one (name : string) (q : Query) : keeps (find_one name q).
Proof. intros w. by apply writes_allowed_same. Qed.

Lemma keeps_render_stored (tmpl : value) (data : Doc) : keeps (render_stored tmpl data).
Proof. destruct tmpl; first [apply keeps_ret | apply keeps_raise]. Qed.

Lemma keeps_insert_other (name : string) (fields : Doc) :
  name ≠ "prospect" → keeps (insert_one name fields).
Proof.
  intros Hname w. apply writes_allowed_same.
  by rewrite coll_insert_one, decide_False.
Qed.

Lemma keeps_insert_prospect (fields : Doc) (s : string) :
  fields !! "status" = Some (VStr s) → In s written_statuses →
  keeps (insert_one "prospect" fields).
Proof.
  intros Hs Hin w sd. rewrite coll_insert_one, decide_True by done.
  intros [Hsd| ->%list_elem_of_singleton]%elem_of_app; [by left | right].
  exists s. split; [| exact Hin]. cbn [snd]. by rewrite lookup_fmap, Hs.
Qed.

Lemma keeps_upsert_other (name : string) (q : Query)
    (fields on_insert : list (string * value)) :
  name ≠ "prospect" → keeps (upsert_one name q fields on_insert).
Proof.
  intros Hname w. apply writes_allowed_same. unfold upsert_one.
  destruct (update_first q (bson_fields fields) (coll name w)); cbn [snd].
  - by rewrite coll_set_coll, decide_False.
  - by rewrite coll_insert_one, decide_False.
Qed.

Lemma update_first_elem (q : Query) (fields : list (string * value))
    (c c' : Collection) (sd : Stored) :
  update_first q fields c = Some c' → sd ∈ c' →
  sd ∈ c ∨ ∃ sd0, sd = (sd0.1, apply_set fields sd0.2).
Proof.
  revert c'. induction c as [|x c IH]; intros c' Hu Hsd; [done |].
  cbn [update_first] in Hu. destruct (selects q x).
  - injection Hu as <-. apply elem_of_cons in Hsd as [->|Hsd].
    + right. by exists x.
    + left. by apply list_elem_of_further.
  - destruct (update_first q fields c) as [c0|]; [| done].
    injection Hu as <-. apply elem_of_cons in Hsd as [->|Hsd].
    + left. apply list_elem_of_here.
    + destruct (IH c0 eq_refl Hsd) as [Hin|Hnew]; [| by right].
      left. by apply list_elem_of_further.
Qed.

Lemma keeps_update_prospect (q : Query) (fields : list (string * value)) (s : string) :
  (∀ d, apply_set (bson_fields fields) d !! "status" = Some (VStr s)) →
  In s written_statuses →
  keeps (update_one "prospect" q fields).
Proof.
  intros Hs Hin w sd. unfold update_one.
  destruct (update_first q (bson_fields fields) (coll "prospect" w)) as [c|] eqn:Hu;
    cbn [snd];
    [| by left].
  rewrite coll_set_coll, decide_True by done. intros Hsd.
  destruct (update_first_elem _ _ _ _ _ Hu Hsd) as [Hold|[sd0 ->]]; [by left | right].
  exists s. split; [apply Hs | exact Hin].
Qed.

Lemma keeps_foldM {A S} (body : S → A → M S) (l : list A) (s : S) :
  (∀ s x, keeps (body s x)) → keeps (foldM body s l).
Proof.
  intros Hbody. revert s. induction l as [|x l IH]; intros s; cbn [foldM].
  - apply keeps_ret.
  - apply keeps_bind; [apply Hbody | exact IH].
Qed.

(** Apply the rule for the command at the head of a sequence. *)
Ltac keeps_head :=
  first
    [ apply keeps_ret | apply keeps_raise | apply keeps_now | apply keeps_randint
    | apply keeps_choice | apply keeps_find | apply keeps_find_limit
    | apply keeps_find_one | apply keeps_render_stored
    | apply keeps_insert_other; discriminate
    | apply keeps_upsert_other; discriminate ].

Ltac keeps_seq := repeat (apply keeps_bind; [keeps_head | intros ?]); try keeps_head.

Lemma keeps_create_campaign (name : string) (description : option string) :
  keeps (create_campaign name description).
Proof. unfold create_campaign. keeps_seq. Qed.

Lemma keeps_upload_companies (cid : string) (file : UploadFile) :
  keeps (upload_companies cid file).
Proof.
  unfold upload_companies. destruct (negb _); [apply keeps_raise |].
  apply keeps_bind; [| intros count; destruct (csv_error file); keeps_head].
  apply keeps_foldM. intros count row. unfold upload_row.
  destruct (falsy_text _); keeps_seq.
Qed.

Lemma keeps_upsert_templates (payload : TemplateSet) : keeps (upsert_templates payload).
Proof. unfold upsert_templates. keeps_seq. Qed.

Lemma keeps_search (cid q : string) : keeps (search_and_create_prospects cid q).
Proof.
  unfold search_and_create_prospects. apply keeps_bind; [keeps_head |].
  intros [|c cs]; [apply keeps_raise |].
  apply keeps_foldM. intros created c'. unfold create_for_company.
  apply keeps_foldM. intros created' i. unfold create_prospect. keeps_seq.
  apply keeps_bind; [| intros ?; apply keeps_ret].
  apply (keeps_insert_prospect _ "pending"); [| by left].
  rewrite dict_unfold. cbn [apply_set foldl fst snd].
  rewrite !lookup_insert_ne by done. by rewrite lookup_insert_eq.
Qed.

Lemma keeps_send_update (status : string) (p : Stored) (t2 t3 : datetime) :
  In status written_statuses →
  keeps (update_one "prospect" [("_id", Eq (VOid p.1))]
           [("status", VStr status); ("last_action_at", VDate t2);
            ("updated_at", VDate t3)]).
Proof.
  intros Hin. apply (keeps_update_prospect _ _ status); [| exact Hin].
  intros d. cbn [apply_set foldl fst snd bson_fields map to_bson].
  rewrite !lookup_insert_ne by done. by rewrite lookup_insert_eq.
Qed.

Lemma keeps_connection_step (cid : string) (tmpl : value) (p : Stored) :
  keeps (connection_step cid tmpl p).
Proof.
  unfold connection_step. keeps_seq.
  apply keeps_send_update. right. by left.
Qed.

Lemma keeps_followup_step (cid : string) (tmpl : value) (u : unit) (p : Stored) :
  keeps (followup_step cid tmpl u p).
Proof.
  unfold followup_step. keeps_seq.
  apply keeps_send_update. right. right. by left.
Qed.

Lemma keeps_connection_loop (cid : string) (tmpl : value) (L : Z)
    (cursor : list Stored) (processed : Z) :
  keeps (connection_loop cid tmpl L cursor processed).
Proof.
  revert processed. induction cursor as [|p rest IH]; intros processed;
    cbn [connection_loop]; [apply keeps_ret |].
  destruct (processed >=? L); [apply keeps_ret |].
  apply keeps_bind; [apply keeps_connection_step | intros _; apply IH].
Qed.

Lemma keeps_process_automation (cid : string) : keeps (process_automation cid).
Proof.
  unfold process_automation. keeps_seq.
  apply keeps_bind.
  - unfold connection_phase. apply keeps_bind; [keeps_head |].
    intros cursor. apply keeps_connection_loop.
  - intros _. unfold followup_phase. keeps_seq.
    apply keeps_foldM. intros u p. apply keeps_followup_step.
Qed.

Lemma keeps_draw : keeps draw.
Proof. intros w. by apply writes_allowed_same. Qed.

(** Each call of the service writes only such prospects. *)
Lemma exec_keeps {X} (o : op X) : fits collections o → keeps (exec o).
Proof.
  destruct o; cbn [fits exec].
  - intros _. apply keeps_now.
  - intros _. apply keeps_draw.
  - intros _. apply keeps_find.
  - intros _. apply keeps_find_limit.
  - intros _. apply keeps_find_one.
  - intros (_ & _ & Hp). destruct (decide (name = "prospect")) as [->|Hne].
    + apply (keeps_insert_prospect _ "pending"); [by apply Hp | by left].
    + by apply keeps_insert_other.
  - intros (-> & _ & id & s & t2 & t3 & -> & -> & Hs).
    apply (keeps_update_prospect _ _ s).
    + intros d. cbn [apply_set foldl fst snd bson_fields map to_bson sent_fields].
      rewrite !lookup_insert_ne by done. by rewrite lookup_insert_eq.
    + destruct Hs as [-> | ->]; [right; by left | right; right; by left].
  - intros (-> & _). by apply keeps_upsert_other.
Qed.

Lemma task_fits_collections (r : request) :
  task_ops (@fits collections) (task_of r).
Proof.
  pose proof (task_fits r) as Hr. destruct (task_of r) as [A p].
  cbn [task_ops] in *. eapply all_ops_impl; [| exact Hr].
  intros X o. apply fits_mono, written_collections.
Qed.

Lemma serve_writes_allowed (es : list event) (w : World) :
  writes_allowed w (world (serve es (idle w))).
Proof.
  refine (serve_along writes_allowed writes_allowed_refl writes_allowed_trans
            (@fits collections) _ es (idle w) _ _).
  - intros X o w' Ho. by apply exec_keeps.
  - intros r _. apply task_fits_collections.
  - constructor.
Qed.

(** C8.  Whatever requests arrive and however the steps of their
    handlers and of the engine runs interleave, every prospect document
    in the database afterwards either was there before, unchanged, or
    has status [pending], [requested] or [followed_up]; so a prospect
    with status [accepted], [replied] or [stopped] can only be one that
    was there from the start.  Starting from a database without
    prospects, every prospect has one of the three statuses. *)
Theorem statuses_written (es : list event) (w : World) :
  let w' := world (serve es (idle w)) in
  writes_allowed w w'
  ∧ (∀ sd s, sd ∈ coll "prospect" w' →
             sd.2 !! "status" = Some (VStr s) →
             In s ["accepted"; "replied"; "stopped"] →
             sd ∈ coll "prospect" w)
  ∧ (coll "prospect" w = [] → Forall allowed_status (coll "prospect" w')).
Proof.
  intros w'.
  assert (Hserve : writes_allowed w w').
  { refine (serve_along writes_allowed writes_allowed_refl writes_allowed_trans
              (@fits collections) _ es (idle w) _ _).
    - intros X o w0 Ho. by apply exec_keeps.
    - intros r _. apply task_fits_collections.
    - constructor. }
  split; [exact Hserve |]. split.
  - intros sd s Hsd Hs Hbad. destruct (Hserve sd Hsd) as [Hold|(s' & Hs' & Hok)];
      [exact Hold |].
    rewrite Hs in Hs'. injection Hs' as <-. exfalso.
    cbn [In written_statuses] in Hbad, Hok.
    destruct Hbad as [<-|[<-|[<-|[]]]]; destruct Hok as [|[|[|[]]]]; discriminate.
  - intros Hempty. apply Forall_forall. intros sd Hsd.
    destruct (Hserve sd Hsd) as [Hold|Hok]; [| exact Hok].
    rewrite Hempty in Hold. by apply elem_of_nil in Hold.
Qed.

End Statuses.

(** ** The definitions at work *)

Example strip_both_ends : strip "  Acme Corp	 " = "Acme Corp".
Proof. vm_compute. reflexivity. Qed.

(** A letter whose encoding ends in the byte 160 is kept; a no-break
    space and an em space are removed. *)
Example strip_keeps_letters : strip " Società" = "Società".
Proof. vm_compute. reflexivity. Qed.

Example strip_wide_spaces : strip " Acme " = "Acme".
Proof. vm_compute. reflexivity. Qed.

Example render_spec_four :
  render_template_spec (H := decimal_text)
    "Hi {{First Name}} at {{Company Name}}, {{Job Title}} - {{Personalized Line}}" ann
  = "Hi Ann at Acme, CEO - Loved your post".
Proof. vm_compute. reflexivity. Qed.

Example render_missing_first_name :
  render_template (H := decimal_text) "Hi {{First Name}}{{Unknown}}!"
    (dict [("first_name", VNone)])
  = "Hi {{Unknown}}!".
Proof. vm_compute. reflexivity. Qed.

Example upload_three_rows :
  let file := {| content_type := Some "text/csv";
                 csv_rows := [ {["Company Name" := " Acme "]};
                               {["Company Name" := ""; "linkedin_url" := "x"]} ;
                               {["company_name" := "Bolt"; "linkedin_url" := " u "]} ];
                 csv_error := false |} in
  let r := upload_companies "c1" file frozen in
  r.1 = Done 2
  ∧ (λ sd : Stored, (sd.2 !! "company_name", sd.2 !! "linkedin_url")) <$> coll "company" r.2
    = [(Some (VStr "Acme"), Some (VStr "")); (Some (VStr "Bolt"), Some (VStr "u"))].
Proof. vm_compute. split; reflexivity. Qed.

Example upload_wrong_type :
  upload_companies "c1"
    {| content_type := Some "application/pdf"; csv_rows := []; csv_error := false |}
    frozen
  = (Raised (HTTPException 400 "Please upload a CSV file"), frozen).
Proof. reflexivity. Qed.

(** The row read before the reader fails stays inserted. *)
Example upload_cut_short :
  let r := upload_companies "c1" cut_short frozen in
  r.1 = Raised CsvError
  ∧ (λ sd : Stored, sd.2 !! "company_name") <$> coll "company" r.2
    = [Some (VStr "Acme")].
Proof. vm_compute. split; reflexivity. Qed.

Example search_two_per_company :
  let w := (upload_companies "c1"
              {| content_type := Some "text/csv";
                 csv_rows := [ {["Company Name" := "Acme"]} ];
                 csv_error := false |} frozen).2 in
  let r := search_and_create_prospects "c1" "CTO" w in
  r.1 = Done 2
  ∧ (λ sd : Stored, (sd.2 !! "first_name", sd.2 !! "last_name", sd.2 !! "status"))
    <$> coll "prospect" r.2
    = [(Some (VStr "Alex"), Some (VStr "Lee"), Some (VStr "pending"));
       (Some (VStr "Riley"), Some (VStr "Smith"), Some (VStr "pending"))].
Proof. vm_compute. split; reflexivity. Qed.

Example serialize_heap :
  let doc : Doc := dict [("_id", VOid (mkOid "0a")); ("created_at", VDate 5);
                         ("name", VStr "x")] in
  let h : Heap := {[ 1%positive := doc ]} in
  let r := serialize (H := decimal_text) (Some 1%positive) h in
  r.1 = Some 2%positive
  ∧ r.2 !! 1%positive = Some doc
  ∧ r.2 !! 2%positive
    = Some (dict [("id", VStr "0a"); ("created_at", VStr "5"); ("name", VStr "x")]).
Proof. vm_compute. repeat split; reflexivity. Qed.

(** * The reading handlers and the service as a whole *)

(** ** The order of sorted listings *)

Section Order.

Lemma ascii_compare_N (a b : ascii) :
  Ascii.compare a b = N.compare (N_of_ascii a) (N_of_ascii b).
Proof. reflexivity. Qed.

Lemma string_compare_trans_le (a b c : string) :
  String.compare a b ≠ Gt → String.compare b c ≠ Gt → String.compare a c ≠ Gt.
Proof.
  revert b c. induction a as [|x a IH]; intros [|y b] [|z c]; cbn [String.compare];
    try done.
  rewrite !ascii_compare_N.
  destruct (N.compare_spec (N_of_ascii x) (N_of_ascii y)) as [Exy|Lxy|Gxy];
    destruct (N.compare_spec (N_of_ascii y) (N_of_ascii z)) as [Eyz|Lyz|Gyz];
    try done; intros Hab Hbc;
    destruct (N.compare_spec (N_of_ascii x) (N_of_ascii z)) as [Exz|Lxz|Gxz];
    try done; try lia.
  by eapply IH.
Qed.

Lemma string_leb_trans (a b c : string) :
  String.leb a b = true → String.leb b c = true → String.leb a c = true.
Proof.
  unfold String.leb. intros Hab Hbc.
  pose proof (string_compare_trans_le a b c) as Ht.
  destruct (String.compare a b); destruct (String.compare b c);
    destruct (String.compare a c); try done; exfalso; by apply Ht.
Qed.

Lemma bson_leb_total (a b : option value) : bson_leb a b = true ∨ bson_leb b a = true.
Proof.
  destruct a as [[| x | x | x]|], b as [[| y | y | y]|]; cbn [bson_leb type_rank];
    try (by left); try (by right).
  - apply String.leb_total.
  - destruct (Z.leb_spec x y); [by left | right]. apply Z.leb_le. lia.
  - apply String.leb_total.
Qed.

Lemma bson_leb_trans (a b c : option value) :
  bson_leb a b = true → bson_leb b c = true → bson_leb a c = true.
Proof.
  destruct a as [[| x | x | x]|], b as [[| y | y | y]|], c as [[| z | z | z]|];
    cbn [bson_leb type_rank]; try done.
  - apply string_leb_trans.
  - rewrite !Z.leb_le. lia.
  - apply string_leb_trans.
Qed.

#[global] Instance sort_rel_total (field : string) (direction : Z) :
  Total (sort_rel field direction).
Proof.
  intros x y. unfold sort_rel, sort_leb. destruct (0 <=? direction).
  - destruct (bson_leb_total (as_dict x !! field) (as_dict y !! field)) as [E|E];
      rewrite E; [by left | by right].
  - destruct (bson_leb_total (as_dict y !! field) (as_dict x !! field)) as [E|E];
      rewrite E; [by left | by right].
Qed.

#[global] Instance sort_rel_trans (field : string) (direction : Z) :
  Transitive (sort_rel field direction).
Proof.
  intros x y z. unfold sort_rel, sort_leb. destruct (0 <=? direction);
    rewrite !Is_true_true; intros Hxy Hyz; eapply bson_leb_trans; eassumption.
Qed.

End Order.

(** ** Listings *)

Section Listings.
Context `{DatetimeText}.

Lemma find_sort_run (name : string) (q : Query) (field : string) (direction : Z)
    (w : World) :
  ∃ docs, find_sort name q field direction w = (Done docs, w)
          ∧ docs ≡ₚ List.filter (selects q) (coll name w)
          ∧ StronglySorted (sort_rel field direction) docs.
Proof.
  eexists. split; [reflexivity |]. split.
  - apply merge_sort_Permutation.
  - apply (StronglySorted_merge_sort _).
Qed.

Lemma filter_all (c : Collection) : List.filter (selects []) c = c.
Proof. induction c as [|x c IH]; [done |]. cbn. by rewrite IH. Qed.

Lemma list_campaigns_run (w : World) :
  ∃ docs, list_campaigns w = (Done (serialize_all docs), w)
          ∧ docs ≡ₚ coll "campaign" w
          ∧ StronglySorted (sort_rel "created_at" (-1)) docs.
Proof.
  destruct (find_sort_run "campaign" [] "created_at" (-1) w) as (docs & E & Hp & Hs).
  exists docs. rewrite filter_all in Hp. split; [| done].
  unfold list_campaigns. by rewrite (bind_done _ _ _ _ _ E).
Qed.

(** X1.  The four listings only read.  Each returns the serialized documents
    of its result set, all of them and each once, in the order of its
    sort key: campaigns and a campaign's prospects by [created_at]
    descending, a campaign's companies by [company_name] ascending, the
    replied prospects of all campaigns by [updated_at] descending. *)
Theorem listings_spec (cid : string) (w : World) :
  (∃ docs, list_campaigns w = (Done (serialize_all docs), w)
           ∧ docs ≡ₚ coll "campaign" w
           ∧ StronglySorted (sort_rel "created_at" (-1)) docs)
  ∧ (∃ docs, list_companies cid w = (Done (serialize_all docs), w)
             ∧ docs ≡ₚ List.filter (selects [("campaign_id", Eq (VStr cid))])
                         (coll "company" w)
             ∧ StronglySorted (sort_rel "company_name" 1) docs)
  ∧ (∃ docs, list_prospects cid w = (Done (serialize_all docs), w)
             ∧ docs ≡ₚ List.filter (selects [("campaign_id", Eq (VStr cid))])
                         (coll "prospect" w)
             ∧ StronglySorted (sort_rel "created_at" (-1)) docs)
  ∧ (∃ docs, inbox w = (Done (serialize_all docs), w)
             ∧ docs ≡ₚ List.filter (selects [("status", Eq (VStr "replied"))])
                         (coll "prospect" w)
             ∧ StronglySorted (sort_rel "updated_at" (-1)) docs).
Proof.
  split; [| split; [| split]].
  - apply list_campaigns_run.
  - destruct (find_sort_run "company" [("campaign_id", Eq (VStr cid))]
                "company_name" 1 w) as (docs & E & Hp & Hs).
    exists docs. split; [| done].
    unfold list_companies. by rewrite (bind_done _ _ _ _ _ E).
  - destruct (find_sort_run "prospect" [("campaign_id", Eq (VStr cid))]
                "created_at" (-1) w) as (docs & E & Hp & Hs).
    exists docs. split; [| done].
    unfold list_prospects. by rewrite (bind_done _ _ _ _ _ E).
  - destruct (find_sort_run "prospect" [("status", Eq (VStr "replied"))]
                "updated_at" (-1) w) as (docs & E & Hp & Hs).
    exists docs. split; [| done].
    unfold inbox. by rewrite (bind_done _ _ _ _ _ E).
Qed.



Lemma serialize_stored (sd : Stored) (k : string) :
  serialize_doc (as_dict sd) !! "id" = Some (VStr (oid_hex sd.1))
  ∧ (k ≠ "id" → k ≠ "_id" → serialize_doc (as_dict sd) !! k = json_value <$> sd.2 !! k).
Proof.
  assert (Hid : as_dict sd !! "_id" = Some (VOid sd.1))
    by (unfold as_dict; by rewrite lookup_insert_eq).
  destruct (serialize_doc_renamed (as_dict sd) (VOid sd.1) k Hid) as (H1 & _ & H3).
  split; [exact H1 |]. intros Hk1 Hk2. rewrite (H3 Hk1 Hk2).
  unfold as_dict. by rewrite lookup_insert_ne.
Qed.




End Listings.



(** ** Reading the templates back *)

Section Templates.
Context `{DatetimeText}.

Lemma as_dict_nonempty (sd : Stored) : as_dict sd ≠ ∅.
Proof.
  intros E. assert (Hid : as_dict sd !! "_id" = Some (VOid sd.1))
    by (unfold as_dict; by rewrite lookup_insert_eq).
  by rewrite E, lookup_empty in Hid.
Qed.

Lemma get_templates_run (cid : string) (w : World) :
  get_templates cid w
  = (Done (from_option (λ sd, serialize_doc (as_dict sd)) ∅
             (head (templates_of cid w))), w).
Proof.
  unfold get_templates, bind, find_one, ret, templates_of.
  destruct (head _) as [sd|]; cbn [fmap option_fmap option_map from_option]; [| done].
  by rewrite bool_decide_eq_false_2 by apply as_dict_nonempty.
Qed.

(** X4.  [get_templates] only reads.  It returns the empty object exactly
    when the campaign has no Template document; otherwise it returns the
    serialized first Template document of the campaign. *)
Theorem get_templates_spec (cid : string) (w : World) :
  (get_templates cid w).2 = w
  ∧ ((get_templates cid w).1 = Done ∅ ↔ templates_of cid w = [])
  ∧ ∀ sd rest, templates_of cid w = sd :: rest →
               (get_templates cid w).1 = Done (serialize_doc (as_dict sd)).
Proof.
  rewrite get_templates_run. cbn [fst snd]. split; [done |]. split.
  - destruct (templates_of cid w) as [|sd rest]; cbn [head from_option]; [done |].
    split; [| done]. intros [= E]. exfalso.
    destruct (serialize_stored sd "id") as (Hid & _).
    by rewrite E, lookup_empty in Hid.
  - by intros sd rest ->.
Qed.

Lemma upsert_templates_steps (p : TemplateSet) (w : World) :
  let w3 := (upsert_one "template" [("campaign_id", Eq (VStr (campaign_id p)))]
               [("connection_template", VStr (connection_template p));
                ("followup_template", VStr (followup_template p));
                ("updated_at", VDate (clock w (ticks w)))]
               [("created_at", VDate (clock w (S (ticks w))))]
               (now (now w).2).2).2 in
  upsert_templates p w
  = (Done (serialize_doc <$> (as_dict <$> head (templates_of (campaign_id p) w3))),
     w3).
Proof.
  intros w3. unfold upsert_templates.
  rewrite (bind_done now _ w (now w).2 (clock w (ticks w))) by reflexivity.
  rewrite (bind_done now _ (now w).2 (now (now w).2).2 (clock w (S (ticks w))))
    by reflexivity.
  erewrite bind_done by apply upsert_one_done. reflexivity.
Qed.

Lemma upsert_templates_result (p : TemplateSet) (w : World) :
  upsert_templates p w
  = (Done (serialize_doc <$>
             (as_dict <$> head (templates_of (campaign_id p) (upsert_templates p w).2))),
     (upsert_templates p w).2).
Proof. by rewrite upsert_templates_steps. Qed.

(** The first Template document of the campaign after an upsert. *)
Lemma upsert_templates_head (p : TemplateSet) (w : World) :
  ∃ sd, head (templates_of (campaign_id p) (upsert_templates p w).2) = Some sd
        ∧ sd.2 !! "campaign_id" = Some (VStr (campaign_id p))
        ∧ sd.2 !! "connection_template" = Some (VStr (connection_template p))
        ∧ sd.2 !! "followup_template" = Some (VStr (followup_template p))
        ∧ sd.2 !! "updated_at" = Some (VDate (bson_date (clock w (ticks w)))).
Proof.
  destruct (upsert_templates_run p w) as (_ & _ & Hrun).
  destruct (templates_of (campaign_id p) w) as [|sd0 rest] eqn:Hw.
  - destruct Hrun as (id & ->). eexists. split; [reflexivity |].
    cbn [snd apply_set foldl fst].
    repeat split; rewrite ?lookup_insert_eq; try done;
      rewrite !lookup_insert_ne by done; by rewrite lookup_insert_eq.
  - rewrite Hrun. eexists. split; [reflexivity |].
    assert (Hsd0 : sd0.2 !! "campaign_id" = Some (VStr (campaign_id p))).
    { assert (Hin : In sd0 (templates_of (campaign_id p) w)) by (rewrite Hw; by left).
      apply filter_In in Hin as [_ Hsel].
      rewrite selects_campaign in Hsel. by apply bool_decide_eq_true in Hsel. }
    cbn [snd apply_set foldl fst].
    repeat split; rewrite ?lookup_insert_eq; try done;
      rewrite !lookup_insert_ne by done; try done; by rewrite lookup_insert_eq.
Qed.


Lemma update_first_filter_same (P : Stored → bool) (q : Query)
    (fields : list (string * value)) (c c' : Collection) :
  (∀ sd, selects q sd = true →
         P sd = false ∧ P (sd.1, apply_set fields sd.2) = false) →
  update_first q fields c = Some c' → List.filter P c' = List.filter P c.
Proof.
  intros HP. revert c'. induction c as [|sd c IH]; intros c' Hu; [done |].
  cbn [update_first] in Hu. destruct (selects q sd) eqn:Hsd.
  - injection Hu as <-. cbn [List.filter]. by destruct (HP sd Hsd) as [-> ->].
  - destruct (update_first q fields c) as [c0|]; [| done].
    injection Hu as <-. cbn [List.filter]. by rewrite (IH c0 eq_refl).
Qed.

Lemma upsert_other_templates (p : TemplateSet) (other : string) (w : World) :
  other ≠ campaign_id p →
  templates_of other (upsert_templates p w).2 = templates_of other w.
Proof.
  intros Hother. rewrite upsert_templates_steps. cbn [snd].
  unfold templates_of, upsert_one.
  change (coll "template" (now (now w).2).2) with (coll "template" w).
  destruct (update_first _ _ (coll "template" w)) as [c|] eqn:Hu; cbn [snd].
  - rewrite coll_set_coll, decide_True by done.
    eapply update_first_filter_same; [| exact Hu].
    intros sd Hsd. rewrite selects_campaign in Hsd.
    apply bool_decide_eq_true in Hsd. rewrite !selects_campaign.
    cbn [snd apply_set foldl fst bson_fields map]. rewrite !lookup_insert_ne by done.
    rewrite Hsd. split; apply bool_decide_eq_false_2; congruence.
  - rewrite coll_insert_one, decide_True by done.
    change (coll "template" (now (now w).2).2) with (coll "template" w).
    rewrite List.filter_app. cbn [List.filter].
    rewrite selects_campaign, !to_bson_apply_set, fmap_empty.
    cbn [snd apply_set foldl fst query_fields flat_map app bson_fields map to_bson].
    rewrite bool_decide_eq_false_2; [by rewrite app_nil_r |].
    rewrite !lookup_insert_ne by done. rewrite lookup_insert_eq. congruence.
Qed.

(** X6.  An upsert for one campaign leaves the Template documents of every
    other campaign, and so what [get_templates] returns for them, as
    they were. *)
Theorem upsert_other_campaign (p : TemplateSet) (other : string) (w : World) :
  other ≠ campaign_id p →
  templates_of other (upsert_templates p w).2 = templates_of other w
  ∧ (get_templates other (upsert_templates p w).2).1 = (get_templates other w).1.
Proof.
  intros Hother. pose proof (upsert_other_templates p other w Hother) as Ht.
  split; [exact Ht |]. by rewrite !get_templates_run, Ht.
Qed.

(** The number of Template documents of a campaign, over one upsert. *)
Lemma upsert_templates_length (p : TemplateSet) (cid : string) (w : World) :
  (length (templates_of cid w) ≤ length (templates_of cid (upsert_templates p w).2)
   ≤ Nat.max 1 (length (templates_of cid w)))%nat.
Proof.
  destruct (decide (cid = campaign_id p)) as [->|Hne].
  - destruct (upsert_templates_run p w) as (_ & _ & Hrun).
    destruct (templates_of (campaign_id p) w) as [|sd rest].
    + destruct Hrun as (id & ->). cbn [length]. lia.
    + rewrite Hrun. cbn [length]. lia.
  - rewrite upsert_other_templates by done. lia.
Qed.

End Templates.

Lemma upsert_other_campaign_witness :
  "c2" ≠ campaign_id hello
  ∧ templates_of "c2" (upsert_templates (H := decimal_text) hello frozen).2
    = templates_of "c2" frozen.
Proof.
  split; [done |].
  exact (proj1 (upsert_other_campaign (H := decimal_text) hello "c2" frozen
                  ltac:(done))).
Defined.

(** ** What the writing handlers leave alone *)

Section Evolution.
Context `{DatetimeText}.
Variable R : string → relation Collection.
Hypothesis R_refl : ∀ name c, R name c c.
Hypothesis R_trans : ∀ name c1 c2 c3, R name c1 c2 → R name c2 c3 → R name c1 c3.

Lemma evolves_refl (w : World) : evolves R w w.
Proof. intros name. apply R_refl. Qed.

Lemma evolves_trans (w1 w2 w3 : World) :
  evolves R w1 w2 → evolves R w2 w3 → evolves R w1 w3.
Proof. intros H12 H23 name. eapply R_trans; [apply H12 | apply H23]. Qed.

Lemma evolves_same (w w' : World) : db w' = db w → evolves R w w'.
Proof. intros E name. unfold coll. rewrite E. apply R_refl. Qed.

Lemma evolves_set_coll (name : string) (c : Collection) (w : World) :
  R name (coll name w) c → evolves R w (set_coll name c w).
Proof.
  intros HR other. rewrite coll_set_coll. case_decide; [by subst | apply R_refl].
Qed.

Lemma respects_ret {A} (a : A) : respects R (ret a).
Proof. intros w. apply evolves_refl. Qed.

Lemma respects_raise {A} (e : exn) : respects R (raise (A := A) e).
Proof. intros w. apply evolves_refl. Qed.

Lemma respects_bind {A B} (m : M A) (k : A → M B) :
  respects R m → (∀ a, respects R (k a)) → respects R (bind m k).
Proof.
  intros Hm Hk w. unfold bind. specialize (Hm w).
  destruct (m w) as [[a|e] w1]; [| exact Hm].
  eapply evolves_trans; [exact Hm | apply Hk].
Qed.

Lemma respects_now : respects R now.
Proof. intros w. by apply evolves_same. Qed.

Lemma respects_randint (lo hi : Z) : respects R (randint lo hi).
Proof. intros w. by apply evolves_same. Qed.

Lemma respects_choice {A} (x : A) (xs : list A) : respects R (choice x xs).
Proof. intros w. by apply evolves_same. Qed.

Lemma respects_find (name : string) (q : Query) : respects R (find name q).
Proof. intros w. by apply evolves_same. Qed.

Lemma respects_find_limit (name : string) (q : Query) (n : Z) :
  respects R (find_limit name q n).
Proof. intros w. by apply evolves_same. Qed.

Lemma respects_find_one (name : string) (q : Query) : respects R (find_one name q).
Proof. intros w. by apply evolves_same. Qed.

Lemma respects_render_stored (tmpl : value) (data : Doc) :
  respects R (render_stored tmpl data).
Proof. destruct tmpl; first [apply respects_ret | apply respects_raise]. Qed.

Lemma respects_insert (name : string) (fields : Doc) :
  (∀ c id, R name c (c ++ [(id, to_bson <$> fields)])) →
  respects R (insert_one name fields).
Proof.
  intros HR w other. rewrite coll_insert_one.
  case_decide; [subst; apply HR | apply R_refl].
Qed.

Lemma respects_update (name : string) (q : Query) (fields : list (string * value)) :
  (∀ c c', update_first q (bson_fields fields) c = Some c' → R name c c') →
  respects R (update_one name q fields).
Proof.
  intros HR w. unfold update_one.
  destruct (update_first q (bson_fields fields) (coll name w)) as [c|] eqn:Hu; cbn [snd].
  - apply evolves_set_coll. by apply HR.
  - apply evolves_refl.
Qed.

Lemma respects_upsert (name : string) (q : Query)
    (fields on_insert : list (string * value)) :
  (∀ c c', update_first q (bson_fields fields) c = Some c' → R name c c') →
  (∀ c id d, R name c (c ++ [(id, d)])) →
  respects R (upsert_one name q fields on_insert).
Proof.
  intros HR Hins w. unfold upsert_one.
  destruct (update_first q (bson_fields fields) (coll name w)) as [c|] eqn:Hu;
    cbn [snd].
  - apply evolves_set_coll. by apply HR.
  - by apply respects_insert.
Qed.

Lemma respects_foldM {A S} (body : S → A → M S) (l : list A) (s : S) :
  (∀ s x, respects R (body s x)) → respects R (foldM body s l).
Proof.
  intros Hbody. revert s. induction l as [|x l IH]; intros s; cbn [foldM].
  - apply respects_ret.
  - apply respects_bind; [apply Hbody | exact IH].
Qed.

Ltac respects_head :=
  first
    [ apply respects_ret | apply respects_raise | apply respects_now
    | apply respects_randint | apply respects_choice | apply respects_find
    | apply respects_find_limit | apply respects_find_one
    | apply respects_render_stored ].

Ltac respects_seq :=
  repeat (apply respects_bind; [respects_head | intros ?]); try respects_head.

Lemma respects_create_campaign (name : string) (description : option string) :
  appends R "campaign" → respects R (create_campaign name description).
Proof.
  intros Ha. unfold create_campaign. respects_seq.
  apply respects_bind; [apply respects_insert; intros; apply Ha | intros ?].
  respects_seq.
Qed.

Lemma respects_upload_companies (cid : string) (file : UploadFile) :
  appends R "company" → respects R (upload_companies cid file).
Proof.
  intros Ha. unfold upload_companies. destruct (negb _); [apply respects_raise |].
  apply respects_bind; [| intros count; destruct (csv_error file); respects_head].
  apply respects_foldM. intros count row. unfold upload_row.
  destruct (falsy_text _); respects_seq.
  apply respects_bind; [apply respects_insert; intros; apply Ha | intros ?].
  respects_seq.
Qed.

Lemma respects_upsert_templates (payload : TemplateSet) :
  appends R "template" →
  updates R "template" ["connection_template"; "followup_template"; "updated_at"] →
  respects R (upsert_templates payload).
Proof.
  intros Ha Hu. unfold upsert_templates. respects_seq.
  apply respects_bind; [| intros ?; respects_seq].
  apply respects_upsert; [| exact Ha]. intros c c'. by apply Hu.
Qed.

Lemma respects_search (cid q : string) :
  appends R "prospect" → respects R (search_and_create_prospects cid q).
Proof.
  intros Ha. unfold search_and_create_prospects.
  apply respects_bind; [respects_head |].
  intros [|c cs]; [apply respects_raise |].
  apply respects_foldM. intros created c'. unfold create_for_company.
  apply respects_foldM. intros created' i. unfold create_prospect. respects_seq.
  apply respects_bind; [apply respects_insert; intros; apply Ha | intros ?].
  respects_seq.
Qed.

Lemma respects_connection_step (cid : string) (tmpl : value) (p : Stored) :
  appends R "messagelog" →
  updates R "prospect" ["status"; "last_action_at"; "updated_at"] →
  respects R (connection_step cid tmpl p).
Proof.
  intros Ha Hu. unfold connection_step. respects_seq.
  apply respects_bind; [apply respects_insert; intros; apply Ha | intros ?].
  respects_seq. apply respects_update. intros c c'. by apply Hu.
Qed.

Lemma respects_followup_step (cid : string) (tmpl : value) (u : unit) (p : Stored) :
  appends R "messagelog" →
  updates R "prospect" ["status"; "last_action_at"; "updated_at"] →
  respects R (followup_step cid tmpl u p).
Proof.
  intros Ha Hu. unfold followup_step. respects_seq.
  apply respects_bind; [apply respects_insert; intros; apply Ha | intros ?].
  respects_seq. apply respects_update. intros c c'. by apply Hu.
Qed.

Lemma respects_connection_loop (cid : string) (tmpl : value) (L : Z)
    (cursor : list Stored) (processed : Z) :
  appends R "messagelog" →
  updates R "prospect" ["status"; "last_action_at"; "updated_at"] →
  respects R (connection_loop cid tmpl L cursor processed).
Proof.
  intros Ha Hu. revert processed.
  induction cursor as [|p rest IH]; intros processed;
    cbn [connection_loop]; [apply respects_ret |].
  destruct (processed >=? L); [apply respects_ret |].
  apply respects_bind; [by apply respects_connection_step | intros _; apply IH].
Qed.

Lemma respects_process_automation (cid : string) :
  appends R "messagelog" →
  updates R "prospect" ["status"; "last_action_at"; "updated_at"] →
  respects R (process_automation cid).
Proof.
  intros Ha Hu. unfold process_automation. respects_seq.
  apply respects_bind.
  - unfold connection_phase. apply respects_bind; [respects_head |].
    intros cursor. by apply respects_connection_loop.
  - intros _. unfold followup_phase. respects_seq.
    apply respects_foldM. intros u p. by apply respects_followup_step.
Qed.

End Evolution.

Section Steps.
Context `{DatetimeText}.
Variable R : string → relation Collection.
Hypothesis R_refl : ∀ name c, R name c c.
Hypothesis R_trans : ∀ name c1 c2 c3, R name c1 c2 → R name c2 c3 → R name c1 c3.

Lemma respects_draw : respects R draw.
Proof. intros w. by apply evolves_same. Qed.

(** A call of the service moves the collections along a relation that
    allows the appends and the two updates on [names]. *)
Lemma exec_respects (names : list string) {X} (o : op X) :
  fits names o →
  (∀ name, name ∈ names → appends R name) →
  ("template" ∈ names →
   updates R "template" ["connection_template"; "followup_template"; "updated_at"]) →
  ("prospect" ∈ names →
   updates R "prospect" ["status"; "last_action_at"; "updated_at"]) →
  respects R (exec o).
Proof.
  intros Ho Ha Ht Hp. destruct o; cbn [fits exec] in *.
  - by apply respects_now.
  - apply respects_draw.
  - by apply respects_find.
  - by apply respects_find_limit.
  - by apply respects_find_one.
  - destruct Ho as (Hin & _). apply respects_insert; [done |].
    intros c id. by apply Ha.
  - destruct Ho as (-> & Hin & id & s & t2 & t3 & -> & -> & _).
    apply respects_update; [done |]. intros c c'. by apply Hp.
  - destruct Ho as (-> & Hin & cid & a & b & t & t' & -> & -> & ->).
    apply respects_upsert; [done | |].
    + intros c c'. by apply Ht.
    + by apply Ha.
Qed.

(** Whatever the interleaving, the service moves the collections along
    such a relation, when the requests that arrive write to [names]. *)
Lemma serve_respects (names : list string) (es : list event) (w : World) :
  (∀ r, Arrive r ∈ es → written r ⊆ names) →
  (∀ name, name ∈ names → appends R name) →
  ("template" ∈ names →
   updates R "template" ["connection_template"; "followup_template"; "updated_at"]) →
  ("prospect" ∈ names →
   updates R "prospect" ["status"; "last_action_at"; "updated_at"]) →
  evolves R w (world (serve es (idle w))).
Proof.
  intros Hes Ha Ht Hp.
  refine (serve_along (evolves R) (evolves_refl R R_refl) (evolves_trans R R_trans)
            (@fits names) _ es (idle w) _ _).
  - intros X o w' Ho. by apply (exec_respects names).
  - intros r Hr. pose proof (task_fits r) as Hfit.
    destruct (task_of r) as [A p]. cbn [task_ops] in *.
    eapply all_ops_impl; [| exact Hfit].
    intros X o. by apply fits_mono, Hes.
  - constructor.
Qed.

End Steps.

Section Frame.
Context `{DatetimeText}.

Lemma only_in_refl (names : list string) (name : string) (c : Collection) :
  only_in names name c c.
Proof. by right. Qed.

Lemma only_in_trans (names : list string) (name : string) (c1 c2 c3 : Collection) :
  only_in names name c1 c2 → only_in names name c2 c3 → only_in names name c1 c3.
Proof. intros [?| ->] [?| ->]; [by left.. | by right]. Qed.

Lemma only_in_appends (names : list string) (name : string) :
  name ∈ names → appends (only_in names) name.
Proof. intros Hin c id d. by left. Qed.

Lemma only_in_updates (names : list string) (name : string) (keys : list string) :
  name ∈ names → updates (only_in names) name keys.
Proof. intros Hin q fields c c' _ _. by left. Qed.

Lemma alone_frame (r : request) (w : World) :
  evolves (only_in (written r)) w (alone (task_of r) w).
Proof.
  pose proof (only_in_refl (written r)) as Hr.
  pose proof (only_in_trans (written r)) as Ht.
  rewrite alone_task_of. destruct r; cbn [written] in *.
  - apply respects_create_campaign; [done.. |]. apply only_in_appends. set_solver.
  - apply respects_upload_companies; [done.. |]. apply only_in_appends. set_solver.
  - apply respects_upsert_templates; [done.. | |].
    + apply only_in_appends. set_solver.
    + apply only_in_updates. set_solver.
  - apply respects_search; [done.. |]. apply only_in_appends. set_solver.
  - apply respects_process_automation; [done.. | |].
    + apply only_in_appends. set_solver.
    + apply only_in_updates. set_solver.
Qed.

Lemma serve_frame (names : list string) (es : list event) (w : World) :
  (∀ r, Arrive r ∈ es → written r ⊆ names) →
  evolves (only_in names) w (world (serve es (idle w))).
Proof.
  intros Hes.
  apply (serve_respects (only_in names) (only_in_refl names) (only_in_trans names)
           names); [exact Hes | ..].
  - intros name Hin. by apply only_in_appends.
  - intros Hin. by apply only_in_updates.
  - intros Hin. by apply only_in_updates.
Qed.

(** X7.  Each writing handler, whether it returns or raises, leaves every
    collection other than its own as it was: campaigns for
    [create_campaign], companies for [upload_companies], templates for
    [upsert_templates], prospects for [search_and_create_prospects],
    message logs and prospects for [process_automation].  This holds
    for a handler that runs with nothing in between, and in every
    interleaving: a collection that none of the requests that arrived
    writes to is as it was. *)
Theorem handlers_write_their_own (r : request) (w : World) (name : string) :
  (name ∈ written r ∨ coll name (alone (task_of r) w) = coll name w)
  ∧ ∀ es, (∀ r', Arrive r' ∈ es → name ∉ written r') →
          coll name (world (serve es (idle w))) = coll name w.
Proof.
  split; [apply alone_frame |].
  intros es Hes.
  set (names := List.filter (λ n, bool_decide (n ≠ name)) collections).
  assert (Hframe : evolves (only_in names) w (world (serve es (idle w)))).
  { apply serve_frame. intros r' Hr' n Hn. apply list_elem_of_In, filter_In. split.
    - apply list_elem_of_In. by apply (written_collections r').
    - apply bool_decide_eq_true_2. intros ->. by apply (Hes r'). }
  destruct (Hframe name) as [Hin|E]; [| exact E].
  apply list_elem_of_In, filter_In in Hin as [_ Hne].
  by apply bool_decide_eq_true in Hne.
Qed.

Lemma same_outside_refl (keys : list string) (sd : Stored) : same_outside keys sd sd.
Proof. by split. Qed.

Lemma same_outside_trans (keys : list string) (x y z : Stored) :
  same_outside keys x y → same_outside keys y z → same_outside keys x z.
Proof.
  intros [E1 K1] [E2 K2]. split; [congruence |].
  intros k Hk. by rewrite K2, K1.
Qed.

Lemma grown_refl (keys : list string) (c : Collection) : grown keys c c.
Proof.
  exists c, []. split; [by rewrite app_nil_r |].
  apply Forall2_same_length_lookup_2; [done |].
  intros i x y Hx Hy. rewrite Hx in Hy. injection Hy as <-. apply same_outside_refl.
Qed.

Lemma Forall2_same_outside_trans (keys : list string) (a b c : Collection) :
  Forall2 (same_outside keys) a b → Forall2 (same_outside keys) b c →
  Forall2 (same_outside keys) a c.
Proof.
  intros Hab. revert c. induction Hab as [|x y a b Hxy Hab IH]; intros c Hbc.
  - by apply Forall2_nil_inv_l in Hbc as ->.
  - apply Forall2_cons_inv_l in Hbc as (z & c' & Hyz & Hbc & ->).
    constructor; [by eapply same_outside_trans | by apply IH].
Qed.

Lemma grown_trans (keys : list string) (c1 c2 c3 : Collection) :
  grown keys c1 c2 → grown keys c2 c3 → grown keys c1 c3.
Proof.
  intros (a & r & -> & Ha) (b & r' & -> & Hb).
  apply Forall2_app_inv_l in Hb as (b1 & b2 & Hb1 & Hb2 & ->).
  exists b1, (b2 ++ r'). split; [by rewrite app_assoc |].
  by eapply Forall2_same_outside_trans.
Qed.

Lemma grown_append (keys : list string) (c : Collection) (sd : Stored) :
  grown keys c (c ++ [sd]).
Proof.
  exists c, [sd]. split; [done |]. destruct (grown_refl keys c) as (c1 & r & E & Hc).
  apply Forall2_same_length_lookup_2; [done |].
  intros i x y Hx Hy. rewrite Hx in Hy. injection Hy as <-. apply same_outside_refl.
Qed.

Lemma apply_set_lookup_other (fields : list (string * value)) (d : Doc) (k : string) :
  k ∉ fields.*1 → apply_set fields d !! k = d !! k.
Proof.
  unfold apply_set. revert d. induction fields as [|[k' v] fields IH]; intros d Hk;
    cbn [foldl fst snd]; [done |].
  rewrite fmap_cons, not_elem_of_cons in Hk. destruct Hk as [Hne Hk].
  rewrite IH by done. cbn [fst] in Hne. by rewrite lookup_insert_ne.
Qed.

Lemma update_first_same_outside (q : Query) (fields : list (string * value))
    (c c' : Collection) :
  update_first q fields c = Some c' → Forall2 (same_outside (fields.*1)) c c'.
Proof.
  revert c'. induction c as [|sd c IH]; intros c' Hu; [done |].
  cbn [update_first] in Hu. destruct (selects q sd).
  - injection Hu as <-. constructor.
    + split; [done |]. intros k Hk. cbn [snd]. by apply apply_set_lookup_other.
    + destruct (grown_refl (fields.*1) c) as (c1 & r & E & Hc).
      apply Forall2_same_length_lookup_2; [done |].
      intros i x y Hx Hy. rewrite Hx in Hy. injection Hy as <-.
      apply same_outside_refl.
  - destruct (update_first q fields c) as [c0|]; [| done].
    injection Hu as <-. constructor; [apply same_outside_refl | by apply IH].
Qed.

Lemma update_first_grown (q : Query) (fields : list (string * value))
    (c c' : Collection) :
  update_first q fields c = Some c' → grown (fields.*1) c c'.
Proof.
  intros Hu. exists c', []. split; [by rewrite app_nil_r |].
  by apply (update_first_same_outside q).
Qed.

Lemma grown_nil_prefix (c c' : Collection) : grown [] c c' → c `prefix_of` c'.
Proof.
  intros (c1 & rest & -> & Hc). exists rest. f_equal.
  induction Hc as [|[i d] [i' d'] c c1 [Hi Hd] Hc IH]; [done |].
  cbn [fst snd] in Hi, Hd. subst i'. f_equal; [| exact IH]. f_equal.
  apply map_eq. intros k. apply Hd. apply not_elem_of_nil.
Qed.

Lemma serve_grown (es : list event) (w : World) :
  evolves (λ name, grown (updatable name)) w (world (serve es (idle w))).
Proof.
  apply (serve_respects (λ name, grown (updatable name))
           (λ name, grown_refl (updatable name))
           (λ name, grown_trans (updatable name)) collections).
  - intros r _. apply written_collections.
  - intros name _ c id d. apply grown_append.
  - intros _ q fields c c' Hk Hc.
    replace (updatable "template") with (fields.*1) by (by rewrite Hk).
    by apply (update_first_grown q).
  - intros _ q fields c c' Hk Hc.
    replace (updatable "prospect") with (fields.*1) by (by rewrite Hk).
    by apply (update_first_grown q).
Qed.

(** X8.  The writing handlers never delete or reorder a stored document and
    never change its identifier, however their steps and those of the
    engine runs interleave.  Campaigns, companies and message logs are
    never changed once stored; of a template only the two templates and
    [updated_at] can change; of a prospect only [status],
    [last_action_at] and [updated_at]. *)
Theorem stored_documents_stay (es : list event) (w : World) :
  let w' := world (serve es (idle w)) in
  (∀ name, grown (updatable name) (coll name w) (coll name w'))
  ∧ coll "campaign" w `prefix_of` coll "campaign" w'
  ∧ coll "company" w `prefix_of` coll "company" w'
  ∧ coll "messagelog" w `prefix_of` coll "messagelog" w'.
Proof.
  intros w'. split; [apply serve_grown |].
  repeat split; apply grown_nil_prefix; apply (serve_grown es w).
Qed.

End Frame.

Section TemplateCount.
Context `{DatetimeText}.

Lemma templates_kept_refl (w : World) : templates_kept w w.
Proof. intros cid. lia. Qed.

Lemma templates_kept_trans (w1 w2 w3 : World) :
  templates_kept w1 w2 → templates_kept w2 w3 → templates_kept w1 w3.
Proof. intros H12 H23 cid. specialize (H12 cid). specialize (H23 cid). lia. Qed.

Lemma templates_kept_same (w w' : World) :
  coll "template" w' = coll "template" w → templates_kept w w'.
Proof. intros E cid. unfold templates_of. rewrite E. lia. Qed.

(** The upsert of a handler, made at any time on any world, is the end
    of an [upsert_templates] on a world whose clock reads the two times
    of the call. *)
Lemma upsert_one_templates (cid a b : string) (t t' : datetime) (w : World) :
  let p := {| campaign_id := cid; connection_template := a;
              followup_template := b |} in
  let w0 := mkWorld (db w) (λ n, if decide (n = ticks w) then t else t') (ticks w)
                    (rng w) (draws w) (oid_gen w) (allocs w) in
  coll "template"
    (upsert_one "template" [("campaign_id", Eq (VStr cid))]
       [("connection_template", VStr a); ("followup_template", VStr b);
        ("updated_at", VDate t)] [("created_at", VDate t')] w).2
  = coll "template" (upsert_templates p w0).2.
Proof.
  intros p w0. rewrite upsert_templates_steps. cbn [snd campaign_id
    connection_template followup_template p].
  cbn [clock ticks w0]. rewrite decide_True, decide_False by lia.
  unfold upsert_one. cbn [now snd].
  change (coll "template" (mkWorld _ _ _ _ _ _ _)) with (coll "template" w).
  destruct (update_first _ _ (coll "template" w)); cbn [snd].
  - by rewrite !coll_set_coll, !decide_True.
  - by rewrite !coll_insert_one, !decide_True.
Qed.

Lemma exec_templates_kept {X} (o : op X) (w : World) :
  fits collections o → templates_kept w (exec o w).2.
Proof.
  destruct o; cbn [fits exec]; try (intros _; by apply templates_kept_same).
  - intros (_ & Hne & _). apply templates_kept_same.
    by rewrite coll_insert_one, decide_False.
  - intros (-> & _). apply templates_kept_same.
    by rewrite coll_update_one, decide_False.
  - intros (-> & _ & cid & a & b & t & t' & -> & -> & ->) c.
    unfold templates_of. rewrite upsert_one_templates.
    set (w0 := mkWorld _ _ _ _ _ _ _).
    change (coll "template" w) with (coll "template" w0).
    apply (upsert_templates_length _ c w0).
Qed.

(** X9.  Requests never remove a Template document of a campaign, and they
    add one only to a campaign that has none: a campaign with at most
    one Template document keeps at most one, whatever is requested and
    however the steps interleave. *)
Theorem one_template_per_campaign (es : list event) (cid : string) (w : World) :
  (length (templates_of cid w)
   ≤ length (templates_of cid (world (serve es (idle w))))
   ≤ Nat.max 1 (length (templates_of cid w)))%nat.
Proof.
  refine (serve_along templates_kept templates_kept_refl templates_kept_trans
            (@fits collections) _ es (idle w) _ _ cid).
  - intros X o w' Ho. by apply exec_templates_kept.
  - intros r _. apply task_fits_collections.
  - constructor.
Qed.

End TemplateCount.

(** ** Statistics and inbox *)

Section Statistics.
Context `{DatetimeText}.

Lemma count_nil (P : Stored → bool) : count P [] = 0.
Proof. reflexivity. Qed.

Lemma count_cons (P : Stored → bool) (sd : Stored) (c : Collection) :
  count P (sd :: c) = Z.b2z (P sd) + count P c.
Proof.
  unfold count. cbn [List.filter]. destruct (P sd); cbn [length Z.b2z]; lia.
Qed.

Lemma count_app (P : Stored → bool) (c1 c2 : Collection) :
  count P (c1 ++ c2) = count P c1 + count P c2.
Proof. unfold count. rewrite List.filter_app, length_app. lia. Qed.

Lemma count_nonneg (P : Stored → bool) (c : Collection) : 0 ≤ count P c.
Proof. unfold count. lia. Qed.

Lemma campaign_stats_run (cid : string) (w : World) :
  campaign_stats cid w
  = (Done {| total := count (selects [("campaign_id", Eq (VStr cid))]) (coll "prospect" w);
             requests_sent := count (selects (status_query cid "requested")) (coll "prospect" w);
             followups_sent := count (selects (status_query cid "followed_up")) (coll "prospect" w);
             connections_accepted := count (selects (status_query cid "accepted")) (coll "prospect" w);
             replies_received := count (selects (status_query cid "replied")) (coll "prospect" w);
             pending := count (selects (status_query cid "pending")) (coll "prospect" w) |},
     w).
Proof. reflexivity. Qed.

Lemma cond_eq_text_decide (s : string) (o : option value) :
  cond_holds (Eq (VStr s)) o = bool_decide (o = Some (VStr s)).
Proof.
  destruct o as [v|]; cbn [cond_holds].
  - apply bool_decide_ext. split; congruence.
  - by rewrite bool_decide_eq_false_2.
Qed.

Lemma selects_status_query (cid s : string) (sd : Stored) :
  selects (status_query cid s) sd
  = bool_decide (sd.2 !! "campaign_id" = Some (VStr cid))
    && bool_decide (sd.2 !! "status" = Some (VStr s)).
Proof.
  unfold selects, status_query, matches, as_dict. cbn [forallb fst snd].
  rewrite !lookup_insert_ne by done. rewrite andb_true_r.
  f_equal; apply cond_eq_text_decide.
Qed.

Lemma selects_status (s : string) (sd : Stored) :
  selects [("status", Eq (VStr s))] sd
  = bool_decide (sd.2 !! "status" = Some (VStr s)).
Proof.
  unfold selects, matches, as_dict. cbn [forallb fst snd].
  rewrite !lookup_insert_ne by done. rewrite andb_true_r. apply cond_eq_text_decide.
Qed.

(** One prospect is counted once: under the total and, when it belongs
    to the campaign, under exactly one of the five statuses or as
    uncounted. *)
Lemma stats_one (cid : string) (sd : Stored) :
  Z.b2z (selects [("campaign_id", Eq (VStr cid))] sd)
  = Z.b2z (selects (status_query cid "pending") sd)
    + Z.b2z (selects (status_query cid "requested") sd)
    + Z.b2z (selects (status_query cid "followed_up") sd)
    + Z.b2z (selects (status_query cid "accepted") sd)
    + Z.b2z (selects (status_query cid "replied") sd)
    + Z.b2z (uncounted cid sd).
Proof.
  unfold uncounted, counted_statuses. cbn [forallb].
  rewrite !selects_status_query, !selects_status, selects_campaign.
  destruct (bool_decide (sd.2 !! "campaign_id" = Some (VStr cid)));
    cbn [andb Z.b2z]; [| reflexivity].
  destruct (sd.2 !! "status") as [v|];
    repeat case_bool_decide; simplify_eq; cbn [negb andb Z.b2z]; done.
Qed.

Lemma stats_sum (cid : string) (c : Collection) :
  count (selects [("campaign_id", Eq (VStr cid))]) c
  = count (selects (status_query cid "pending")) c
    + count (selects (status_query cid "requested")) c
    + count (selects (status_query cid "followed_up")) c
    + count (selects (status_query cid "accepted")) c
    + count (selects (status_query cid "replied")) c
    + count (uncounted cid) c.
Proof.
  induction c as [|sd c IH]; [reflexivity |].
  rewrite !count_cons, IH, (stats_one cid sd). lia.
Qed.

(** X10.  [campaign_stats] only reads.  Its five status counts are counts of
    disjoint sets of prospects of the campaign: the total is their sum
    plus the number of prospects of the campaign with any other status
    or none, so the five counts never add up to more than the total. *)
Theorem campaign_stats_partition (cid : string) (w : World) :
  ∃ s, campaign_stats cid w = (Done s, w)
       ∧ total s = pending s + requests_sent s + followups_sent s
                   + connections_accepted s + replies_received s
                   + count (uncounted cid) (coll "prospect" w)
       ∧ 0 ≤ pending s ∧ 0 ≤ requests_sent s ∧ 0 ≤ followups_sent s
       ∧ 0 ≤ connections_accepted s ∧ 0 ≤ replies_received s
       ∧ pending s + requests_sent s + followups_sent s
         + connections_accepted s + replies_received s ≤ total s.
Proof.
  eexists. split; [apply campaign_stats_run |]. cbn [total pending requests_sent
    followups_sent connections_accepted replies_received].
  pose proof (stats_sum cid (coll "prospect" w)) as Hsum.
  pose proof (count_nonneg (uncounted cid) (coll "prospect" w)).
  repeat split; try apply count_nonneg; lia.
Qed.

Lemma count_zero (P : Stored → bool) (c : Collection) :
  Forall (λ sd, P sd = false) c → count P c = 0.
Proof.
  induction 1 as [|sd c Hsd _ IH]; [reflexivity |].
  by rewrite count_cons, Hsd, IH.
Qed.

Lemma count_all (P : Stored → bool) (c : Collection) :
  Forall (λ sd, P sd = true) c → count P c = Z.of_nat (length c).
Proof.
  induction 1 as [|sd c Hsd _ IH]; [reflexivity |].
  rewrite count_cons, Hsd, IH. cbn [Z.b2z length]. lia.
Qed.

Lemma filter_none (P : Stored → bool) (c : Collection) :
  Forall (λ sd, P sd = false) c → List.filter P c = [].
Proof.
  induction 1 as [|sd c Hsd _ IH]; [reflexivity |].
  cbn [List.filter]. by rewrite Hsd.
Qed.

Lemma allowed_not_counted (s : string) (sd : Stored) :
  allowed_status sd → ¬ In s written_statuses →
  selects [("status", Eq (VStr s))] sd = false.
Proof.
  intros (s' & Hs' & Hin) Hs. rewrite selects_status, Hs'.
  apply bool_decide_eq_false_2. intros [= ->]. by apply Hs.
Qed.

Lemma allowed_status_query (cid s : string) (sd : Stored) :
  allowed_status sd → ¬ In s written_statuses →
  selects (status_query cid s) sd = false.
Proof.
  intros (s' & Hs' & Hin) Hs. rewrite selects_status_query, Hs'.
  rewrite (bool_decide_eq_false_2 (Some (VStr s') = Some (VStr s))).
  - apply andb_false_r.
  - intros [= ->]. by apply Hs.
Qed.

Lemma allowed_counted (cid : string) (sd : Stored) :
  allowed_status sd → uncounted cid sd = false.
Proof.
  intros (s & Hs & Hin). unfold uncounted, counted_statuses. cbn [forallb].
  rewrite !selects_status, Hs. cbn [In written_statuses] in Hin.
  destruct Hin as [<-|[<-|[<-|[]]]]; repeat case_bool_decide; simplify_eq;
    cbn [negb andb]; by rewrite ?andb_false_r.
Qed.

Lemma inbox_run (w : World) :
  inbox w
  = (Done (serialize_all
             (merge_sort (sort_rel "updated_at" (-1))
                (List.filter (selects [("status", Eq (VStr "replied"))])
                   (coll "prospect" w)))), w).
Proof. reflexivity. Qed.

(** X11.  No handler writes the statuses [accepted] or [replied].  Starting
    from a database without prospects, whatever is requested since, the
    statistics of every campaign report no accepted connection and no
    reply, the total is the sum of the pending, requested and followed-up
    counts, and the inbox is empty, however the steps of the handlers
    and of the engine runs interleave. *)
Theorem nothing_accepted_or_replied (es : list event) (cid : string) (w : World) :
  coll "prospect" w = [] →
  let w' := world (serve es (idle w)) in
  ∃ s, campaign_stats cid w' = (Done s, w')
       ∧ connections_accepted s = 0
       ∧ replies_received s = 0
       ∧ total s = pending s + requests_sent s + followups_sent s
       ∧ inbox w' = (Done [], w').
Proof.
  intros Hempty w'.
  assert (Hall : Forall allowed_status (coll "prospect" w')).
  { apply Forall_forall. intros sd Hsd.
    destruct (serve_writes_allowed es w sd Hsd) as [Hold|Hok]; [| exact Hok].
    rewrite Hempty in Hold. by apply elem_of_nil in Hold. }
  assert (Hnot : ∀ s, In s ["accepted"; "replied"] → ¬ In s written_statuses).
  { intros s [<-|[<-|[]]] [|[|[|[]]]]; discriminate. }
  eexists. split; [apply campaign_stats_run |].
  cbn [total pending requests_sent followups_sent connections_accepted
         replies_received].
  pose proof (stats_sum cid (coll "prospect" w')) as Hsum.
  assert (Ha : count (selects (status_query cid "accepted"))
                 (coll "prospect" w') = 0).
  { apply count_zero. eapply Forall_impl; [exact Hall |]. intros sd Hsd.
    apply allowed_status_query; [exact Hsd |]. apply Hnot. by left. }
  assert (Hr : count (selects (status_query cid "replied"))
                 (coll "prospect" w') = 0).
  { apply count_zero. eapply Forall_impl; [exact Hall |]. intros sd Hsd.
    apply allowed_status_query; [exact Hsd |]. apply Hnot. right. by left. }
  assert (Hu : count (uncounted cid) (coll "prospect" w') = 0).
  { apply count_zero. eapply Forall_impl; [exact Hall |]. intros sd Hsd.
    by apply allowed_counted. }
  split; [exact Ha |]. split; [exact Hr |]. split; [lia |].
  rewrite inbox_run, filter_none; [reflexivity |].
  eapply Forall_impl; [exact Hall |]. intros sd Hsd.
  apply allowed_not_counted; [exact Hsd |]. apply Hnot. right. by left.
Qed.

Lemma new_prospect_fields (cid q : string) (c sd : Stored) :
  new_prospect cid q c sd →
  sd.2 !! "campaign_id" = Some (VStr cid) ∧ sd.2 !! "status" = Some (VStr "pending").
Proof.
  intros (f & l & t1 & t2 & _ & _ & ->). unfold prospect_doc.
  rewrite dict_unfold. cbn [apply_set foldl fst snd].
  split; rewrite !lookup_insert_ne by done; by rewrite lookup_insert_eq.
Qed.

(** What a search appends to the prospects. *)
Lemma search_created (cid q : string) (w : World) :
  ∃ docs,
    coll "prospect" (search_and_create_prospects cid q w).2
    = coll "prospect" w ++ docs
    ∧ length docs
      = (2 * length (List.filter (selects [("campaign_id", Eq (VStr cid))])
                       (coll "company" w)))%nat
    ∧ Forall (λ sd, sd.2 !! "campaign_id" = Some (VStr cid)
                    ∧ sd.2 !! "status" = Some (VStr "pending")) docs.
Proof.
  unfold search_and_create_prospects, find, bind.
  set (companies := List.filter _ (coll "company" w)).
  destruct companies as [|c0 cs] eqn:Hcs.
  { exists []. by rewrite app_nil_r. }
  rewrite <- Hcs. clear Hcs.
  destruct (foldM_invariant (create_for_company cid q)
              (λ pre created w',
                 ∃ docs, length docs = (2 * length pre)%nat
                         ∧ coll "prospect" w' = coll "prospect" w ++ docs
                         ∧ Forall (λ sd, sd.2 !! "campaign_id" = Some (VStr cid)
                                         ∧ sd.2 !! "status" = Some (VStr "pending"))
                             docs)
              companies 0 w) as (n & w' & Hrun & docs & Hlen & Hc & HF).
  - exists []. rewrite app_nil_r. repeat split; constructor.
  - intros pre c post created w1 _ (docs & Hlen & Hc & HF).
    destruct (create_for_company_run cid q c created w1)
      as (sd1 & sd2 & w2 & E & N1 & N2 & C & O).
    exists (created + 2), w2. split; [exact E |].
    exists (docs ++ [sd1; sd2]).
    split; [rewrite !length_app; cbn [length]; lia |].
    split; [by rewrite C, Hc, <- app_assoc |].
    apply Forall_app. split; [exact HF |].
    repeat constructor; by eapply new_prospect_fields.
  - exists docs. by rewrite Hrun.
Qed.

(** X12.  After a search for a campaign with N companies the statistics of
    the campaign show 2N more prospects, all of them pending, and the
    other counts as before (N = 0 is the search that raises); the
    statistics of every other campaign are as before. *)
Theorem search_then_stats (cid q other : string) (w : World) :
  let n := Z.of_nat (length (List.filter (selects [("campaign_id", Eq (VStr cid))])
                               (coll "company" w))) in
  let w' := (search_and_create_prospects cid q w).2 in
  ∃ s s' o o',
    campaign_stats cid w = (Done s, w) ∧ campaign_stats cid w' = (Done s', w')
    ∧ campaign_stats other w = (Done o, w) ∧ campaign_stats other w' = (Done o', w')
    ∧ total s' = total s + 2 * n
    ∧ pending s' = pending s + 2 * n
    ∧ requests_sent s' = requests_sent s
    ∧ followups_sent s' = followups_sent s
    ∧ connections_accepted s' = connections_accepted s
    ∧ replies_received s' = replies_received s
    ∧ (other ≠ cid → o' = o).
Proof.
  intros n w'. destruct (search_created cid q w) as (docs & Hc & Hlen & HF).
  fold w' in Hc.
  do 4 eexists. do 4 (split; [apply campaign_stats_run |]).
  cbn [total pending requests_sent followups_sent connections_accepted
         replies_received].
  rewrite !Hc, !count_app.
  assert (Hother : ∀ s, s ≠ "pending" →
            count (selects (status_query cid s)) docs = 0).
  { intros s Hs. apply count_zero. eapply Forall_impl; [exact HF |].
    intros sd [_ Hst]. rewrite selects_status_query, Hst.
    rewrite (bool_decide_eq_false_2 (_ = Some (VStr s))) by congruence.
    apply andb_false_r. }
  assert (Hn : Z.of_nat (length docs) = 2 * n) by (subst n; lia).
  split.
  { rewrite (count_all _ docs), Hn; [reflexivity |]. eapply Forall_impl; [exact HF |].
    intros sd [Hcid _]. rewrite selects_campaign. by apply bool_decide_eq_true_2. }
  split.
  { rewrite (count_all _ docs), Hn; [reflexivity |]. eapply Forall_impl; [exact HF |].
    intros sd [Hcid Hst]. rewrite selects_status_query.
    by rewrite !bool_decide_eq_true_2. }
  rewrite !Hother by done.
  do 4 (split; [lia |]).
  intros Hne.
  assert (Hz : ∀ P : string → Query,
            (∀ sd, selects (P other) sd = true →
                   sd.2 !! "campaign_id" = Some (VStr other)) →
            count (selects (P other)) docs = 0).
  { intros P HP. apply count_zero. eapply Forall_impl; [exact HF |].
    intros sd [Hcid _]. destruct (selects (P other) sd) eqn:E; [| done].
    apply HP in E. congruence. }
  assert (Hq : ∀ s sd, selects (status_query other s) sd = true →
                       sd.2 !! "campaign_id" = Some (VStr other)).
  { intros s sd. rewrite selects_status_query.
    intros [E _]%andb_true_iff. by apply bool_decide_eq_true in E. }
  rewrite (Hz (λ c, [("campaign_id", Eq (VStr c))])).
  2:{ intros sd. rewrite selects_campaign. apply bool_decide_eq_true. }
  rewrite !(Hz (λ c, status_query c _)) by apply Hq.
  f_equal; lia.
Qed.

End Statistics.

(** ** Runs of the engine *)

Section Runs.
Context `{DatetimeText}.

Lemma Forall2_same_outside_refl (keys : list string) (c : Collection) :
  Forall2 (same_outside keys) c c.
Proof. induction c; constructor; [apply same_outside_refl | done]. Qed.

Lemma prospects_kept_run (cid : string) (w : World) :
  evolves prospects_kept w (process_automation cid w).2.
Proof.
  apply respects_process_automation.
  - intros name c _. apply Forall2_same_outside_refl.
  - intros name c1 c2 c3 H12 H23 Hn.
    eapply Forall2_same_outside_trans; [by apply H12 | by apply H23].
  - intros c id d Hn. discriminate Hn.
  - intros q fields c c' Hk Hu _. unfold updatable. cbn [decide]. rewrite <- Hk.
    by apply (update_first_same_outside q).
Qed.

Lemma connection_phase_keeps (cid : string) (tmpl : value) (L : Z) (w : World) :
  Forall2 (same_outside ["status"; "last_action_at"; "updated_at"])
    (coll "prospect" w) (coll "prospect" (connection_phase cid tmpl L w).2).
Proof.
  assert (Hr : respects prospects_kept (connection_phase cid tmpl L)).
  { unfold connection_phase. apply respects_bind.
    - intros name c1 c2 c3 H12 H23 Hn.
      eapply Forall2_same_outside_trans; [by apply H12 | by apply H23].
    - intros w0 name _.
      change (coll name (find_limit "prospect" (pending_query cid) L w0).2)
        with (coll name w0).
      apply Forall2_same_outside_refl.
    - intros cursor. apply respects_connection_loop.
      + intros name c _. apply Forall2_same_outside_refl.
      + intros name c1 c2 c3 H12 H23 Hn.
        eapply Forall2_same_outside_trans; [by apply H12 | by apply H23].
      + intros c id d Hn. discriminate Hn.
      + intros q fields c c' Hk Hu _. unfold updatable. cbn [decide]. rewrite <- Hk.
        by apply (update_first_same_outside q). }
  by apply (Hr w "prospect").
Qed.

(** Rendering reads four fields of the prospect, none of which a send
    changes. *)
Lemma render_same_outside (t : string) (sd sd' : Stored) :
  same_outside ["status"; "last_action_at"; "updated_at"] sd sd' →
  render_template t (as_dict sd') = render_template t (as_dict sd).
Proof.
  intros [_ Hsame]. unfold render_template. f_equal.
  unfold template_fields, dict_get, as_dict.
  rewrite !lookup_insert_ne by done.
  rewrite !Hsame; [done | ..];
    intros Hin; repeat (apply elem_of_cons in Hin as [Hin|Hin]; [discriminate |]);
    by apply elem_of_nil in Hin.
Qed.

Lemma count_same (P : Stored → bool) (c c' : Collection) :
  Forall2 (λ sd sd', P sd' = P sd) c c' → count P c' = count P c.
Proof.
  induction 1 as [|sd sd' c c' Hsd _ IH]; [reflexivity |].
  by rewrite !count_cons, Hsd, IH.
Qed.

(** X13.  A run of the engine, whether it ends or raises, neither adds nor
    removes a prospect: the prospects are the same documents in the same
    order up to [status], [last_action_at] and [updated_at], so the
    total that the statistics report for any campaign is unchanged. *)
Theorem run_keeps_prospects (cid other : string) (w : World) :
  let w' := (process_automation cid w).2 in
  Forall2 (same_outside ["status"; "last_action_at"; "updated_at"])
    (coll "prospect" w) (coll "prospect" w')
  ∧ ∃ s s', campaign_stats other w = (Done s, w)
            ∧ campaign_stats other w' = (Done s', w')
            ∧ total s' = total s.
Proof.
  intros w'. pose proof (prospects_kept_run cid w "prospect" eq_refl) as Hk.
  fold w' in Hk. split; [exact Hk |].
  do 2 eexists. do 2 (split; [apply campaign_stats_run |]). cbn [total].
  apply count_same. eapply Forall2_impl; [exact Hk |].
  intros sd sd' [_ Hsame]. rewrite !selects_campaign.
  rewrite Hsame; [done |].
  unfold updatable. cbn [decide].
  intros Hin. repeat (apply elem_of_cons in Hin as [Hin|Hin]; [discriminate |]).
  by apply elem_of_nil in Hin.
Qed.

Lemma count_zero_filter (P : Stored → bool) (c : Collection) :
  count P c = 0 → List.filter P c = [].
Proof. unfold count. destruct (List.filter P c); [done | cbn [length]; lia]. Qed.

Lemma limit_nil (n : Z) : limit n [] = [].
Proof. unfold limit. destruct (n =? 0); [done | by rewrite firstn_nil]. Qed.

(** X14.  When the statistics of a campaign show no pending and no requested
    prospect, a run of the engine for it ends without writing: the
    database is as before, whatever the stored templates are; it has
    read the clock once and drawn one random number. *)
Theorem run_without_work (cid : string) (s : Stats) (w : World) :
  campaign_stats cid w = (Done s, w) →
  pending s = 0 → requests_sent s = 0 →
  ∃ w', process_automation cid w = (Done tt, w')
        ∧ db w' = db w
        ∧ ticks w' = S (ticks w) ∧ draws w' = S (draws w).
Proof.
  rewrite campaign_stats_run. intros [= <-]. cbn [pending requests_sent].
  intros Hp%count_zero_filter Hr%count_zero_filter.
  assert (Hf : ∀ t, List.filter (selects (followup_query cid t)) (coll "prospect" w) = []).
  { intros t. apply filter_none. apply Forall_forall. intros sd Hsd.
    destruct (selects (followup_query cid t) sd) eqn:E; [| done].
    apply selects_followup in E as (Hc & Hs & _).
    assert (Hin : In sd (List.filter (selects (status_query cid "requested"))
                           (coll "prospect" w))).
    { apply filter_In. split; [by apply list_elem_of_In |].
      rewrite selects_status_query. by rewrite !bool_decide_eq_true_2. }
    rewrite Hr in Hin. destruct Hin. }
  exists (now (draw w).2).2. split; [| done].
  unfold process_automation, bind, find_one, randint, connection_phase,
    followup_phase, find_limit, ret, bind.
  cbn [draw now fst snd].
  change (pending_query cid) with (status_query cid "pending").
  change (coll "prospect" (mkWorld (db w) (clock w) (ticks w) (rng w) (S (draws w))
                             (oid_gen w) (allocs w)))
    with (coll "prospect" w).
  rewrite Hp, limit_nil. cbn [connection_loop ret].
  change (coll "prospect" (mkWorld (db w) (clock w) (S (ticks w)) (rng w) (S (draws w))
                             (oid_gen w) (allocs w)))
    with (coll "prospect" w).
  rewrite Hf, limit_nil. reflexivity.
Qed.

(** ** What the reading handlers return *)

Lemma serialize_stored_ready (sd : Stored) : json_ready (serialize_doc (as_dict sd)).
Proof.
  assert (Hid : as_dict sd !! "_id" = Some (VOid sd.1))
    by (unfold as_dict; by rewrite lookup_insert_eq).
  destruct (serialize_doc_renamed (as_dict sd) (VOid sd.1) "" Hid) as (H1 & H2 & _).
  split; [exact H2 |]. split; [by eexists |].
  intros k t Hv.
  destruct (decide (k = "id")) as [->|Hk1]; [by rewrite H1 in Hv |].
  destruct (decide (k = "_id")) as [->|Hk2]; [by rewrite H2 in Hv |].
  rewrite (proj2 (serialize_stored sd k)) in Hv by done.
  by destruct (sd.2 !! k) as [[]|].
Qed.

Lemma serialize_all_ready (docs : Collection) : Forall json_ready (serialize_all docs).
Proof.
  apply Forall_forall. intros d (sd & -> & _)%list_elem_of_fmap_1.
  apply serialize_stored_ready.
Qed.

(** X15.  Every document that a listing, the inbox, [get_templates] or
    [upsert_templates] returns carries its identifier as text under
    [id], has no [_id] and holds no timestamp: timestamps have become
    text.  [upsert_templates] always returns a document, [get_templates]
    returns one or the empty object. *)
Theorem returned_documents (cid : string) (p : TemplateSet) (w : World) :
  (∃ ds, (list_campaigns w).1 = Done ds ∧ Forall json_ready ds)
  ∧ (∃ ds, (list_companies cid w).1 = Done ds ∧ Forall json_ready ds)
  ∧ (∃ ds, (list_prospects cid w).1 = Done ds ∧ Forall json_ready ds)
  ∧ (∃ ds, (inbox w).1 = Done ds ∧ Forall json_ready ds)
  ∧ (∃ d, (get_templates cid w).1 = Done d ∧ (d = ∅ ∨ json_ready d))
  ∧ (∃ d, (upsert_templates p w).1 = Done (Some d) ∧ json_ready d).
Proof.
  do 4 (split; [eexists; split; [reflexivity | apply serialize_all_ready] |]).
  split.
  - rewrite get_templates_run. eexists. split; [reflexivity |].
    destruct (head (templates_of cid w)) as [sd|]; cbn [from_option];
      [right; apply serialize_stored_ready | by left].
  - destruct (upsert_templates_head p w) as (sd & Hhead & _).
    rewrite upsert_templates_result, Hhead. eexists. split; [reflexivity |].
    apply serialize_stored_ready.
Qed.

End Runs.

Lemma run_without_work_witness :
  ∃ w', process_automation (H := decimal_text) "c1" frozen = (Done tt, w')
        ∧ db w' = db frozen.
Proof.
  destruct (run_without_work (H := decimal_text) "c1" idle_stats frozen
              eq_refl eq_refl eq_refl) as (w' & Hrun & Hdb & _).
  by exists w'.
Defined.

Lemma nothing_accepted_or_replied_witness :
  coll "prospect" frozen = []
  ∧ let w' := world (serve (H := decimal_text)
                       [Arrive (UpsertTemplates hello); Arrive (StartAutomation "c1");
                        Advance 1; Advance 0; Advance 1] (idle frozen)) in
    ∃ s, campaign_stats "c1" w' = (Done s, w') ∧ connections_accepted s = 0.
Proof.
  split; [reflexivity |]. intros w'.
  destruct (nothing_accepted_or_replied (H := decimal_text)
              [Arrive (UpsertTemplates hello); Arrive (StartAutomation "c1");
               Advance 1; Advance 0; Advance 1] "c1" frozen eq_refl)
    as (s & Hs & Ha & _).
  by exists s.
Defined.

(** ** One message of each type per prospect *)

Section Consistency.
Context `{DatetimeText}.


































End Consistency.


(** Two engine runs that overlap: each reads the pending prospects
    before the other has advanced them, and the pending prospect of
    [demo] gets two connection records. *)
Example overlapping_runs_send_twice :
  let es := [Arrive (StartAutomation "c1"); Arrive (StartAutomation "c1");
             Advance 0; Advance 0; Advance 0; Advance 1; Advance 1; Advance 1]
            ++ repeat (Advance 0) 40 in
  let s := serve (H := decimal_text) es (idle demo) in
  pool s = []
  ∧ logged_ids "connection" (world s) = [id_text (mkOid "0a"); id_text (mkOid "0a")].
Proof. vm_compute. split; reflexivity. Qed.

(** ** Uploaded companies in the listing *)

Section Uploads.
Context `{DatetimeText}.

Lemma list_companies_run (cid : string) (w : World) :
  ∃ docs, list_companies cid w = (Done (serialize_all docs), w)
          ∧ docs ≡ₚ List.filter (selects [("campaign_id", Eq (VStr cid))])
                      (coll "company" w).
Proof.
  destruct (find_sort_run "company" [("campaign_id", Eq (VStr cid))]
              "company_name" 1 w) as (docs & E & Hp & _).
  exists docs. split; [| done].
  unfold list_companies. by rewrite (bind_done _ _ _ _ _ E).
Qed.

(** What an upload appends to the companies, whether the reader ends
    or fails after the rows it yields. *)
Lemma upload_created (cid : string) (file : UploadFile) (w : World) :
  if is_csv (content_type file)
  then ∃ docs,
         coll "company" (upload_companies cid file w).2 = coll "company" w ++ docs
         ∧ Forall2 (company_of cid)
             (List.filter (λ row, negb (lacks_company_name row)) (csv_rows file))
             docs
  else (upload_companies cid file w).2 = w.
Proof.
  unfold upload_companies. destruct (is_csv (content_type file)); [| reflexivity].
  cbn [negb].
  destruct (upload_rows_run cid (csv_rows file) w) as (w' & docs & Hrun & Hc & HF & _).
  exists docs. rewrite (bind_done _ _ _ _ _ Hrun).
  split; [| exact HF]. by destruct (csv_error file).
Qed.

Lemma company_docs_listed (cid : string) (rows : list Row) (docs : Collection) :
  Forall2 (company_of cid) rows docs →
  List.filter (selects [("campaign_id", Eq (VStr cid))]) docs = docs
  ∧ Forall2
      (λ row d,
         ∃ name url n u id,
           cell_of row "Company Name" "company_name" (Some name) ∧ name ≠ ""
           ∧ cell_of row "Company LinkedIn URL" "linkedin_url" url
           ∧ stripped name n ∧ stripped (default "" url) u
           ∧ d !! "campaign_id" = Some (VStr cid)
           ∧ d !! "company_name" = Some (VStr n)
           ∧ d !! "linkedin_url" = Some (VStr u)
           ∧ d !! "id" = Some (VStr id))
      rows (serialize_all docs).
Proof.
  induction 1 as [|row sd rows docs Hsd _ [IH1 IH2]]; [by split |].
  destruct Hsd as (name & url & n & u & t1 & t2 & Hname & Hne & Hurl & Hn & Hu & Hsd).
  assert (Hf : sd.2 !! "campaign_id" = Some (VStr cid)
               ∧ sd.2 !! "company_name" = Some (VStr n)
               ∧ sd.2 !! "linkedin_url" = Some (VStr u)).
  { rewrite Hsd, dict_unfold. cbn [apply_set foldl fst snd].
    repeat split; rewrite !lookup_insert_ne by done; by rewrite lookup_insert_eq. }
  destruct Hf as (Hc & Hcn & Hcu). split.
  - cbn [List.filter]. rewrite selects_campaign, bool_decide_eq_true_2 by done.
    by rewrite IH1.
  - cbn [serialize_all fmap list_fmap]. constructor; [| exact IH2].
    exists name, url, n, u, (oid_hex sd.1).
    rewrite (proj2 (serialize_stored sd "campaign_id")) by done.
    rewrite (proj2 (serialize_stored sd "company_name")) by done.
    rewrite (proj2 (serialize_stored sd "linkedin_url")) by done.
    rewrite Hc, Hcn, Hcu. repeat split; try done.
    apply (serialize_stored sd "").
Qed.

(** X17.  The companies of an accepted upload appear in the listing of the
    campaign: the listing afterwards is the listing before together with
    one entry for each row the reader yielded that has a company name,
    carrying the campaign identifier and the name and URL of the row
    without the white space at their ends, whether the reader read the
    file to its end or failed after these rows.  After an upload that
    is refused the listing is as before. *)
Theorem upload_then_list (cid : string) (file : UploadFile) (w : World) :
  let w' := (upload_companies cid file w).2 in
  ∃ before after,
    list_companies cid w = (Done before, w)
    ∧ list_companies cid w' = (Done after, w')
    ∧ if is_csv (content_type file)
      then ∃ new,
             after ≡ₚ before ++ new
             ∧ Forall2
                 (λ row d,
                    ∃ name url n u id,
                      cell_of row "Company Name" "company_name" (Some name)
                      ∧ name ≠ ""
                      ∧ cell_of row "Company LinkedIn URL" "linkedin_url" url
                      ∧ stripped name n ∧ stripped (default "" url) u
                      ∧ d !! "campaign_id" = Some (VStr cid)
                      ∧ d !! "company_name" = Some (VStr n)
                      ∧ d !! "linkedin_url" = Some (VStr u)
                      ∧ d !! "id" = Some (VStr id))
                 (List.filter (λ row, negb (lacks_company_name row)) (csv_rows file))
                 new
      else after = before.
Proof.
  intros w'. pose proof (upload_created cid file w) as Hup. fold w' in Hup.
  destruct (list_companies_run cid w) as (b & Hb & Pb).
  destruct (list_companies_run cid w') as (a & Ha & Pa).
  exists (serialize_all b), (serialize_all a).
  split; [exact Hb |]. split; [exact Ha |].
  destruct (is_csv (content_type file)).
  - destruct Hup as (docs & Hc & HF).
    destruct (company_docs_listed cid _ docs HF) as [Hsel Hnew].
    exists (serialize_all docs). split; [| exact Hnew].
    unfold serialize_all. rewrite <- fmap_app. apply fmap_Permutation.
    by rewrite Pa, Pb, Hc, List.filter_app, Hsel.
  - rewrite Hup in Ha. rewrite Hb in Ha. by injection Ha as <-.
Qed.

End Uploads.

(** ** Statistics against listings; templates against runs *)

Section Agreement.
Context `{DatetimeText}.

Lemma count_le (P Q : Stored → bool) (c : Collection) :
  (∀ sd, P sd = true → Q sd = true) → count P c ≤ count Q c.
Proof.
  intros HPQ. induction c as [|sd c IH]; [done |].
  rewrite !count_cons. specialize (HPQ sd).
  destruct (P sd); [rewrite HPQ by done |]; destruct (Q sd); cbn [Z.b2z]; lia.
Qed.

(** X18.  The statistics and the listings agree: the total of a campaign is
    the number of entries of its prospect listing, and its count of
    replies is at most the number of entries of the inbox, which spans
    all campaigns. *)
Theorem stats_match_listings (cid : string) (w : World) :
  ∃ s prospects replies,
    campaign_stats cid w = (Done s, w)
    ∧ list_prospects cid w = (Done prospects, w)
    ∧ inbox w = (Done replies, w)
    ∧ total s = Z.of_nat (length prospects)
    ∧ replies_received s ≤ Z.of_nat (length replies).
Proof.
  destruct (find_sort_run "prospect" [("campaign_id", Eq (VStr cid))]
              "created_at" (-1) w) as (ps & Eps & Pps & _).
  destruct (find_sort_run "prospect" [("status", Eq (VStr "replied"))]
              "updated_at" (-1) w) as (rs & Ers & Prs & _).
  exists {| total := count (selects [("campaign_id", Eq (VStr cid))]) (coll "prospect" w);
            requests_sent := count (selects (status_query cid "requested")) (coll "prospect" w);
            followups_sent := count (selects (status_query cid "followed_up")) (coll "prospect" w);
            connections_accepted := count (selects (status_query cid "accepted")) (coll "prospect" w);
            replies_received := count (selects (status_query cid "replied")) (coll "prospect" w);
            pending := count (selects (status_query cid "pending")) (coll "prospect" w) |},
    (serialize_all ps), (serialize_all rs).
  split; [apply campaign_stats_run |].
  split; [unfold list_prospects; by rewrite (bind_done _ _ _ _ _ Eps) |].
  split; [unfold inbox; by rewrite (bind_done _ _ _ _ _ Ers) |].
  cbn [total replies_received]. unfold serialize_all. rewrite !length_fmap, Pps, Prs.
  split; [reflexivity |].
  apply count_le. intros sd. rewrite selects_status_query, selects_status.
  by intros [_ ?]%andb_true_iff.
Qed.

Lemma upsert_frame (p : TemplateSet) (w : World) :
  evolves (only_in ["template"]) w (upsert_templates p w).2.
Proof.
  apply respects_upsert_templates.
  - apply only_in_refl.
  - apply only_in_trans.
  - apply only_in_appends, list_elem_of_here.
  - apply only_in_updates, list_elem_of_here.
Qed.

Lemma log_at_fields (cid t type_ : string) (lo hi : Z) (w : World) (i : nat)
    (q : Stored) :
  (log_at cid t type_ lo hi w i q).2 !! "prospect_id" = Some (VStr (oid_hex q.1))
  ∧ (log_at cid t type_ lo hi w i q).2 !! "type" = Some (VStr type_)
  ∧ (log_at cid t type_ lo hi w i q).2 !! "content"
    = Some (VStr (render_template t (as_dict q))).
Proof.
  unfold log_at, message_log. cbn [snd]. rewrite dict_unfold.
  cbn [apply_set foldl fst snd].
  repeat split; rewrite ?lookup_insert_eq; try done;
    rewrite !lookup_insert_ne by done; by rewrite lookup_insert_eq.
Qed.

Lemma upsert_stored_templates (p : TemplateSet) (w : World) :
  let w1 := (upsert_templates p w).2 in
  stored_template (campaign_id p) w1 "connection_template" connection_default
  = VStr (connection_template p)
  ∧ stored_template (campaign_id p) w1 "followup_template" followup_default
    = VStr (followup_template p).
Proof.
  intros w1. destruct (upsert_templates_head p w) as (sd & Hhead & _ & Hc & Hf & _).
  fold w1 in Hhead. unfold stored_template, dict_get. rewrite Hhead.
  cbn [fmap option_fmap option_map default]. unfold as_dict, id.
  rewrite !lookup_insert_ne by done. by rewrite Hc, Hf.
Qed.

(** X19.  The engine writes what the templates say.  After an upsert for a
    campaign, a run of the engine for it ends normally; every record it
    appends names a prospect of the database and holds the payload's
    connection template (type [connection]) or follow-up template (type
    [followup]) rendered on that prospect; and the first records are
    the connection records of the first pending prospects of the
    campaign, up to the limit drawn, in their order. *)
Theorem upsert_then_run (p : TemplateSet) (w : World) :
  NoDup (coll "prospect" w).*1 →
  let cid := campaign_id p in
  let w1 := (upsert_templates p w).2 in
  let L := randint_of 10 20 (rng w1 (draws w1)) in
  let sel := take (Z.to_nat L) (List.filter (is_pending cid) (coll "prospect" w)) in
  ∃ w2 logs,
    process_automation cid w1 = (Done tt, w2)
    ∧ coll "messagelog" w2 = coll "messagelog" w ++ logs
    ∧ Forall
        (λ log : Stored,
           ∃ q : Stored,
             q ∈ coll "prospect" w
             ∧ log.2 !! "prospect_id" = Some (VStr (oid_hex q.1))
             ∧ (log.2 !! "type" = Some (VStr "connection")
                ∧ log.2 !! "content"
                  = Some (VStr (render_template (connection_template p) (as_dict q)))
                ∨ log.2 !! "type" = Some (VStr "followup")
                  ∧ log.2 !! "content"
                    = Some (VStr (render_template (followup_template p) (as_dict q)))))
        logs
    ∧ ∀ i q, sel !! i = Some q →
             ∃ log, logs !! i = Some log
                    ∧ log.2 !! "prospect_id" = Some (VStr (oid_hex q.1))
                    ∧ log.2 !! "type" = Some (VStr "connection")
                    ∧ log.2 !! "content"
                      = Some (VStr (render_template (connection_template p)
                                      (as_dict q))).
Proof.
  intros Hnd cid w1 L sel.
  assert (Hp1 : coll "prospect" w1 = coll "prospect" w).
  { destruct (upsert_frame p w "prospect") as [Hin|E]; [| exact E].
    apply list_elem_of_singleton in Hin. discriminate. }
  assert (Hm1 : coll "messagelog" w1 = coll "messagelog" w).
  { destruct (upsert_frame p w "messagelog") as [Hin|E]; [| exact E].
    apply list_elem_of_singleton in Hin. discriminate. }
  pose proof (daily_limit_range w1) as HL.
  change (daily_limit_of w1) with L in HL.
  destruct (upsert_stored_templates p w) as [Htc Htf]. fold w1 cid in Htc, Htf.
  destruct (connection_run cid (connection_template p) w1)
    as (w1' & Hrun1 & Hproc & Hdone1); [by rewrite Hp1 | exact Htc |].
  change (daily_limit_of w1) with L in Hrun1, Hproc, Hdone1.
  rewrite Htf in Hproc. rewrite Hp1, limit_take, filter_pending in Hdone1 by lia.
  fold sel in Hdone1.
  destruct Hdone1 as (_ & _ & _ & _ & _ & _ & Dlog1 & Dids1 & _).
  destruct (followup_phase_run cid (followup_template p) L w1')
    as (w2 & Hrun2 & Hdone2).
  { rewrite Dids1. change (coll "prospect" (draw w1).2) with (coll "prospect" w1).
    by rewrite Hp1. }
  destruct Hdone2 as (_ & _ & _ & _ & _ & _ & Dlog2 & _).
  change (coll "messagelog" (now w1').2) with (coll "messagelog" w1') in Dlog2.
  change (coll "messagelog" (draw w1).2) with (coll "messagelog" w1) in Dlog1.
  rewrite Dlog1, Hm1, <- app_assoc in Dlog2.
  pose proof (connection_phase_keeps cid (VStr (connection_template p)) L (draw w1).2)
    as Hkept.
  rewrite Hrun1 in Hkept. cbn [snd] in Hkept.
  change (coll "prospect" (draw w1).2) with (coll "prospect" w1) in Hkept.
  rewrite Hp1 in Hkept.
  eexists w2, _. split; [by rewrite Hproc in * |]. split; [exact Dlog2 |]. split.
  - apply Forall_app. split; apply Forall_forall; intros log Hlog;
      apply elem_of_lookup_imap in Hlog as (i & q & -> & Hq).
    + destruct (log_at_fields cid (connection_template p) "connection" 2 30
                  (draw w1).2 i q) as (Hc1 & Hc2 & Hc3).
      exists q. split; [| by split; [| left]].
      apply list_elem_of_lookup_2 in Hq.
      eapply elem_of_sublist; [exact Hq |].
      etrans; [apply sublist_take | apply filter_sublist].
    + destruct (log_at_fields cid (followup_template p) "followup" 5 45
                  (now w1').2 i q) as (Hf1 & Hf2 & Hf3).
      assert (Hq' : q ∈ coll "prospect" w1').
      { apply list_elem_of_lookup_2 in Hq.
        eapply elem_of_sublist; [exact Hq |].
        etrans; [apply limit_sublist | apply filter_sublist]. }
      apply list_elem_of_lookup_1 in Hq' as (j & Hj).
      destruct (Forall2_lookup_r _ _ _ _ _ Hkept Hj) as (q0 & Hq0 & Hsame).
      exists q0. split; [by eapply list_elem_of_lookup_2 |].
      rewrite <- (proj1 Hsame).
      rewrite <- (render_same_outside (followup_template p) q0 q Hsame).
      by split; [| right].
  - intros i q Hi.
    exists (log_at cid (connection_template p) "connection" 2 30 (draw w1).2 i q).
    split; [| apply log_at_fields].
    rewrite lookup_app_l by (rewrite length_imap; by eapply lookup_lt_Some).
    by rewrite list_lookup_imap, Hi.
Qed.

End Agreement.

Lemma upsert_then_run_witness :
  NoDup (coll "prospect" demo).*1
  ∧ ∃ w2, process_automation (H := decimal_text) "c1"
            (upsert_templates (H := decimal_text) hello demo).2 = (Done tt, w2).
Proof.
  assert (Hnd : NoDup (coll "prospect" demo).*1)
    by (apply (bool_decide_unpack _); vm_compute; exact I).
  split; [exact Hnd |].
  destruct (upsert_then_run (H := decimal_text) hello demo Hnd) as (w2 & logs & Hrun & _).
  by exists w2.
Defined.
